(** * Pixel-art pipeline of [src/app/components/ImageGenerator.tsx]

    A shallow embedding of the image helpers of the component
    ([getOpaqueBounds], [quantizeImageToPalette], [findNearestInPalette],
    [createPixelOutline], [normalizeImageBlob] and the geometry of
    [pixelateImage]) together with the properties stated about them.

    Numbers.  JavaScript has one numeric type, the IEEE-754 binary64
    double.  Quantities that are integers in every run (array indices,
    coordinates, widths and heights, byte channels, the outline thickness,
    the block size, the size limit) are modelled by [nat] and [Z]: on
    integers of this size the double arithmetic of the source is exact and
    [Math.floor (a / b)] is [Z.div].  The fractional computations of the
    quantizer and of the compositor (the weighted colour distance, the
    dither perturbation, the coverage factor 0.6) are modelled by Rocq's
    primitive binary64 floats, which are the same doubles; the only fact
    about them that is not obtained by evaluation is that their boolean
    Leibniz test decides equality.  The scale factor of the normalizer is
    modelled by an exact rational. *)

From Stdlib Require Import ZArith QArith Qround List Lia Bool.
From Stdlib Require Import Floats.PrimFloat Floats.FloatOps Floats.SpecFloat.
From Stdlib Require Import Floats.FloatAxioms.
From Stdlib Require Import Numbers.Cyclic.Int63.Uint63.
From Stdlib Require Strings.String.
From stdpp Require Import base list.
Import String.StringSyntax.
Delimit Scope string_scope with string.

Set Warnings "-inexact-float".
Open Scope Z_scope.

(** ** JavaScript numbers *)

Module JS.

(** The double of an integer (exact below 2^53). *)
Definition num (z : Z) : float :=
  if z <? 0 then PrimFloat.opp (PrimFloat.of_uint63 (Uint63.of_Z (- z)))
  else PrimFloat.of_uint63 (Uint63.of_Z z).

(** [Math.floor] of a finite double, as an integer.  The source applies it
    to finite values only; infinities and NaN, which have no integer
    value, are sent to 0 here. *)
Definition Math_floor (v : float) : Z :=
  match Prim2SF v with
  | S754_finite s m e =>
      let n := if s then Z.neg m else Z.pos m in
      if 0 <=? e then n * 2 ^ e else n / 2 ^ (- e)
  | _ => 0
  end.

Definition is_neg_zero (v : float) : bool :=
  match PrimFloat.classify v with
  | FloatClass.NZero => true
  | _ => false
  end.

(** [Math.max] and [Math.min] on two doubles: NaN is contagious and
    [-0] is smaller than [+0]. *)
Definition Math_max (a b : float) : float :=
  if PrimFloat.is_nan a || PrimFloat.is_nan b then PrimFloat.nan
  else if PrimFloat.ltb a b then b
  else if PrimFloat.ltb b a then a
  else if is_neg_zero a then b else a.

Definition Math_min (a b : float) : float :=
  if PrimFloat.is_nan a || PrimFloat.is_nan b then PrimFloat.nan
  else if PrimFloat.ltb a b then a
  else if PrimFloat.ltb b a then b
  else if is_neg_zero b then b else a.

(** A store into a [Uint8ClampedArray] of an integer value. *)
Definition toUint8Clamped (v : Z) : Z := Z.max 0 (Z.min 255 v).

End JS.

(** ** Loops

    [for (let i = 0; i < n; i++) s = body i s], and the raster scan
    [for y < height, for x < width]. *)

Fixpoint for_loop {S : Type} (n : nat) (body : nat -> S -> S) (s : S) : S :=
  match n with
  | O => s
  | Datatypes.S n' => body n' (for_loop n' body s)
  end.

Definition raster {S : Type} (w h : nat) (body : nat -> nat -> S -> S) (s : S) : S :=
  for_loop h (fun y s => for_loop w (fun x s => body x y s) s) s.

(** The same loops for a body that may throw ([None]). *)
Fixpoint for_loopM {S : Type} (n : nat) (body : nat -> S -> option S) (s : S) : option S :=
  match n with
  | O => Some s
  | Datatypes.S n' =>
      match for_loopM n' body s with
      | Some s' => body n' s'
      | None => None
      end
  end.

Definition rasterM {S : Type} (w h : nat) (body : nat -> nat -> S -> option S) (s : S)
  : option S :=
  for_loopM h (fun y s => for_loopM w (fun x s => body x y s) s) s.

(** ** ImageData *)

Record ImageData : Type := mkImageData {
  width : nat;
  height : nat;
  data : list Z
}.

(** [new ImageData(width, height)]: transparent black. *)
Definition newImageData (w h : nat) : ImageData :=
  mkImageData w h (repeat 0 (4 * w * h)).

(** The invariant of every [ImageData] the browser hands out: four bytes
    per pixel. *)
Definition is_byte (v : Z) : Prop := 0 <= v <= 255.

Definition wf_image (img : ImageData) : Prop :=
  length (data img) = (4 * width img * height img)%nat /\ Forall is_byte (data img).

(** An array read [arr[i]].  In a well-formed image every read of the
    source is inside the array.  Outside it JavaScript yields [undefined];
    the model reads 0, which the alpha test [> 10] of [createPixelOutline]
    does not tell apart from [undefined], and the statements about the
    other scans assume a well-formed image. *)
Definition rd (arr : list Z) (i : nat) : Z := default 0 (arr !! i).

(** Offset of pixel (x, y) in [data]: [(y * width + x) * 4]. *)
Definition pix (w x y : nat) : nat := ((y * w + x) * 4)%nat.

Definition rgba (arr : list Z) (idx : nat) : Z * Z * Z * Z :=
  (rd arr idx, rd arr (idx + 1), rd arr (idx + 2), rd arr (idx + 3)).

(** ** getOpaqueBounds *)

Record Rect : Type := mkRect { rx : Z; ry : Z; rw : Z; rh : Z }.

Record Bounds : Type := mkBounds { minX : Z; minY : Z; maxX : Z; maxY : Z }.

Definition bounds_step (dat : list Z) (w : nat) (alphaThreshold : Z)
    (x y : nat) (b : Bounds) : Bounds :=
  let idx := pix w x y in
  let a := rd dat (idx + 3) in
  if alphaThreshold <? a then
    let b := if Z.of_nat x <? minX b then mkBounds (Z.of_nat x) (minY b) (maxX b) (maxY b) else b in
    let b := if maxX b <? Z.of_nat x then mkBounds (minX b) (minY b) (Z.of_nat x) (maxY b) else b in
    let b := if Z.of_nat y <? minY b then mkBounds (minX b) (Z.of_nat y) (maxX b) (maxY b) else b in
    let b := if maxY b <? Z.of_nat y then mkBounds (minX b) (minY b) (maxX b) (Z.of_nat y) else b in
    b
  else b.

Definition scanBounds (image : ImageData) (alphaThreshold : Z) : Bounds :=
  raster (width image) (height image)
    (bounds_step (data image) (width image) alphaThreshold)
    (mkBounds (Z.of_nat (width image)) (Z.of_nat (height image)) (-1) (-1)).

Definition getOpaqueBounds (image : ImageData) (alphaThreshold : Z) : option Rect :=
  let b := scanBounds image alphaThreshold in
  if (maxX b <? minX b) || (maxY b <? minY b) then None
  else Some (mkRect (minX b) (minY b) (maxX b - minX b + 1) (maxY b - minY b + 1)).

(** [getOpaqueBounds(srcImage, 16) || { x: 0, y: 0, w: width, h: height }]
    in [pixelateImage]. *)
Definition cropBounds (srcImage : ImageData) : Rect :=
  match getOpaqueBounds srcImage 16 with
  | Some r => r
  | None => mkRect 0 0 (Z.of_nat (width srcImage)) (Z.of_nat (height srcImage))
  end.

(** Alpha of pixel (x, y), as the scans read it: [data[idx + 3]]. *)
Definition alpha_at (image : ImageData) (x y : nat) : Z :=
  rd (data image) (pix (width image) x y + 3).

(** ** Vocabulary of the statements about [getOpaqueBounds] *)

(** Pixel (x, y) qualifies: it is inside the buffer and its alpha exceeds
    the threshold. *)
Definition qualifies (image : ImageData) (alphaThreshold : Z) (x y : nat) : Prop :=
  (x < width image)%nat /\ (y < height image)%nat /\ alphaThreshold < alpha_at image x y.

(** A qualifying pixel among the first [n] pixels of the scan. *)
Definition seen (image : ImageData) (alphaThreshold : Z) (n x y : nat) : Prop :=
  qualifies image alphaThreshold x y /\ (y * width image + x < n)%nat.

Definition bounds_init (image : ImageData) : Bounds :=
  mkBounds (Z.of_nat (width image)) (Z.of_nat (height image)) (-1) (-1).

(** After the first [n] pixels of the scan: the box holds every qualifying
    pixel seen, and either nothing qualified yet or each side of the box is
    touched by a qualifying pixel. *)
Definition bounds_inv (image : ImageData) (alphaThreshold : Z) (n : nat) (b : Bounds) : Prop :=
  (forall x y, seen image alphaThreshold n x y ->
     minX b <= Z.of_nat x <= maxX b /\ minY b <= Z.of_nat y <= maxY b) /\
  ((b = bounds_init image /\ forall x y, ~ seen image alphaThreshold n x y) \/
   ((exists x y, seen image alphaThreshold n x y /\ Z.of_nat x = minX b) /\
    (exists x y, seen image alphaThreshold n x y /\ Z.of_nat x = maxX b) /\
    (exists x y, seen image alphaThreshold n x y /\ Z.of_nat y = minY b) /\
    (exists x y, seen image alphaThreshold n x y /\ Z.of_nat y = maxY b))).

(** ** Sample buffers *)

Definition blank_2x2 : ImageData :=
  mkImageData 2 2 [10;20;30;0; 10;20;30;16; 0;0;0;3; 0;0;0;0].

Definition dot_3x2 : ImageData :=
  mkImageData 3 2 [0;0;0;0; 9;9;9;200; 0;0;0;0;
                   0;0;0;17; 1;1;1;255; 0;0;0;16].

(** ** Palettes and the dither matrix *)

Inductive PaletteName : Type := gb | nes | ega | c64 | pico8.

Abbreviation Palette := (list (Z * Z * Z)).

Definition PALETTES (name : PaletteName) : Palette :=
  match name with
  | gb =>
      [ (15, 56, 15); (48, 98, 48); (139, 172, 15); (155, 188, 15) ]
  | nes =>
      [ (124, 124, 124); (0, 0, 252); (0, 0, 188); (68, 40, 188);
        (148, 0, 132); (168, 0, 32); (168, 16, 0); (136, 20, 0);
        (80, 48, 0); (0, 120, 0); (0, 104, 0); (0, 88, 0);
        (0, 64, 88); (0, 0, 0); (188, 188, 188); (248, 248, 248) ]
  | ega =>
      [ (0, 0, 0); (0, 0, 170); (0, 170, 0); (0, 170, 170);
        (170, 0, 0); (170, 0, 170); (170, 85, 0); (170, 170, 170);
        (85, 85, 85); (85, 85, 255); (85, 255, 85); (85, 255, 255);
        (255, 85, 85); (255, 85, 255); (255, 255, 85); (255, 255, 255) ]
  | c64 =>
      [ (0, 0, 0); (255, 255, 255); (136, 0, 0); (170, 255, 238);
        (204, 68, 204); (0, 204, 85); (0, 0, 170); (238, 238, 119);
        (221, 136, 85); (102, 68, 0); (255, 119, 119); (51, 51, 51);
        (119, 119, 119); (170, 255, 102); (0, 136, 255); (187, 187, 187) ]
  | pico8 =>
      [ (0, 0, 0); (29, 43, 83); (126, 37, 83); (0, 135, 81);
        (171, 82, 54); (95, 87, 79); (194, 195, 199); (255, 241, 232);
        (255, 0, 77); (255, 163, 0); (255, 236, 39); (0, 228, 54);
        (41, 173, 255); (131, 118, 156); (255, 119, 168); (255, 204, 170) ]
  end.

Definition BAYER_4X4 : list (list Z) :=
  [ [0; 8; 2; 10];
    [12; 4; 14; 6];
    [3; 11; 1; 9];
    [15; 7; 13; 5] ].

(** [BAYER_4X4[y & 3][x & 3]] *)
Definition bayer (x y : nat) : Z :=
  nth (Nat.land x 3) (nth (Nat.land y 3) BAYER_4X4 []) 0.

(** ** quantizeImageToPalette *)

Definition clamp255 (v : float) : float :=
  if PrimFloat.ltb v 0 then 0%float
  else if PrimFloat.ltb 255 v then 255%float
  else v.

(** The weighted squared distance of [findNearestInPalette]:
    [0.3 * dr * dr + 0.59 * dg * dg + 0.11 * db * db]. *)
Definition weighted_distance (r g b : float) (p : Z * Z * Z) : float :=
  let '(pr, pg, pb) := p in
  let dr := (r - JS.num pr)%float in
  let dg := (g - JS.num pg)%float in
  let db := (b - JS.num pb)%float in
  (0.3 * dr * dr + 0.59 * dg * dg + 0.11 * db * db)%float.

(** One turn of the search loop on the state [(bestIdx, bestD)]. *)
Definition nearest_step (r g b : float) (palette : Palette) (i : nat)
    (st : nat * float) : nat * float :=
  match palette !! i with
  | Some p =>
      let d := weighted_distance r g b p in
      if PrimFloat.ltb d (snd st) then (i, d) else st
  | None => st
  end.

(** [palette[bestIdx]]; [None] is [undefined], returned on an empty palette. *)
Definition findNearestInPalette (r g b : float) (palette : Palette) : option (Z * Z * Z) :=
  let st := for_loop (length palette) (nearest_step r g b palette) (O, PrimFloat.infinity) in
  palette !! fst st.

Definition ditherAmp_of (ditherStrength01 : float) : float :=
  (JS.Math_max 0 (JS.Math_min 1 ditherStrength01) * 32)%float.

(** The colour handed to the palette search: the pixel's channels, moved
    along the Bayer threshold when dithering is on. *)
Definition dithered (dat : list Z) (idx : nat) (ditherAmp : float) (x y : nat)
  : float * float * float :=
  let r := JS.num (rd dat idx) in
  let g := JS.num (rd dat (idx + 1)) in
  let b := JS.num (rd dat (idx + 2)) in
  if PrimFloat.ltb 0 ditherAmp then
    let t := (JS.num (bayer x y) / 15)%float in
    let offset := ((t - 0.5) * 2 * ditherAmp)%float in
    let yLum := (0.2126 * r + 0.7152 * g + 0.0722 * b)%float in
    (clamp255 (r + offset * (r / (yLum + 1))),
     clamp255 (g + offset * (g / (yLum + 1))),
     clamp255 (b + offset * (b / (yLum + 1))))
  else (r, g, b).

(** The four stores [outData[idx .. idx + 3] = ...]. *)
Definition store4 (idx : nat) (px : Z * Z * Z * Z) (outData : list Z) : list Z :=
  let '(r, g, b, a) := px in
  <[(idx + 3)%nat := a]> (<[(idx + 2)%nat := b]> (<[(idx + 1)%nat := g]> (<[idx := r]> outData))).

(** The body of the scan.  Destructuring the result of the palette search
    throws a TypeError when it is [undefined]: [None]. *)
Definition quantize_step (dat : list Z) (w : nat) (palette : Palette) (ditherAmp : float)
    (x y : nat) (outData : list Z) : option (list Z) :=
  let idx := pix w x y in
  let a := rd dat (idx + 3) in
  if a <? 5 then Some (store4 idx (0, 0, 0, 0) outData)
  else
    let '(r, g, b) := dithered dat idx ditherAmp x y in
    match findNearestInPalette r g b palette with
    | Some (qr, qg, qb) =>
        Some (store4 idx (JS.toUint8Clamped qr, JS.toUint8Clamped qg,
                          JS.toUint8Clamped qb, 255) outData)
    | None => None
    end.

Definition quantizeImageToPalette (src : ImageData) (palette : Palette)
    (ditherStrength01 : float) : option ImageData :=
  let out := newImageData (width src) (height src) in
  let ditherAmp := ditherAmp_of ditherStrength01 in
  match rasterM (width src) (height src)
          (quantize_step (data src) (width src) palette ditherAmp) (data out) with
  | Some outData => Some (mkImageData (width src) (height src) outData)
  | None => None
  end.

(** What the scan leaves at pixel (x, y). *)
Definition quantized_pixel (dat : list Z) (w : nat) (palette : Palette) (ditherAmp : float)
    (x y : nat) : option (Z * Z * Z * Z) :=
  let idx := pix w x y in
  if rd dat (idx + 3) <? 5 then Some (0, 0, 0, 0)
  else
    let '(r, g, b) := dithered dat idx ditherAmp x y in
    match findNearestInPalette r g b palette with
    | Some (qr, qg, qb) =>
        Some (JS.toUint8Clamped qr, JS.toUint8Clamped qg, JS.toUint8Clamped qb, 255)
    | None => None
    end.

(** A palette of RGB8 triples with at least one entry. *)
Definition is_rgb8 (p : Z * Z * Z) : Prop :=
  is_byte (fst (fst p)) /\ is_byte (snd (fst p)) /\ is_byte (snd p).

Definition wf_palette (palette : Palette) : Prop :=
  palette <> [] /\ Forall is_rgb8 palette.


(** ** Exhaustive checks over byte values

    Facts about the doubles computed by [weighted_distance] on byte-valued
    colours are settled by evaluating them on every byte. *)

Definition byte_values : list Z := map Z.of_nat (seq 0 256).

Definition for_all_bytes (f : Z -> bool) : bool := forallb f byte_values.

(** One term [c * d * d] of the distance, for an integer difference [d]. *)
Definition weighted_square (c : float) (d : Z) : float :=
  (c * JS.num d * JS.num d)%float.

(** [c * d * d] does not depend on the sign of [d], checked on every byte. *)
Definition square_sign_free (c : float) : Prop :=
  for_all_bytes (fun d =>
    PrimFloat.Leibniz.eqb (weighted_square c (- d)) (weighted_square c d)) = true.

Definition square_table (c : float) : list (Z * float) :=
  map (fun d => (d, weighted_square c d)) byte_values.

Definition positive_or_same (dr dg db : Z) (d : float) : bool :=
  ((dr =? 0) && (dg =? 0) && (db =? 0))
  || (PrimFloat.ltb 0 d && negb (PrimFloat.ltb d 0)).

(** The distance is strictly positive unless the three differences are 0,
    for the differences listed in three tables. *)
Definition check_tables (tr tg tb : list (Z * float)) : bool :=
  forallb (fun er =>
    forallb (fun eg =>
      let s := (snd er + snd eg)%float in
      forallb (fun eb =>
        positive_or_same (fst er) (fst eg) (fst eb) (s + snd eb)%float) tb) tg) tr.

(** ** createPixelOutline *)

(** Truthiness of an array element: [if (dilated[i])]. *)
Definition truthy (v : Z) : bool := negb (v =? 0).

(** [for (i < width * height) mask[i] = data[i * 4 + 3] > 10 ? 1 : 0] *)
Definition alpha_mask (src : ImageData) : list Z :=
  for_loop (width src * height src)
    (fun i mask => <[i := if 10 <? rd (data src) (i * 4 + 3) then 1 else 0]> mask)
    (repeat 0 (width src * height src)).

Definition offsets : list Z := [-1; 0; 1].

(** The body of the two neighbourhood loops at offset (dx, dy); the loops
    stop as soon as [any] is set. *)
Definition probe (w h : nat) (dilated : list Z) (x y : nat) (dx dy : Z) (any : bool) : bool :=
  if (dx =? 0) && (dy =? 0) then any
  else
    let nx := Z.of_nat x + dx in
    let ny := Z.of_nat y + dy in
    if (0 <=? nx) && (nx <? Z.of_nat w) && (0 <=? ny) && (ny <? Z.of_nat h) then
      if truthy (rd dilated (Z.to_nat (ny * Z.of_nat w + nx))) then true else any
    else any.

Definition any_neighbour (w h : nat) (dilated : list Z) (x y : nat) : bool :=
  fold_left (fun (any : bool) (dy : Z) =>
    if any then any
    else fold_left (fun (any : bool) (dx : Z) =>
           if any then any else probe w h dilated x y dx dy any) offsets any)
    offsets false.

Definition dilate_step (w h : nat) (dilated : list Z) (x y : nat) (next : list Z) : list Z :=
  let i := (y * w + x)%nat in
  if truthy (rd dilated i) then <[i := 1]> next
  else if any_neighbour w h dilated x y then <[i := 1]> next
  else next.

(** One turn of the [t] loop: [next] is a fresh zeroed array. *)
Definition dilate_round (w h : nat) (dilated : list Z) : list Z :=
  raster w h (dilate_step w h dilated) (repeat 0 (w * h)).

Definition outline_step (w : nat) (mask dilated : list Z) (x y : nat) (out : list Z)
  : list Z :=
  let i := (y * w + x)%nat in
  let inside := rd mask i =? 1 in
  let grown := rd dilated i =? 1 in
  let outline := grown && negb inside in
  let idx := (i * 4)%nat in
  if outline then store4 idx (0, 0, 0, 255) out
  else <[(idx + 3)%nat := 0]> out.

Definition createPixelOutline (src : ImageData) (thickness : Z) : ImageData :=
  let w := width src in
  let h := height src in
  let mask := alpha_mask src in
  if thickness <=? 0 then newImageData w h
  else
    let dilated := for_loop (Z.to_nat thickness) (fun _ dilated => dilate_round w h dilated) mask in
    mkImageData w h (raster w h (outline_step w mask dilated) (data (newImageData w h))).

(** ** The outline band, as the specification words it

    A binary mask from alpha > 10; [thickness] rounds of 8-connected
    dilation, in which a pixel becomes set if it or one of its 8
    neighbours was set in the previous round and neighbours outside the
    buffer count as unset; the band is the dilated mask minus the original
    one. *)

Definition Mask : Type := Z -> Z -> bool.

Definition in_bounds (w h : nat) (x y : Z) : bool :=
  (0 <=? x) && (x <? Z.of_nat w) && (0 <=? y) && (y <? Z.of_nat h).

Definition binary_mask (src : ImageData) : Mask :=
  fun x y =>
    in_bounds (width src) (height src) x y
    && (10 <? alpha_at src (Z.to_nat x) (Z.to_nat y)).

Definition neighbours8 : list (Z * Z) :=
  [ (-1, -1); (0, -1); (1, -1); (-1, 0); (1, 0); (-1, 1); (0, 1); (1, 1) ].

Definition dilate8 (w h : nat) (m : Mask) : Mask :=
  fun x y =>
    in_bounds w h x y
    && (m x y
        || existsb (fun d => in_bounds w h (x + fst d) (y + snd d)
                             && m (x + fst d) (y + snd d)) neighbours8).

Fixpoint dilation (rounds : nat) (w h : nat) (m : Mask) : Mask :=
  match rounds with
  | O => m
  | Datatypes.S n => dilate8 w h (dilation n w h m)
  end.

Definition outline_band (src : ImageData) (rounds : nat) (x y : nat) : bool :=
  dilation rounds (width src) (height src) (binary_mask src) (Z.of_nat x) (Z.of_nat y)
  && negb (binary_mask src (Z.of_nat x) (Z.of_nat y)).

(** The set of pixels an array of flags stands for. *)
Definition mask_of (w h : nat) (flags : list Z) : Mask :=
  fun x y => in_bounds w h x y && truthy (rd flags (Z.to_nat (y * Z.of_nat w + x))).

Definition is_flag (v : Z) : Prop := v = 0 \/ v = 1.

(** A sprite: one opaque pixel in the middle of a 3 x 3 buffer. *)
Definition centre_3x3 : ImageData :=
  mkImageData 3 3 [0;0;0;0; 0;0;0;0; 0;0;0;0;
                   0;0;0;0; 7;8;9;255; 0;0;0;0;
                   0;0;0;0; 0;0;0;0; 0;0;0;10].

Definition full_2x2 : ImageData :=
  mkImageData 2 2 [1;2;3;255; 4;5;6;11; 7;8;9;200; 1;1;1;12].

(** ** The 2D canvas

    [drawImage], [fillRect] and the canvas pixel store belong to the
    browser, not to the repository.  They are modelled on non-premultiplied
    RGBA bytes, and the two choices the browser makes are parameters: which
    source index a nearest-neighbour resampling picks for a destination
    index ([pick srcLen dstLen i]), and how a source pixel is composited
    over a canvas pixel ([blend src dst], the source-over operator). *)

Definition Pixel : Type := (Z * Z * Z * Z)%type.

(** A buffer whose pixel (x, y) is [f x y]. *)
Definition paint (w h : nat) (f : nat -> nat -> Pixel) : ImageData :=
  mkImageData w h
    (raster w h (fun x y out => store4 (pix w x y) (f x y) out) (repeat 0 (4 * w * h))).

Definition solid (w h : nat) (px : Pixel) : ImageData := paint w h (fun _ _ => px).

Section Canvas.

Variable pick : nat -> nat -> nat -> nat.
Variable blend : Pixel -> Pixel -> Pixel.

(** Pixel (x, y) of the canvas [dst] after
    [drawImage(src, sx, sy, sw, sh, dx, dy, dw, dh)] with
    [imageSmoothingEnabled = false]. *)
Definition draw_pixel (src : ImageData) (sx sy sw sh dx dy dw dh : Z) (dst : ImageData)
    (x y : nat) : Pixel :=
  let here := rgba (data dst) (pix (width dst) x y) in
  if (dx <=? Z.of_nat x) && (Z.of_nat x <? dx + dw)
     && (dy <=? Z.of_nat y) && (Z.of_nat y <? dy + dh) then
    let u := (Z.to_nat sx + pick (Z.to_nat sw) (Z.to_nat dw) (Z.to_nat (Z.of_nat x - dx)))%nat in
    let v := (Z.to_nat sy + pick (Z.to_nat sh) (Z.to_nat dh) (Z.to_nat (Z.of_nat y - dy)))%nat in
    if (u <? width src)%nat && (v <? height src)%nat then
      blend (rgba (data src) (pix (width src) u v)) here
    else here
  else here.

Definition drawImage (src : ImageData) (sx sy sw sh dx dy dw dh : Z) (dst : ImageData)
  : ImageData :=
  paint (width dst) (height dst) (draw_pixel src sx sy sw sh dx dy dw dh dst).

(** ** pixelateImage *)

(** The component state read by [pixelateImage]. *)
Record Settings : Type := mkSettings {
  palette : PaletteName;
  ditherEnabled : bool;
  ditherStrength : float;
  outlineThickness : float
}.

(** [BACKGROUND_FILL = '#ed8d26'] *)
Definition BACKGROUND_FILL : Z * Z * Z := (237, 141, 38).

(** Stage 2: [Math.max(8, Math.floor(cropBounds.w / Math.max(1, blockSize)))]. *)
Definition smallSize (cropSide blockSize : Z) : Z :=
  Z.max 8 (cropSide / Z.max 1 blockSize).

(** Stage 5: the size and offset of the sprite on the square canvas. *)
Record Placement : Type := mkPlacement {
  targetW : Z; targetH : Z; offsetX : Z; offsetY : Z
}.

Definition placement (coverage : float) (square smallW smallH : Z) : Placement :=
  let smallLongest := Z.max smallW smallH in
  let scaledLongest := Z.max 1 (JS.Math_floor (JS.num square * coverage)) in
  let k := (JS.num scaledLongest / JS.num smallLongest)%float in
  let targetW := Z.max 1 (JS.Math_floor (JS.num smallW * k)) in
  let targetH := Z.max 1 (JS.Math_floor (JS.num smallH * k)) in
  let offsetX := (square - targetW) / 2 in
  let offsetY := (square - targetH) / 2 in
  mkPlacement targetW targetH offsetX offsetY.

(** Stages 1 to 3: crop to the subject, scale down, quantize. *)
Definition sprite (srcImage : ImageData) (blockSize : Z) (st : Settings) : option ImageData :=
  let cb := cropBounds srcImage in
  let cropCanvas :=
    drawImage srcImage (rx cb) (ry cb) (rw cb) (rh cb) 0 0 (rw cb) (rh cb)
      (newImageData (Z.to_nat (Z.max 1 (rw cb))) (Z.to_nat (Z.max 1 (rh cb)))) in
  let smallW := smallSize (rw cb) blockSize in
  let smallH := smallSize (rh cb) blockSize in
  let smallImage :=
    drawImage cropCanvas 0 0 (rw cb) (rh cb) 0 0 smallW smallH
      (newImageData (Z.to_nat smallW) (Z.to_nat smallH)) in
  let ditherAmt := if ditherEnabled st then ditherStrength st else 0%float in
  quantizeImageToPalette smallImage (PALETTES (palette st)) ditherAmt.

(** Stages 4 and 5: outline, square canvas, outline then sprite on top. *)
Definition pixelateImage (srcImage : ImageData) (blockSize : Z) (st : Settings)
  : option ImageData :=
  match sprite srcImage blockSize st with
  | None => None
  | Some quantized =>
      let cb := cropBounds srcImage in
      let smallW := smallSize (rw cb) blockSize in
      let smallH := smallSize (rh cb) blockSize in
      let outlineImage :=
        createPixelOutline quantized (Z.max 0 (JS.Math_floor (outlineThickness st))) in
      let square := Z.max (rw cb) (rh cb) in
      let '(fr, fg, fb) := BACKGROUND_FILL in
      let filled := solid (Z.to_nat square) (Z.to_nat square) (fr, fg, fb, 255) in
      let p := placement 0.6 square smallW smallH in
      let withOutline :=
        drawImage outlineImage 0 0 smallW smallH
          (offsetX p) (offsetY p) (targetW p) (targetH p) filled in
      Some (drawImage quantized 0 0 smallW smallH
              (offsetX p) (offsetY p) (targetW p) (targetH p) withOutline)
  end.

End Canvas.

(** One nearest-neighbour rule and one source-over rule, to run the
    pipeline on examples: the source index under the destination index, and
    integer alpha blending. *)
Definition pick_floor (srcLen dstLen i : nat) : nat := (i * srcLen / dstLen)%nat.

Definition blend_over (src dst : Pixel) : Pixel :=
  let '(sr, sg, sb, sa) := src in
  let '(dr, dg, db, da) := dst in
  if sa =? 255 then src
  else if sa =? 0 then dst
  else
    let oa := sa + da * (255 - sa) / 255 in
    ((sr * sa + dr * da * (255 - sa) / 255) / Z.max 1 oa,
     (sg * sa + dg * da * (255 - sa) / 255) / Z.max 1 oa,
     (sb * sa + db * da * (255 - sa) / 255) / Z.max 1 oa,
     oa).

(** The end-to-end scenario: a 64 x 64 opaque red image, palette pico8,
    block size 8, dithering off, outline thickness 0. *)
Definition red64 : ImageData := solid 64 64 (255, 0, 0, 255).

Definition scenario_settings : Settings := mkSettings pico8 false 0.2%float 0%float.

(** Every pixel of the buffer is [px]. *)
Definition uniform (img : ImageData) (px : Pixel) : Prop :=
  forall x y, (x < width img)%nat -> (y < height img)%nat ->
    rgba (data img) (pix (width img) x y) = px.

(** Pixel (x, y) lies in the rectangle the sprite is drawn into. *)
Definition inside (p : Placement) (x y : nat) : bool :=
  (offsetX p <=? Z.of_nat x) && (Z.of_nat x <? offsetX p + targetW p)
  && (offsetY p <=? Z.of_nat y) && (Z.of_nat y <? offsetY p + targetH p).


(** ** normalizeImageBlob

    Blobs, the decoder behind [blobToImage] and the smoothed redraw behind
    [canvasToBlob] belong to the browser: a blob is an abstract value with
    the natural size of the image it decodes to, and [resample input w h]
    is the PNG of [input] drawn on a [w] by [h] canvas.  The scale factor
    is the exact quotient; the rounding of the double, a relative error of
    2^-53, is not modelled. *)

(** [Math.round]: the nearest integer, halves upwards. *)
Definition Math_round (q : Q) : Z := Qfloor (q + (1 # 2)).

Section Normalizer.

Variable Blob : Type.
Variable naturalSize : Blob -> Z * Z.
Variable resample : Blob -> Z -> Z -> Blob.

Definition normalizeImageBlob (input : Blob) (longestSide : Z) : Blob :=
  let '(width, height) := naturalSize input in
  let currentLongest := Z.max width height in
  if currentLongest <=? longestSide then input
  else
    let scale := (inject_Z longestSide / inject_Z currentLongest)%Q in
    let targetW := Z.max 1 (Math_round (inject_Z width * scale)) in
    let targetH := Z.max 1 (Math_round (inject_Z height * scale)) in
    resample input targetW targetH.


End Normalizer.

(** Blobs reduced to the size of their image, to run the normalizer. *)
Definition size_only_resample (input : Z * Z) (w h : Z) : Z * Z := (w, h).


(** ** Vocabulary of the further statements *)

(** The 8-connected (Chebyshev) distance between two pixels. *)
Definition chebyshev (x y x' y' : Z) : Z := Z.max (Z.abs (x - x')) (Z.abs (y - y')).

(** The pixel next to (x, y) on the way to (x', y'): one step, or none,
    along each axis. *)
Definition step_towards (a a' : Z) : Z :=
  if a <? a' then a + 1 else if a' <? a then a - 1 else a.


(** The state the component starts in ([React.useState] defaults); the
    controls that would change the palette, the dithering and the outline
    are not rendered. *)
Definition initial_settings : Settings := mkSettings pico8 true 0.2%float 0.5%float.


(** ** downscaleToPng

    The normalizer of the earlier component (the AI-edit page): it always
    redraws and re-encodes, with a scale of 1 when the image is within the
    limit.  Blobs and the redraw are the parameters of [normalizeImageBlob]. *)

Section Downscale.

Variable Blob : Type.
Variable naturalSize : Blob -> Z * Z.
Variable resample : Blob -> Z -> Z -> Blob.


End Downscale.



(** ** processImage

    The driver of the component: it awaits the three stages in turn and
    reports through the state setters.  An awaited call either resolves or
    rejects; what is thrown is an [Error] with a message or some other
    value.  The stages themselves (decoding, the background-removal
    library, the canvas) are parameters. *)

Inductive Thrown : Type :=
  | ErrorObject (message : String.string)
  | OtherValue.

Inductive Outcome (A : Type) : Type :=
  | Resolved (a : A)
  | Rejected (e : Thrown).

Arguments Resolved {A} a.
Arguments Rejected {A} e.

Inductive Phase : Type :=
  | idle
  | removing_background
  | pixelating
  | done
  | error (message : String.string).

(** The calls of the state setters, in order. *)
Inductive Update (Url : Type) : Type :=
  | SetProgress (p : float)
  | SetProcessingState (ph : Phase)
  | SetFinalPreviewUrl (u : option Url).

Arguments SetProgress {Url} p.
Arguments SetProcessingState {Url} ph.
Arguments SetFinalPreviewUrl {Url} u.

Record View (Url : Type) : Type := mkView {
  processingState : Phase;
  progress : float;
  finalPreviewUrl : option Url
}.

Arguments mkView {Url} _ _ _.
Arguments processingState {Url} _.
Arguments progress {Url} _.
Arguments finalPreviewUrl {Url} _.

Definition apply_update {Url : Type} (v : View Url) (u : Update Url) : View Url :=
  match u with
  | SetProgress p => mkView (processingState v) p (finalPreviewUrl v)
  | SetProcessingState ph => mkView ph (progress v) (finalPreviewUrl v)
  | SetFinalPreviewUrl url => mkView (processingState v) (progress v) url
  end.

Definition run_updates {Url : Type} (v : View Url) (us : list (Update Url)) : View Url :=
  fold_left apply_update us v.

(** [isBusy] of the render function. *)
Definition isBusy {Url : Type} (v : View Url) : bool :=
  match processingState v with
  | removing_background | pixelating => true
  | _ => false
  end.

(** [err instanceof Error ? err.message : 'Unknown error occurred'] *)
Definition catch_message (e : Thrown) : String.string :=
  match e with
  | ErrorObject message => message
  | OtherValue => "Unknown error occurred"%string
  end.

Section ProcessImage.

Variable Blob Url : Type.
Variable normalize : Blob -> Z -> Outcome Blob.
Variable removeBackground : Blob -> Outcome Blob.
Variable pixelate : Blob -> Z -> Outcome Blob.
Variable createObjectURL : Blob -> Url.

(** The [catch] block. *)
Definition on_error (e : Thrown) : list (Update Url) :=
  [SetProcessingState (error (catch_message e)); SetProgress 0%float].

Definition processImage (normalizeEnabled : bool) (normalizeLongestSide : Z)
    (file : Blob) (pixelBlockSize : Z) (shouldRemoveBg : bool) : list (Update Url) :=
  let u0 := if normalizeEnabled then [SetProgress 0.15%float] else [] in
  match (if normalizeEnabled then normalize file normalizeLongestSide else Resolved file) with
  | Rejected e => u0 ++ on_error e
  | Resolved workingBlob =>
      let u1 :=
        if shouldRemoveBg
        then [SetProcessingState removing_background; SetProgress 0.25%float]
        else [] in
      match (if shouldRemoveBg then removeBackground workingBlob else Resolved workingBlob) with
      | Rejected e => u0 ++ u1 ++ on_error e
      | Resolved workingBlob =>
          let u2 :=
            [SetProcessingState pixelating;
             SetProgress (if shouldRemoveBg then 0.6%float else 0.4%float)] in
          match pixelate workingBlob pixelBlockSize with
          | Rejected e => u0 ++ u1 ++ u2 ++ on_error e
          | Resolved pixelatedBlob =>
              u0 ++ u1 ++ u2 ++
              [SetFinalPreviewUrl (Some (createObjectURL pixelatedBlob));
               SetProcessingState done;
               SetProgress 1%float]
          end
      end
  end.

(** The blob each stage hands to the next one. *)
Definition after_normalize (normalizeEnabled : bool) (normalizeLongestSide : Z)
    (file b : Blob) : Prop :=
  if normalizeEnabled then normalize file normalizeLongestSide = Resolved b else b = file.

Definition after_removal (shouldRemoveBg : bool) (b b' : Blob) : Prop :=
  if shouldRemoveBg then removeBackground b = Resolved b' else b' = b.

End ProcessImage.

(** The values handed to [setProgress], in order. *)
Fixpoint progress_values {Url : Type} (us : list (Update Url)) : list float :=
  match us with
  | [] => []
  | SetProgress p :: rest => p :: progress_values rest
  | _ :: rest => progress_values rest
  end.

Fixpoint strictly_increasing (ps : list float) : bool :=
  match ps with
  | p :: ((p' :: _) as rest) => PrimFloat.ltb p p' && strictly_increasing rest
  | _ => true
  end.

(** ** The image route ([POST /api/image])

    The handler of the earlier, AI-edit version of the page.  The request
    body, the environment, reading the upload and the provider call are
    inputs; each awaited step may reject. *)

Record Upload (Data : Type) : Type := mkUpload {
  upload_name : String.string;
  upload_type : String.string;
  upload_data : Outcome Data
}.

Arguments mkUpload {Data} _ _ _.
Arguments upload_name {Data} _.
Arguments upload_type {Data} _.
Arguments upload_data {Data} _.

Record EditRequest (Data : Type) : Type := mkEditRequest {
  edit_model : String.string;
  edit_image_name : String.string;
  edit_image_type : String.string;
  edit_image : Data;
  edit_prompt : String.string;
  edit_size : String.string
}.

Arguments mkEditRequest {Data} _ _ _ _ _ _.
Arguments edit_prompt {Data} _.
Arguments edit_image_name {Data} _.
Arguments edit_image_type {Data} _.

Inductive Response (Data : Type) : Type :=
  | JsonError (status : Z) (error : String.string)
  | ImageBody (status : Z) (headers : list (String.string * String.string)) (body : Data).

Arguments JsonError {Data} status error.
Arguments ImageBody {Data} status headers body.

Definition response_status {Data : Type} (r : Response Data) : Z :=
  match r with
  | JsonError status _ => status
  | ImageBody status _ _ => status
  end.

(** [s || fallback] on strings: the empty string is falsy. *)
Definition or_default (s fallback : String.string) : String.string :=
  if String.eqb s ""%string then fallback else s.

(** [inline; filename=] followed by [result.png] between double quotes. *)
Definition CONTENT_DISPOSITION : String.string :=
  let quote := String.String (Ascii.ascii_of_nat 34) String.EmptyString in
  String.append "inline; filename="%string
    (String.append quote (String.append "result.png"%string quote)).

Definition DEFAULT_PROMPT : String.string :=
  "Recreate the subject in a clean, modern style suitable for web display. Keep subject recognizable. No text, watermark, or logos. Square composition on a simple background."%string.

Section ImageRoute.

Variable Data : Type.
(** [client.images.edit(...)], reduced to [result.data?.[0]?.b64_json]. *)
Variable images_edit : String.string -> EditRequest Data -> Outcome (option String.string).
(** [Buffer.from(b64, 'base64')] *)
Variable base64_decode : String.string -> Data.

(** The arguments of [client.images.edit]: the upload under its name and
    type, or [input.png] and [image/png] when they are empty, and the
    prompt, or the default one when it is empty. *)
Definition edit_request (file : Upload Data) (buffer : Data) (prompt : String.string)
  : EditRequest Data :=
  mkEditRequest "gpt-image-1"%string
    (or_default (upload_name file) "input.png"%string)
    (or_default (upload_type file) "image/png"%string)
    buffer
    (or_default prompt DEFAULT_PROMPT)
    "1024x1024"%string.

(** A request the handler can send: nothing in it is empty. *)
Definition sendable (apiKey : String.string) (r : EditRequest Data) : bool :=
  negb (String.eqb apiKey ""%string)
  && negb (String.eqb (edit_prompt r) ""%string)
  && negb (String.eqb (edit_image_name r) ""%string)
  && negb (String.eqb (edit_image_type r) ""%string).

Definition route_catch (e : Thrown) : Response Data :=
  JsonError 500 (match e with
                 | ErrorObject message => message
                 | OtherValue => "Unknown error"%string
                 end).

Definition POST (formData : Outcome (option (Upload Data) * option String.string))
    (OPENAI_API_KEY_V1 : option String.string) : Response Data :=
  match formData with
  | Rejected e => route_catch e
  | Resolved (image, promptField) =>
      let prompt := match promptField with Some p => p | None => ""%string end in
      match image with
      | None => JsonError 400 "Missing image file"%string
      | Some file =>
          match OPENAI_API_KEY_V1 with
          | None => JsonError 500 "Server misconfiguration: missing OPEN_AI_API_KEY"%string
          | Some apiKey =>
              if String.eqb apiKey ""%string
              then JsonError 500 "Server misconfiguration: missing OPEN_AI_API_KEY"%string
              else
                match upload_data file with
                | Rejected e => route_catch e
                | Resolved buffer =>
                    match images_edit apiKey (edit_request file buffer prompt) with
                    | Rejected e => route_catch e
                    | Resolved None => JsonError 502 "No image returned from provider"%string
                    | Resolved (Some b64) =>
                        if String.eqb b64 ""%string
                        then JsonError 502 "No image returned from provider"%string
                        else
                          ImageBody 200
                            [ ("Content-Type", "image/png");
                              ("Content-Disposition", CONTENT_DISPOSITION);
                              ("Cache-Control", "no-store") ]%string
                            (base64_decode b64)
                    end
                end
          end
      end
  end.

End ImageRoute.


(** * Properties *)

(** ** Loop invariants *)

Lemma for_loop_inv {S : Type} (Inv : nat -> S -> Prop) n body (s : S) :
  Inv O s ->
  (forall i s, (i < n)%nat -> Inv i s -> Inv (Datatypes.S i) (body i s)) ->
  Inv n (for_loop n body s).
Proof.
  intros H0 Hstep. induction n as [|n IH]; simpl; [exact H0|].
  apply Hstep; [lia|]. apply IH. intros i s' Hi. apply Hstep. lia.
Qed.

Lemma raster_inv {S : Type} (Inv : nat -> S -> Prop) w h body (s : S) :
  Inv O s ->
  (forall x y s, (x < w)%nat -> (y < h)%nat ->
     Inv (y * w + x)%nat s -> Inv (Datatypes.S (y * w + x)) (body x y s)) ->
  Inv (h * w)%nat (raster w h body s).
Proof.
  intros H0 Hstep. unfold raster.
  apply (for_loop_inv (fun y s => Inv (y * w)%nat s)); [exact H0|].
  intros y s' Hy Hs'.
  replace (Datatypes.S y * w)%nat with (y * w + w)%nat by lia.
  apply (for_loop_inv (fun x s => Inv (y * w + x)%nat s)).
  - replace (y * w + 0)%nat with (y * w)%nat by lia. exact Hs'.
  - intros x s'' Hx Hs''.
    replace (y * w + Datatypes.S x)%nat with (Datatypes.S (y * w + x)) by lia.
    apply Hstep; assumption.
Qed.

Lemma for_loopM_inv {S : Type} (Inv : nat -> S -> Prop) n body (s : S) :
  Inv O s ->
  (forall i s, (i < n)%nat -> Inv i s ->
     exists s', body i s = Some s' /\ Inv (Datatypes.S i) s') ->
  exists s', for_loopM n body s = Some s' /\ Inv n s'.
Proof.
  intros H0 Hstep. induction n as [|n IH]; simpl; [eauto|].
  destruct IH as (s1 & -> & H1); [intros i s' Hi; apply Hstep; lia|].
  apply Hstep; [lia|exact H1].
Qed.

Lemma rasterM_inv {S : Type} (Inv : nat -> S -> Prop) w h body (s : S) :
  Inv O s ->
  (forall x y s, (x < w)%nat -> (y < h)%nat -> Inv (y * w + x)%nat s ->
     exists s', body x y s = Some s' /\ Inv (Datatypes.S (y * w + x)) s') ->
  exists s', rasterM w h body s = Some s' /\ Inv (h * w)%nat s'.
Proof.
  intros H0 Hstep. unfold rasterM.
  apply (for_loopM_inv (fun y s => Inv (y * w)%nat s)); [exact H0|].
  intros y s' Hy Hs'.
  replace (Datatypes.S y * w)%nat with (y * w + w)%nat by lia.
  apply (for_loopM_inv (fun x s => Inv (y * w + x)%nat s)).
  - replace (y * w + 0)%nat with (y * w)%nat by lia. exact Hs'.
  - intros x s'' Hx Hs''.
    replace (y * w + Datatypes.S x)%nat with (Datatypes.S (y * w + x)) by lia.
    apply Hstep; assumption.
Qed.

(** Pixel numbers [y * w + x] with [x < w] determine (x, y). *)
Lemma pixel_number_inj (w x y x' y' : nat) :
  (x < w)%nat -> (x' < w)%nat -> (y * w + x = y' * w + x')%nat -> x = x' /\ y = y'.
Proof.
  intros Hx Hx' E.
  destruct (Nat.lt_trichotomy y y') as [Hlt|[->|Hlt]]; [exfalso| |exfalso].
  - assert ((y + 1) * w <= y' * w)%nat by (apply Nat.mul_le_mono_r; lia). lia.
  - lia.
  - assert ((y' + 1) * w <= y * w)%nat by (apply Nat.mul_le_mono_r; lia). lia.
Qed.

Lemma pixel_number_lt (w h x y : nat) :
  (x < w)%nat -> (y < h)%nat -> (y * w + x < h * w)%nat.
Proof.
  intros Hx Hy.
  assert ((y + 1) * w <= h * w)%nat by (apply Nat.mul_le_mono_r; lia). lia.
Qed.

Lemma pixel_number_lt_S (w x y x' y' : nat) :
  (x < w)%nat -> (x' < w)%nat ->
  (y' * w + x' < Datatypes.S (y * w + x))%nat ->
  (y' * w + x' < y * w + x)%nat \/ (x' = x /\ y' = y).
Proof.
  intros Hx Hx' Hlt.
  destruct (Nat.eq_dec (y' * w + x')%nat (y * w + x)%nat) as [E|NE]; [right|left; lia].
  apply (pixel_number_inj w); assumption.
Qed.

(** ** getOpaqueBounds *)

Section OpaqueBounds.

Variable image : ImageData.
Variable alphaThreshold : Z.

Lemma bounds_step_skip x y b :
  alpha_at image x y <= alphaThreshold ->
  bounds_step (data image) (width image) alphaThreshold x y b = b.
Proof.
  intros Ha. unfold bounds_step. fold (alpha_at image x y).
  destruct (Z.ltb_spec alphaThreshold (alpha_at image x y)); [lia|reflexivity].
Qed.

Lemma bounds_step_hit x y b :
  alphaThreshold < alpha_at image x y ->
  bounds_step (data image) (width image) alphaThreshold x y b =
  mkBounds (Z.min (minX b) (Z.of_nat x)) (Z.min (minY b) (Z.of_nat y))
           (Z.max (maxX b) (Z.of_nat x)) (Z.max (maxY b) (Z.of_nat y)).
Proof.
  intros Ha. unfold bounds_step. fold (alpha_at image x y).
  destruct (Z.ltb_spec alphaThreshold (alpha_at image x y)); [|lia].
  destruct b as [x0 y0 x1 y1]; simpl.
  destruct (Z.ltb_spec (Z.of_nat x) x0); simpl;
    destruct (Z.ltb_spec x1 (Z.of_nat x)); simpl;
    destruct (Z.ltb_spec (Z.of_nat y) y0); simpl;
    destruct (Z.ltb_spec y1 (Z.of_nat y)); simpl; f_equal; lia.
Qed.

Lemma seen_mono n x y : seen image alphaThreshold n x y -> seen image alphaThreshold (Datatypes.S n) x y.
Proof. intros [Hq Hlt]. split; [exact Hq|lia]. Qed.

Lemma seen_S_inv x y x' y' :
  (x < width image)%nat ->
  seen image alphaThreshold (Datatypes.S (y * width image + x)) x' y' ->
  seen image alphaThreshold (y * width image + x) x' y' \/ (x' = x /\ y' = y).
Proof.
  intros Hx [Hq Hlt]. destruct Hq as (Hx' & Hy' & Ha).
  destruct (pixel_number_lt_S _ _ _ _ _ Hx Hx' Hlt) as [Hlt'|E].
  - left. repeat split; assumption.
  - right. exact E.
Qed.

Lemma bounds_inv_step x y b :
  (x < width image)%nat -> (y < height image)%nat ->
  bounds_inv image alphaThreshold (y * width image + x) b ->
  bounds_inv image alphaThreshold (Datatypes.S (y * width image + x))
    (bounds_step (data image) (width image) alphaThreshold x y b).
Proof.
  intros Hx Hy [Hin Hatt].
  destruct (Z.lt_ge_cases alphaThreshold (alpha_at image x y)) as [Ha|Ha].
  - (* the pixel qualifies *)
    rewrite (bounds_step_hit _ _ _ Ha).
    assert (Hnew : seen image alphaThreshold (Datatypes.S (y * width image + x)) x y).
    { split; [repeat split; assumption|lia]. }
    split.
    + intros x' y' Hs. simpl.
      destruct (seen_S_inv _ _ _ _ Hx Hs) as [Hold|[-> ->]]; [|lia].
      specialize (Hin _ _ Hold). lia.
    + right. simpl. destruct Hatt as [[-> Hnone]|(H1 & H2 & H3 & H4)].
      * simpl. repeat split; exists x, y; (split; [exact Hnew|lia]).
      * destruct H1 as (x1 & y1 & S1 & E1). destruct H2 as (x2 & y2 & S2 & E2).
        destruct H3 as (x3 & y3 & S3 & E3). destruct H4 as (x4 & y4 & S4 & E4).
        apply seen_mono in S1, S2, S3, S4.
        repeat split.
        -- destruct (Z.le_gt_cases (minX b) (Z.of_nat x));
             [exists x1, y1|exists x, y]; (split; [assumption|lia]).
        -- destruct (Z.le_gt_cases (Z.of_nat x) (maxX b));
             [exists x2, y2|exists x, y]; (split; [assumption|lia]).
        -- destruct (Z.le_gt_cases (minY b) (Z.of_nat y));
             [exists x3, y3|exists x, y]; (split; [assumption|lia]).
        -- destruct (Z.le_gt_cases (Z.of_nat y) (maxY b));
             [exists x4, y4|exists x, y]; (split; [assumption|lia]).
  - (* the pixel is skipped *)
    rewrite (bounds_step_skip _ _ _ Ha).
    assert (Hold : forall x' y', seen image alphaThreshold (Datatypes.S (y * width image + x)) x' y' ->
                                 seen image alphaThreshold (y * width image + x) x' y').
    { intros x' y' Hs. destruct (seen_S_inv _ _ _ _ Hx Hs) as [Ho|[-> ->]]; [exact Ho|].
      destruct Hs as [(_ & _ & Hq) _]. lia. }
    split.
    + intros x' y' Hs. apply Hin, Hold, Hs.
    + destruct Hatt as [[-> Hnone]|(H1 & H2 & H3 & H4)].
      * left. split; [reflexivity|]. intros x' y' Hs. exact (Hnone _ _ (Hold _ _ Hs)).
      * right.
        destruct H1 as (x1 & y1 & S1 & E1). destruct H2 as (x2 & y2 & S2 & E2).
        destruct H3 as (x3 & y3 & S3 & E3). destruct H4 as (x4 & y4 & S4 & E4).
        apply seen_mono in S1, S2, S3, S4.
        repeat split; eauto.
Qed.

Lemma scanBounds_inv :
  bounds_inv image alphaThreshold (height image * width image) (scanBounds image alphaThreshold).
Proof.
  unfold scanBounds. apply (raster_inv (bounds_inv image alphaThreshold)).
  - split; [intros x y [_ Hlt]; lia|].
    left. split; [reflexivity|]. intros x y [_ Hlt]. lia.
  - intros x y b Hx Hy Hb. apply bounds_inv_step; assumption.
Qed.

Lemma qualifies_seen x y :
  qualifies image alphaThreshold x y -> seen image alphaThreshold (height image * width image) x y.
Proof.
  intros Hq. split; [exact Hq|]. destruct Hq as (Hx & Hy & _).
  apply pixel_number_lt; assumption.
Qed.

End OpaqueBounds.

Lemma getOpaqueBounds_scan image alphaThreshold r :
  getOpaqueBounds image alphaThreshold = Some r ->
  let b := scanBounds image alphaThreshold in
  minX b <= maxX b /\ minY b <= maxY b /\
  r = mkRect (minX b) (minY b) (maxX b - minX b + 1) (maxY b - minY b + 1).
Proof.
  unfold getOpaqueBounds. intros H.
  destruct (Z.ltb_spec (maxX (scanBounds image alphaThreshold))
                       (minX (scanBounds image alphaThreshold)));
    destruct (Z.ltb_spec (maxY (scanBounds image alphaThreshold))
                         (minY (scanBounds image alphaThreshold)));
    simpl in H; try discriminate.
  injection H as <-. auto.
Qed.

(** C4. When no pixel's alpha exceeds the threshold [getOpaqueBounds]
    returns null ([None]), and the rectangle [pixelateImage] then works with
    (threshold 16) is the full extent [{0, 0, width, height}]; when some
    pixel's alpha exceeds the threshold a rectangle is returned. *)
Theorem getOpaqueBounds_no_bounds (image : ImageData) (alphaThreshold : Z) :
  wf_image image ->
  ((forall x y, (x < width image)%nat -> (y < height image)%nat ->
      alpha_at image x y <= alphaThreshold) ->
   getOpaqueBounds image alphaThreshold = None) /\
  ((forall x y, (x < width image)%nat -> (y < height image)%nat ->
      alpha_at image x y <= 16) ->
   cropBounds image = mkRect 0 0 (Z.of_nat (width image)) (Z.of_nat (height image))) /\
  ((exists x y, (x < width image)%nat /\ (y < height image)%nat /\
      alphaThreshold < alpha_at image x y) ->
   exists r, getOpaqueBounds image alphaThreshold = Some r).
Proof.
  intros _.
  assert (Hnone : forall thr,
    (forall x y, (x < width image)%nat -> (y < height image)%nat ->
       alpha_at image x y <= thr) -> getOpaqueBounds image thr = None).
  { intros thr Hall. unfold getOpaqueBounds.
    destruct (scanBounds_inv image thr) as [_ [[-> _]|[(x & y & [Hq _] & _) _]]].
    - simpl. destruct (Z.ltb_spec (-1) (Z.of_nat (width image))); [reflexivity|lia].
    - destruct Hq as (Hx & Hy & Ha). specialize (Hall x y Hx Hy). lia. }
  split; [apply Hnone|]. split.
  - intros Hall. unfold cropBounds. rewrite (Hnone 16 Hall). reflexivity.
  - intros (x & y & Hq).
    destruct (scanBounds_inv image alphaThreshold) as [Hin [[_ Hno]|(_ & H2 & _ & H4)]].
    + exfalso. apply (Hno x y). apply qualifies_seen. exact Hq.
    + destruct H2 as (x2 & y2 & S2 & E2). destruct H4 as (x4 & y4 & S4 & E4).
      pose proof (Hin _ _ S2) as B2. pose proof (Hin _ _ S4) as B4.
      unfold getOpaqueBounds.
      destruct (Z.ltb_spec (maxX (scanBounds image alphaThreshold))
                           (minX (scanBounds image alphaThreshold))); [lia|].
      destruct (Z.ltb_spec (maxY (scanBounds image alphaThreshold))
                           (minY (scanBounds image alphaThreshold))); [lia|].
      simpl. eauto.
Qed.

Lemma wf_blank_2x2 : wf_image blank_2x2.
Proof. split; [reflexivity|]. repeat constructor; unfold is_byte; lia. Qed.

Lemma wf_dot_3x2 : wf_image dot_3x2.
Proof. split; [reflexivity|]. repeat constructor; unfold is_byte; lia. Qed.

Lemma getOpaqueBounds_no_bounds_witness :
  getOpaqueBounds blank_2x2 16 = None /\
  cropBounds blank_2x2 = mkRect 0 0 2 2 /\
  exists r, getOpaqueBounds dot_3x2 16 = Some r.
Proof.
  assert (Hall : forall x y, (x < width blank_2x2)%nat -> (y < height blank_2x2)%nat ->
                             alpha_at blank_2x2 x y <= 16).
  { simpl. intros x y Hx Hy.
    destruct x as [|[|x]]; [| |lia]; (destruct y as [|[|y]]; [| |lia]);
      vm_compute; discriminate. }
  split; [|split].
  - exact (proj1 (getOpaqueBounds_no_bounds blank_2x2 16 wf_blank_2x2) Hall).
  - exact (proj1 (proj2 (getOpaqueBounds_no_bounds blank_2x2 16 wf_blank_2x2)) Hall).
  - apply (proj2 (proj2 (getOpaqueBounds_no_bounds dot_3x2 16 wf_dot_3x2))).
    exists 1%nat, 0%nat.
    split; [simpl; lia|split; [simpl; lia|vm_compute; reflexivity]].
Defined.

(** C9. A rectangle returned by [getOpaqueBounds] lies inside the buffer
    with width and height at least 1, and it is the inclusive bounding box
    of the pixels whose alpha exceeds the threshold: every such pixel is
    inside it and each of its four sides ([x], [x + w - 1], [y],
    [y + h - 1]) is touched by one. *)
Theorem getOpaqueBounds_bounding_box (image : ImageData) (alphaThreshold : Z) (r : Rect) :
  wf_image image ->
  getOpaqueBounds image alphaThreshold = Some r ->
  (0 <= rx r /\ 0 <= ry r /\
   rx r + rw r <= Z.of_nat (width image) /\ ry r + rh r <= Z.of_nat (height image) /\
   1 <= rw r /\ 1 <= rh r) /\
  (forall x y, qualifies image alphaThreshold x y ->
     rx r <= Z.of_nat x < rx r + rw r /\ ry r <= Z.of_nat y < ry r + rh r) /\
  (exists x y, qualifies image alphaThreshold x y /\ Z.of_nat x = rx r) /\
  (exists x y, qualifies image alphaThreshold x y /\ Z.of_nat x = rx r + rw r - 1) /\
  (exists x y, qualifies image alphaThreshold x y /\ Z.of_nat y = ry r) /\
  (exists x y, qualifies image alphaThreshold x y /\ Z.of_nat y = ry r + rh r - 1).
Proof.
  intros _ Hsome.
  destruct (getOpaqueBounds_scan _ _ _ Hsome) as (HX & HY & ->). simpl.
  destruct (scanBounds_inv image alphaThreshold) as [Hin [[E _]|(H1 & H2 & H3 & H4)]].
  { exfalso. rewrite E in HX. simpl in HX. lia. }
  destruct H1 as (x1 & y1 & [Q1 _] & E1). destruct H2 as (x2 & y2 & [Q2 _] & E2).
  destruct H3 as (x3 & y3 & [Q3 _] & E3). destruct H4 as (x4 & y4 & [Q4 _] & E4).
  assert (B1 := Q1). assert (B2 := Q2). assert (B3 := Q3). assert (B4 := Q4).
  destruct B1 as (B1 & _ & _). destruct B2 as (B2 & _ & _).
  destruct B3 as (_ & B3 & _). destruct B4 as (_ & B4 & _).
  split; [lia|]. split.
  - intros x y Hq. specialize (Hin x y (qualifies_seen _ _ _ _ Hq)). lia.
  - repeat split.
    + exists x1, y1. split; [exact Q1|lia].
    + exists x2, y2. split; [exact Q2|lia].
    + exists x3, y3. split; [exact Q3|lia].
    + exists x4, y4. split; [exact Q4|lia].
Qed.

Lemma getOpaqueBounds_bounding_box_witness :
  getOpaqueBounds dot_3x2 16 = Some (mkRect 0 0 2 2) /\
  (0 <= 0 /\ 0 <= 0 /\ 0 + 2 <= 3 /\ 0 + 2 <= 2 /\ 1 <= 2 /\ 1 <= 2).
Proof.
  split; [reflexivity|].
  exact (proj1 (getOpaqueBounds_bounding_box dot_3x2 16 (mkRect 0 0 2 2)
                  wf_dot_3x2 eq_refl)).
Defined.

Example nearest_red :
  findNearestInPalette (JS.num 255) (JS.num 0) (JS.num 0) (PALETTES pico8) = Some (255, 0, 77).
Proof. vm_compute. reflexivity. Qed.

(** Equal distances: the entry met first wins. *)
Example nearest_tie_first :
  findNearestInPalette (JS.num 20) (JS.num 0) (JS.num 0) [(10, 0, 0); (30, 0, 0)]
    = Some (10, 0, 0) /\
  findNearestInPalette (JS.num 20) (JS.num 0) (JS.num 0) [(30, 0, 0); (10, 0, 0)]
    = Some (30, 0, 0).
Proof. split; vm_compute; reflexivity. Qed.

(** Full-strength dithering alternates two entries along a row. *)
Example quantize_dithered_row :
  quantizeImageToPalette
    (mkImageData 4 1 [100;130;60;255; 100;130;60;255; 100;130;60;255; 100;130;60;255])
    (PALETTES gb) 1%float
  = Some (mkImageData 4 1 [48;98;48;255; 139;172;15;255; 48;98;48;255; 139;172;15;255]).
Proof. vm_compute. reflexivity. Qed.

Example quantize_dot :
  quantizeImageToPalette dot_3x2 (PALETTES gb) 0%float =
  Some (mkImageData 3 2 [0;0;0;0; 15;56;15;255; 0;0;0;0;
                         15;56;15;255; 15;56;15;255; 15;56;15;255]).
Proof. vm_compute. reflexivity. Qed.

(** ** Array reads and stores *)

Lemma rd_lookup (arr : list Z) i : (i < length arr)%nat -> arr !! i = Some (rd arr i).
Proof.
  intros Hi. unfold rd. destruct (lookup_lt_is_Some_2 arr i Hi) as [v ->]. reflexivity.
Qed.

Lemma rd_insert_eq (arr : list Z) i v :
  (i < length arr)%nat -> rd (<[i := v]> arr) i = v.
Proof. intros Hi. unfold rd. rewrite list_lookup_insert_eq by exact Hi. reflexivity. Qed.

Lemma rd_insert_ne (arr : list Z) i j v : i <> j -> rd (<[i := v]> arr) j = rd arr j.
Proof. intros Hne. unfold rd. rewrite list_lookup_insert_ne by exact Hne. reflexivity. Qed.

Lemma rd_zeros n i : rd (repeat 0 n) i = 0.
Proof.
  unfold rd. destruct (repeat 0 n !! i) as [v|] eqn:E; [|reflexivity].
  apply list_elem_of_lookup_2, list_elem_of_In, repeat_spec in E. exact E.
Qed.

Lemma length_store4 idx px (out : list Z) : length (store4 idx px out) = length out.
Proof.
  destruct px as [[[r g] b] a]. unfold store4. rewrite !length_insert. reflexivity.
Qed.

Lemma rgba_store4_eq idx px (out : list Z) :
  (idx + 3 < length out)%nat -> rgba (store4 idx px out) idx = px.
Proof.
  intros Hlen. destruct px as [[[r g] b] a]. unfold rgba, store4.
  rewrite (rd_insert_ne _ (idx + 3)%nat idx) by lia.
  rewrite (rd_insert_ne _ (idx + 2)%nat idx) by lia.
  rewrite (rd_insert_ne _ (idx + 1)%nat idx) by lia.
  rewrite (rd_insert_eq _ idx) by lia.
  rewrite (rd_insert_ne _ (idx + 3)%nat (idx + 1)%nat) by lia.
  rewrite (rd_insert_ne _ (idx + 2)%nat (idx + 1)%nat) by lia.
  rewrite (rd_insert_eq _ (idx + 1)%nat) by (rewrite length_insert; lia).
  rewrite (rd_insert_ne _ (idx + 3)%nat (idx + 2)%nat) by lia.
  rewrite (rd_insert_eq _ (idx + 2)%nat) by (rewrite !length_insert; lia).
  rewrite (rd_insert_eq _ (idx + 3)%nat) by (rewrite !length_insert; lia).
  reflexivity.
Qed.

Lemma rd_store4_ne idx px (out : list Z) j :
  (j < idx \/ idx + 3 < j)%nat -> rd (store4 idx px out) j = rd out j.
Proof.
  intros Hj. destruct px as [[[r g] b] a]. unfold store4.
  rewrite !rd_insert_ne by lia. reflexivity.
Qed.

Lemma rgba_store4_ne idx idx' px (out : list Z) :
  (idx' + 3 < idx \/ idx + 3 < idx')%nat ->
  rgba (store4 idx px out) idx' = rgba out idx'.
Proof.
  intros Hj. unfold rgba. rewrite !rd_store4_ne by lia. reflexivity.
Qed.

Lemma pix_bound (w h x y : nat) :
  (x < w)%nat -> (y < h)%nat -> (pix w x y + 3 < 4 * w * h)%nat.
Proof.
  intros Hx Hy. unfold pix. pose proof (pixel_number_lt w h x y Hx Hy). lia.
Qed.

Lemma pix_apart (w x y x' y' : nat) :
  (x < w)%nat -> (x' < w)%nat -> (y' * w + x' < y * w + x)%nat ->
  (pix w x' y' + 3 < pix w x y)%nat.
Proof. intros Hx Hx' Hlt. unfold pix. lia. Qed.

(** ** quantizeImageToPalette *)

Lemma quantize_step_pixel dat w palette amp x y (out : list Z) :
  quantize_step dat w palette amp x y out =
  match quantized_pixel dat w palette amp x y with
  | Some px => Some (store4 (pix w x y) px out)
  | None => None
  end.
Proof.
  unfold quantize_step, quantized_pixel.
  destruct (rd dat (pix w x y + 3) <? 5); [reflexivity|].
  destruct (dithered dat (pix w x y) amp x y) as [[r g] b].
  destruct (findNearestInPalette r g b palette) as [[[qr qg] qb]|]; reflexivity.
Qed.

(** State of the output array after [n] pixels. *)
Lemma quantize_scan dat w h palette amp :
  (forall x y, (x < w)%nat -> (y < h)%nat ->
     is_Some (quantized_pixel dat w palette amp x y)) ->
  exists out,
    rasterM w h (quantize_step dat w palette amp) (repeat 0 (4 * w * h)) = Some out /\
    length out = (4 * w * h)%nat /\
    forall x y, (x < w)%nat -> (y < h)%nat ->
      quantized_pixel dat w palette amp x y = Some (rgba out (pix w x y)).
Proof.
  intros Hsome.
  destruct (rasterM_inv
    (fun n out => length out = (4 * w * h)%nat /\
       forall x y, (x < w)%nat -> (y < h)%nat -> (y * w + x < n)%nat ->
         quantized_pixel dat w palette amp x y = Some (rgba out (pix w x y)))
    w h (quantize_step dat w palette amp) (repeat 0 (4 * w * h))) as (out & E & Hlen & Hpx).
  - split; [apply repeat_length|]. intros x y _ _ Hlt. lia.
  - intros x y out Hx Hy [Hlen Hdone].
    rewrite quantize_step_pixel.
    destruct (Hsome x y Hx Hy) as [px Epx]. rewrite Epx.
    eexists. split; [reflexivity|]. split; [rewrite length_store4; exact Hlen|].
    intros x' y' Hx' Hy' Hlt.
    destruct (pixel_number_lt_S _ _ _ _ _ Hx Hx' Hlt) as [Hold|[-> ->]].
    + rewrite rgba_store4_ne by (left; apply pix_apart; assumption).
      apply Hdone; assumption.
    + rewrite rgba_store4_eq; [exact Epx|].
      rewrite Hlen. apply pix_bound; assumption.
  - exists out. split; [exact E|]. split; [exact Hlen|].
    intros x y Hx Hy. apply Hpx; try assumption. apply pixel_number_lt; assumption.
Qed.

(** The palette search returns an entry of a non-empty palette, whatever
    the colour searched for. *)
Lemma findNearestInPalette_elem r g b (palette : Palette) :
  palette <> [] ->
  exists q, findNearestInPalette r g b palette = Some q /\ q ∈ palette.
Proof.
  intros Hne. unfold findNearestInPalette.
  assert (Hidx : (fst (for_loop (length palette) (nearest_step r g b palette)
                        (O, PrimFloat.infinity)) < length palette)%nat).
  { apply (for_loop_inv (fun _ st => (fst st < length palette)%nat)).
    - simpl. destruct palette; [congruence|simpl; lia].
    - intros i st Hi Hst. unfold nearest_step.
      destruct (palette !! i) as [p|]; [|exact Hst].
      destruct (PrimFloat.ltb _ _); [simpl; exact Hi|exact Hst]. }
  destruct (lookup_lt_is_Some_2 _ _ Hidx) as [q Eq].
  exists q. split; [exact Eq|]. apply list_elem_of_lookup. eauto.
Qed.

Lemma toUint8Clamped_byte v : is_byte v -> JS.toUint8Clamped v = v.
Proof. unfold is_byte, JS.toUint8Clamped. lia. Qed.

Lemma quantized_pixel_cases dat w palette amp x y :
  wf_palette palette ->
  (rd dat (pix w x y + 3) < 5 /\
   quantized_pixel dat w palette amp x y = Some (0, 0, 0, 0)) \/
  (5 <= rd dat (pix w x y + 3) /\
   exists qr qg qb, (qr, qg, qb) ∈ palette /\
     findNearestInPalette (fst (fst (dithered dat (pix w x y) amp x y)))
                          (snd (fst (dithered dat (pix w x y) amp x y)))
                          (snd (dithered dat (pix w x y) amp x y)) palette
       = Some (qr, qg, qb) /\
     quantized_pixel dat w palette amp x y = Some (qr, qg, qb, 255)).
Proof.
  intros [Hne Hbytes]. unfold quantized_pixel.
  destruct (Z.ltb_spec (rd dat (pix w x y + 3)) 5) as [Ha|Ha]; [left; auto|right].
  split; [exact Ha|].
  destruct (dithered dat (pix w x y) amp x y) as [[r g] b]. simpl.
  destruct (findNearestInPalette_elem r g b palette Hne) as ([[qr qg] qb] & -> & Hin).
  exists qr, qg, qb. split; [exact Hin|]. split; [reflexivity|].
  rewrite Forall_forall in Hbytes. destruct (Hbytes _ Hin) as (Hr & Hg & Hb).
  simpl in Hr, Hg, Hb. rewrite !toUint8Clamped_byte by assumption. reflexivity.
Qed.

Lemma quantize_total src palette ds :
  wf_palette palette ->
  exists out,
    quantizeImageToPalette src palette ds = Some (mkImageData (width src) (height src) out) /\
    length out = (4 * width src * height src)%nat /\
    forall x y, (x < width src)%nat -> (y < height src)%nat ->
      quantized_pixel (data src) (width src) palette (ditherAmp_of ds) x y
      = Some (rgba out (pix (width src) x y)).
Proof.
  intros Hpal.
  destruct (quantize_scan (data src) (width src) (height src) palette (ditherAmp_of ds))
    as (out & E & Hlen & Hpx).
  - intros x y _ _.
    destruct (quantized_pixel_cases (data src) (width src) palette (ditherAmp_of ds) x y Hpal)
      as [[_ ->]|[_ (qr & qg & qb & _ & _ & ->)]]; eauto.
  - exists out. unfold quantizeImageToPalette, newImageData. cbn [data].
    rewrite E. auto.
Qed.

Lemma wf_PALETTES name : wf_palette (PALETTES name).
Proof.
  split; [destruct name; discriminate|].
  destruct name; repeat constructor; simpl; lia.
Qed.

(** C1. For every well-formed buffer, every supported palette and every
    dither strength, [quantizeImageToPalette] returns a buffer of the same
    size in which a pixel whose alpha is at least 5 holds an RGB triple of
    the palette with alpha 255, and a pixel whose alpha is below 5 is
    (0, 0, 0, 0). *)
Theorem quantize_within_palette (src : ImageData) (name : PaletteName)
    (ditherStrength01 : float) :
  wf_image src ->
  exists out,
    quantizeImageToPalette src (PALETTES name) ditherStrength01 = Some out /\
    width out = width src /\ height out = height src /\
    forall x y, (x < width src)%nat -> (y < height src)%nat ->
      let idx := pix (width src) x y in
      (5 <= rd (data src) (idx + 3) ->
       (rd (data out) idx, rd (data out) (idx + 1), rd (data out) (idx + 2))
         ∈ PALETTES name /\
       rd (data out) (idx + 3) = 255) /\
      (rd (data src) (idx + 3) < 5 -> rgba (data out) idx = (0, 0, 0, 0)).
Proof.
  intros _.
  destruct (quantize_total src (PALETTES name) ditherStrength01 (wf_PALETTES name))
    as (out & E & Hlen & Hpx).
  exists (mkImageData (width src) (height src) out).
  split; [exact E|]. split; [reflexivity|]. split; [reflexivity|].
  intros x y Hx Hy idx. cbn [data]. specialize (Hpx x y Hx Hy). fold idx in Hpx.
  destruct (quantized_pixel_cases (data src) (width src) (PALETTES name)
              (ditherAmp_of ditherStrength01) x y (wf_PALETTES name))
    as [[Ha Eq]|[Ha (qr & qg & qb & Hin & _ & Eq)]];
    fold idx in Ha; rewrite Eq in Hpx.
  - split; [lia|]. intros _. congruence.
  - split; [|lia]. intros _. unfold rgba in Hpx.
    injection Hpx as Er Eg Eb Ea. rewrite <- Er, <- Eg, <- Eb, <- Ea.
    split; [exact Hin|reflexivity].
Qed.

Lemma quantize_within_palette_witness :
  exists out,
    quantizeImageToPalette dot_3x2 (PALETTES pico8) 0.2%float = Some out /\
    width out = 3%nat /\ height out = 2%nat.
Proof.
  destruct (quantize_within_palette dot_3x2 pico8 0.2%float wf_dot_3x2)
    as (out & E & Hw & Hh & _).
  exists out. auto.
Defined.

(** ** Distances between byte colours *)

Lemma byte_values_spec z : is_byte z -> In z byte_values.
Proof.
  intros [Hlo Hhi]. unfold byte_values.
  replace z with (Z.of_nat (Z.to_nat z)) by lia.
  apply in_map, in_seq. lia.
Qed.

Lemma for_all_bytes_spec f z : for_all_bytes f = true -> is_byte z -> f z = true.
Proof.
  intros Hall Hz. unfold for_all_bytes in Hall.
  rewrite forallb_forall in Hall. apply Hall, byte_values_spec, Hz.
Qed.

Lemma check_byte_sub_ok :
  for_all_bytes (fun r => for_all_bytes (fun p =>
    PrimFloat.Leibniz.eqb (JS.num r - JS.num p)%float (JS.num (r - p)))) = true.
Proof. vm_compute. reflexivity. Qed.

Lemma check_square_sign_ok :
  square_sign_free 0.3 /\ square_sign_free 0.59 /\ square_sign_free 0.11.
Proof. unfold square_sign_free. repeat split; vm_compute; reflexivity. Qed.

Lemma check_distance_positive_ok :
  check_tables (square_table 0.3) (square_table 0.59) (square_table 0.11) = true.
Proof. vm_compute. reflexivity. Qed.

Lemma square_table_spec c d : is_byte d -> In (d, weighted_square c d) (square_table c).
Proof.
  intros Hd. unfold square_table.
  apply (in_map (fun d => (d, weighted_square c d))), byte_values_spec, Hd.
Qed.

Lemma check_tables_spec tr tg tb er eg eb :
  check_tables tr tg tb = true -> In er tr -> In eg tg -> In eb tb ->
  positive_or_same (fst er) (fst eg) (fst eb) (snd er + snd eg + snd eb)%float = true.
Proof.
  unfold check_tables. intros H Hr Hg Hb.
  rewrite forallb_forall in H. specialize (H _ Hr).
  rewrite forallb_forall in H. specialize (H _ Hg). cbv zeta in H.
  rewrite forallb_forall in H. exact (H _ Hb).
Qed.

Lemma distance_positive_spec dr dg db :
  is_byte dr -> is_byte dg -> is_byte db ->
  positive_or_same dr dg db
    (weighted_square 0.3 dr + weighted_square 0.59 dg + weighted_square 0.11 db)%float
  = true.
Proof.
  intros Hr Hg Hb.
  exact (check_tables_spec _ _ _ _ _ _ check_distance_positive_ok
           (square_table_spec 0.3 dr Hr) (square_table_spec 0.59 dg Hg)
           (square_table_spec 0.11 db Hb)).
Qed.

Lemma byte_sub r p :
  is_byte r -> is_byte p -> (JS.num r - JS.num p)%float = JS.num (r - p).
Proof.
  intros Hr Hp. apply Leibniz.eqb_spec.
  pose proof (for_all_bytes_spec _ r check_byte_sub_ok Hr) as H. cbv beta in H.
  exact (for_all_bytes_spec _ p H Hp).
Qed.

Lemma weighted_square_abs c d :
  square_sign_free c -> -255 <= d <= 255 ->
  weighted_square c d = weighted_square c (Z.abs d).
Proof.
  intros Hc Hd. destruct (Z.le_gt_cases 0 d) as [Hpos|Hneg].
  - rewrite Z.abs_eq by exact Hpos. reflexivity.
  - rewrite Z.abs_neq by lia.
    assert (Hb : is_byte (- d)) by (unfold is_byte; lia).
    pose proof (for_all_bytes_spec _ (- d) Hc Hb) as H. cbv beta in H.
    apply Leibniz.eqb_spec in H. rewrite Z.opp_involutive in H. exact H.
Qed.

Lemma weighted_distance_bytes r g b pr pg pb :
  is_byte r -> is_byte g -> is_byte b -> is_rgb8 (pr, pg, pb) ->
  weighted_distance (JS.num r) (JS.num g) (JS.num b) (pr, pg, pb) =
  (weighted_square 0.3 (Z.abs (r - pr)) + weighted_square 0.59 (Z.abs (g - pg))
   + weighted_square 0.11 (Z.abs (b - pb)))%float.
Proof.
  intros Hr Hg Hb (Hpr & Hpg & Hpb). simpl in Hpr, Hpg, Hpb.
  destruct check_square_sign_ok as (C1 & C2 & C3).
  unfold weighted_distance. rewrite !byte_sub by assumption.
  fold (weighted_square 0.3 (r - pr)). fold (weighted_square 0.59 (g - pg)).
  fold (weighted_square 0.11 (b - pb)).
  unfold is_byte in *.
  rewrite (weighted_square_abs _ (r - pr) C1) by lia.
  rewrite (weighted_square_abs _ (g - pg) C2) by lia.
  rewrite (weighted_square_abs _ (b - pb) C3) by lia.
  reflexivity.
Qed.

(** A byte colour is at distance [+0] from itself ... *)
Lemma weighted_distance_same r g b :
  is_byte r -> is_byte g -> is_byte b ->
  weighted_distance (JS.num r) (JS.num g) (JS.num b) (r, g, b) = 0%float.
Proof.
  intros Hr Hg Hb.
  rewrite (weighted_distance_bytes r g b r g b Hr Hg Hb (conj Hr (conj Hg Hb))).
  rewrite !Z.sub_diag. vm_compute. reflexivity.
Qed.

(** ... and at a strictly positive distance from any other one. *)
Lemma weighted_distance_other r g b p :
  is_byte r -> is_byte g -> is_byte b -> is_rgb8 p -> p <> (r, g, b) ->
  PrimFloat.ltb 0 (weighted_distance (JS.num r) (JS.num g) (JS.num b) p) = true /\
  PrimFloat.ltb (weighted_distance (JS.num r) (JS.num g) (JS.num b) p) 0 = false.
Proof.
  intros Hr Hg Hb Hp Hne. destruct p as [[pr pg] pb].
  rewrite weighted_distance_bytes by assumption.
  destruct Hp as (Hpr & Hpg & Hpb). simpl in Hpr, Hpg, Hpb. unfold is_byte in *.
  assert (Ha : is_byte (Z.abs (r - pr))) by (unfold is_byte; lia).
  assert (Hb' : is_byte (Z.abs (g - pg))) by (unfold is_byte; lia).
  assert (Hc : is_byte (Z.abs (b - pb))) by (unfold is_byte; lia).
  pose proof (distance_positive_spec _ _ _ Ha Hb' Hc) as H3.
  unfold positive_or_same in H3.
  apply orb_true_iff in H3. destruct H3 as [H3|H3].
  - exfalso. apply andb_true_iff in H3. destruct H3 as [H3 Ez].
    apply andb_true_iff in H3. destruct H3 as [Ex Ey].
    apply Z.eqb_eq in Ex, Ey, Ez.
    apply Hne. f_equal; [f_equal|]; lia.
  - apply andb_true_iff in H3. destruct H3 as [H3 H4].
    apply negb_true_iff in H4. split; assumption.
Qed.

(** The search finds a byte colour that is in the palette: its distance is
    [+0], every other entry is strictly farther, and the strict comparison
    [d < bestD] keeps the first index that reaches the minimum. *)
Lemma findNearestInPalette_fixed (palette : Palette) r g b :
  Forall is_rgb8 palette -> (r, g, b) ∈ palette ->
  findNearestInPalette (JS.num r) (JS.num g) (JS.num b) palette = Some (r, g, b).
Proof.
  intros Hbytes Hin.
  assert (Hq : is_rgb8 (r, g, b)) by (rewrite Forall_forall in Hbytes; auto).
  destruct Hq as (Hr & Hg & Hb). simpl in Hr, Hg, Hb.
  unfold findNearestInPalette.
  set (st := for_loop (length palette) (nearest_step (JS.num r) (JS.num g) (JS.num b) palette)
               (O, PrimFloat.infinity)).
  assert (Hinv :
    (PrimFloat.ltb 0 (snd st) = true /\
     forall j, (j < length palette)%nat -> palette !! j <> Some (r, g, b)) \/
    (snd st = 0%float /\ palette !! fst st = Some (r, g, b))).
  { subst st.
    apply (for_loop_inv (fun i st =>
      (PrimFloat.ltb 0 (snd st) = true /\
       forall j, (j < i)%nat -> palette !! j <> Some (r, g, b)) \/
      (snd st = 0%float /\ palette !! fst st = Some (r, g, b)))).
    - left. split; [reflexivity|]. intros j Hj. lia.
    - intros i [bestIdx bestD] Hi Hst. simpl in Hst. unfold nearest_step.
      destruct (lookup_lt_is_Some_2 _ _ Hi) as [p Ep]. rewrite Ep. cbn [snd].
      destruct (decide (p = (r, g, b))) as [->|Hne].
      + rewrite weighted_distance_same by assumption.
        destruct Hst as [[Hpos _]|[-> Hbest]].
        * rewrite Hpos. right. split; [reflexivity|exact Ep].
        * right. replace (PrimFloat.ltb 0 0) with false by reflexivity.
          split; [reflexivity|exact Hbest].
      + assert (Hp : is_rgb8 p).
        { rewrite Forall_forall in Hbytes. apply Hbytes, list_elem_of_lookup. eauto. }
        destruct (weighted_distance_other r g b p Hr Hg Hb Hp Hne) as [Hpos Hnneg].
        destruct Hst as [[Hbest Hnone]|[-> Hbest]].
        * left.
          assert (Hnone' : forall j, (j < Datatypes.S i)%nat ->
                                     palette !! j <> Some (r, g, b)).
          { intros j Hj. destruct (Nat.eq_dec j i) as [->|Hji].
            - rewrite Ep. congruence.
            - apply Hnone. lia. }
          destruct (PrimFloat.ltb (weighted_distance _ _ _ p) bestD); cbn [snd];
            (split; [assumption|exact Hnone']).
        * right. rewrite Hnneg. split; [reflexivity|exact Hbest]. }
  destruct Hinv as [[_ Hnone]|[_ Hbest]]; [exfalso|exact Hbest].
  apply list_elem_of_lookup in Hin. destruct Hin as [j Ej].
  apply (Hnone j); [|exact Ej]. apply lookup_lt_Some in Ej. exact Ej.
Qed.

Lemma ditherAmp_zero : PrimFloat.ltb 0 (ditherAmp_of 0) = false.
Proof. vm_compute. reflexivity. Qed.

(** Two buffers of the same size with the same pixels are equal. *)
Lemma rgba_ext (l1 l2 : list Z) (w h : nat) :
  length l1 = (4 * w * h)%nat -> length l2 = (4 * w * h)%nat ->
  (forall x y, (x < w)%nat -> (y < h)%nat ->
     rgba l1 (pix w x y) = rgba l2 (pix w x y)) ->
  l1 = l2.
Proof.
  intros H1 H2 Hpx. apply list_eq. intros i.
  destruct (Nat.lt_ge_cases i (4 * w * h)) as [Hi|Hi].
  - rewrite (rd_lookup l1 i) by lia. rewrite (rd_lookup l2 i) by lia. f_equal.
    assert (Hw : (0 < w)%nat) by (destruct w; [simpl in Hi|]; lia).
    set (n := (i / 4)%nat). set (c := (i mod 4)%nat).
    assert (Ei : i = (n * 4 + c)%nat).
    { subst n c. pose proof (Nat.div_mod_eq i 4). lia. }
    assert (Hc : (c < 4)%nat) by (subst c; apply Nat.mod_upper_bound; lia).
    assert (Hn : (n < h * w)%nat) by lia.
    set (x := (n mod w)%nat). set (y := (n / w)%nat).
    assert (En : n = (y * w + x)%nat).
    { subst x y. pose proof (Nat.div_mod_eq n w). lia. }
    assert (Hx : (x < w)%nat) by (subst x; apply Nat.mod_upper_bound; lia).
    assert (Hy : (y < h)%nat).
    { subst y. apply Nat.Div0.div_lt_upper_bound. lia. }
    specialize (Hpx x y Hx Hy). unfold rgba, pix in Hpx. rewrite <- En in Hpx.
    injection Hpx as E0 E1 E2 E3. rewrite Ei.
    destruct c as [|[|[|[|c]]]]; [| | | |lia].
    + rewrite Nat.add_0_r. exact E0.
    + exact E1.
    + exact E2.
    + exact E3.
  - rewrite !lookup_ge_None_2 by lia. reflexivity.
Qed.

(** A pixel the first pass produced is left as it is by a second pass
    without dithering. *)
Lemma quantized_pixel_stable (palette : Palette) w (out : list Z) x y px :
  wf_palette palette ->
  rgba out (pix w x y) = px ->
  (px = (0, 0, 0, 0) \/
   exists qr qg qb, (qr, qg, qb) ∈ palette /\ px = (qr, qg, qb, 255)) ->
  quantized_pixel out w palette (ditherAmp_of 0) x y = Some px.
Proof.
  intros [Hne Hbytes] Epx Hcases. unfold rgba in Epx.
  unfold quantized_pixel, dithered. rewrite ditherAmp_zero.
  destruct Hcases as [->|(qr & qg & qb & Hin & ->)]; injection Epx as E0 E1 E2 E3;
    rewrite E3.
  - reflexivity.
  - replace (255 <? 5) with false by reflexivity.
    rewrite E0, E1, E2. rewrite (findNearestInPalette_fixed palette qr qg qb Hbytes Hin).
    rewrite Forall_forall in Hbytes. destruct (Hbytes _ Hin) as (Hr & Hg & Hb).
    simpl in Hr, Hg, Hb. rewrite !toUint8Clamped_byte by assumption. reflexivity.
Qed.

(** C2. Without dithering ([ditherStrength = 0]) quantization is a
    function of the buffer and the palette, and it is idempotent: the
    quantized buffer is returned unchanged by a second quantization with
    the same palette. *)
Theorem quantize_idempotent (src : ImageData) (palette : Palette) :
  wf_image src -> wf_palette palette ->
  exists out,
    quantizeImageToPalette src palette 0 = Some out /\
    quantizeImageToPalette out palette 0 = Some out.
Proof.
  intros _ Hpal.
  destruct (quantize_total src palette 0 Hpal) as (out1 & E1 & Hlen1 & Hpx1).
  exists (mkImageData (width src) (height src) out1). split; [exact E1|].
  destruct (quantize_total (mkImageData (width src) (height src) out1) palette 0 Hpal)
    as (out2 & E2 & Hlen2 & Hpx2).
  cbn [width height data] in E2, Hlen2, Hpx2. rewrite E2. do 2 f_equal.
  apply (rgba_ext out2 out1 (width src) (height src) Hlen2 Hlen1).
  intros x y Hx Hy. specialize (Hpx1 x y Hx Hy). specialize (Hpx2 x y Hx Hy).
  rewrite (quantized_pixel_stable palette (width src) out1 x y
             (rgba out1 (pix (width src) x y)) Hpal eq_refl) in Hpx2.
  - congruence.
  - destruct (quantized_pixel_cases (data src) (width src) palette (ditherAmp_of 0) x y Hpal)
      as [[_ Eq]|[_ (qr & qg & qb & Hin & _ & Eq)]]; rewrite Eq in Hpx1.
    + left. congruence.
    + right. exists qr, qg, qb. split; [exact Hin|congruence].
Qed.

Lemma quantize_idempotent_witness :
  exists out,
    quantizeImageToPalette dot_3x2 (PALETTES gb) 0 = Some out /\
    quantizeImageToPalette out (PALETTES gb) 0 = Some out.
Proof.
  exact (quantize_idempotent dot_3x2 (PALETTES gb) wf_dot_3x2 (wf_PALETTES gb)).
Defined.

(** ** createPixelOutline *)

Example outline_centre :
  createPixelOutline centre_3x3 1 =
  mkImageData 3 3 [0;0;0;255; 0;0;0;255; 0;0;0;255;
                   0;0;0;255; 0;0;0;0;   0;0;0;255;
                   0;0;0;255; 0;0;0;255; 0;0;0;255].
Proof. vm_compute. reflexivity. Qed.

Lemma alpha_mask_spec (src : ImageData) :
  length (alpha_mask src) = (width src * height src)%nat /\
  forall i, (i < width src * height src)%nat ->
    rd (alpha_mask src) i = if 10 <? rd (data src) (i * 4 + 3) then 1 else 0.
Proof.
  unfold alpha_mask.
  apply (for_loop_inv (fun n (mask : list Z) =>
    length mask = (width src * height src)%nat /\
    forall i, (i < n)%nat ->
      rd mask i = if 10 <? rd (data src) (i * 4 + 3) then 1 else 0)).
  - split; [apply repeat_length|]. intros i Hi. lia.
  - intros n mask Hn [Hlen Hdone]. split; [rewrite length_insert; exact Hlen|].
    intros i Hi. destruct (Nat.eq_dec i n) as [->|Hne].
    + rewrite rd_insert_eq by lia. reflexivity.
    + rewrite rd_insert_ne by lia. apply Hdone. lia.
Qed.

(** What one round of the dilation loop leaves in [next]. *)
Lemma dilate_round_spec (w h : nat) (dilated : list Z) :
  length (dilate_round w h dilated) = (w * h)%nat /\
  forall x y, (x < w)%nat -> (y < h)%nat ->
    rd (dilate_round w h dilated) (y * w + x) =
    if truthy (rd dilated (y * w + x)) || any_neighbour w h dilated x y then 1 else 0.
Proof.
  unfold dilate_round.
  pose proof (raster_inv (fun n (next : list Z) =>
    length next = (w * h)%nat /\
    (forall x y, (x < w)%nat -> (y < h)%nat -> (y * w + x < n)%nat ->
       rd next (y * w + x) =
       if truthy (rd dilated (y * w + x)) || any_neighbour w h dilated x y then 1 else 0) /\
    (forall j, (n <= j)%nat -> rd next j = 0))
    w h (dilate_step w h dilated) (repeat 0 (w * h))) as H.
  destruct H as (Hlen & Hdone & _).
  - split; [apply repeat_length|]. split; [intros x y _ _ Hlt; lia|].
    intros j _. apply rd_zeros.
  - intros x y next Hx Hy (Hlen & Hdone & Hrest).
    pose proof (pixel_number_lt w h x y Hx Hy) as Hi.
    assert (Hlen' : length (dilate_step w h dilated x y next) = (w * h)%nat).
    { unfold dilate_step. destruct (truthy _); [|destruct (any_neighbour _ _ _ _ _)];
        rewrite ?length_insert; exact Hlen. }
    split; [exact Hlen'|]. split.
    + intros x' y' Hx' Hy' Hlt.
      destruct (pixel_number_lt_S _ _ _ _ _ Hx Hx' Hlt) as [Hold|[-> ->]].
      * rewrite <- (Hdone x' y' Hx' Hy' Hold). unfold dilate_step.
        destruct (truthy _); [|destruct (any_neighbour _ _ _ _ _)];
          rewrite ?rd_insert_ne by lia; reflexivity.
      * unfold dilate_step.
        destruct (truthy (rd dilated (y * w + x))); simpl.
        -- apply rd_insert_eq. lia.
        -- destruct (any_neighbour w h dilated x y).
           ++ apply rd_insert_eq. lia.
           ++ apply Hrest. lia.
    + intros j Hj. unfold dilate_step.
      destruct (truthy _); [|destruct (any_neighbour _ _ _ _ _)];
        rewrite ?rd_insert_ne by lia; apply Hrest; lia.
  - split; [exact Hlen|]. intros x y Hx Hy. apply Hdone; try assumption.
    replace (w * h)%nat with (h * w)%nat by lia. apply pixel_number_lt; assumption.
Qed.

Lemma probe_spec w h dilated x y dx dy :
  probe w h dilated x y dx dy false =
  negb ((dx =? 0) && (dy =? 0))
  && mask_of w h dilated (Z.of_nat x + dx) (Z.of_nat y + dy).
Proof.
  unfold probe, mask_of, in_bounds.
  destruct ((dx =? 0) && (dy =? 0)); [reflexivity|]. simpl.
  destruct ((0 <=? Z.of_nat x + dx) && (Z.of_nat x + dx <? Z.of_nat w)
            && (0 <=? Z.of_nat y + dy) && (Z.of_nat y + dy <? Z.of_nat h));
    [|reflexivity].
  simpl. destruct (truthy _); reflexivity.
Qed.

Lemma probe_row w h dilated x y dy :
  fold_left (fun (any : bool) (dx : Z) =>
               if any then any else probe w h dilated x y dx dy any) offsets false =
  probe w h dilated x y (-1) dy false
  || probe w h dilated x y 0 dy false
  || probe w h dilated x y 1 dy false.
Proof.
  unfold offsets. cbn [fold_left].
  destruct (probe w h dilated x y (-1) dy false); [reflexivity|].
  destruct (probe w h dilated x y 0 dy false); reflexivity.
Qed.

Ltac destruct_masks :=
  repeat match goal with
         | |- context [mask_of ?w ?h ?l ?p ?q] => destruct (mask_of w h l p q)
         end;
  first [reflexivity | simpl in *; discriminate].

(** The two loops with their early exit compute the disjunction over the
    eight neighbours; a neighbour outside the buffer counts as unset. *)
Lemma any_neighbour_spec w h dilated x y :
  any_neighbour w h dilated x y =
  existsb (fun d => mask_of w h dilated (Z.of_nat x + fst d) (Z.of_nat y + snd d))
    neighbours8.
Proof.
  unfold any_neighbour.
  change (fold_left _ offsets false) with
    (fold_left (fun (any : bool) (dy : Z) =>
       if any then any
       else fold_left (fun (any : bool) (dx : Z) =>
              if any then any else probe w h dilated x y dx dy any) offsets any)
       [-1; 0; 1] false).
  cbn [fold_left].
  rewrite (probe_row w h dilated x y (-1)).
  destruct (probe w h dilated x y (-1) (-1) false || probe w h dilated x y 0 (-1) false
            || probe w h dilated x y 1 (-1) false) eqn:R1.
  - rewrite !probe_spec in R1. cbn [existsb neighbours8 fst snd]. cbn in R1.
    rewrite <- R1. simpl. destruct_masks.
  - rewrite !probe_spec in R1. cbn in R1.
    apply orb_false_iff in R1. destruct R1 as [R1 R1c].
    apply orb_false_iff in R1. destruct R1 as [R1a R1b].
    rewrite (probe_row w h dilated x y 0).
    destruct (probe w h dilated x y (-1) 0 false || probe w h dilated x y 0 0 false
              || probe w h dilated x y 1 0 false) eqn:R2.
    + rewrite !probe_spec in R2. cbn in R2. cbn [existsb neighbours8 fst snd].
      rewrite R1a, R1b, R1c. rewrite <- R2. simpl. destruct_masks.
    + rewrite !probe_spec in R2. cbn in R2.
      apply orb_false_iff in R2. destruct R2 as [R2a R2c].
      rewrite orb_false_r in R2a.
      rewrite (probe_row w h dilated x y 1). rewrite !probe_spec.
      cbn [existsb neighbours8 fst snd].
      rewrite R1a, R1b, R1c, R2a, R2c. simpl. destruct_masks.
Qed.

Lemma in_bounds_nat w h x y :
  in_bounds w h x y = true ->
  exists x' y', x = Z.of_nat x' /\ y = Z.of_nat y' /\ (x' < w)%nat /\ (y' < h)%nat /\
    Z.to_nat (y * Z.of_nat w + x) = (y' * w + x')%nat.
Proof.
  unfold in_bounds. intros H.
  apply andb_true_iff in H. destruct H as [H H4].
  apply andb_true_iff in H. destruct H as [H H3].
  apply andb_true_iff in H. destruct H as [H1 H2].
  apply Z.leb_le in H1, H3. apply Z.ltb_lt in H2, H4.
  exists (Z.to_nat x), (Z.to_nat y).
  split; [lia|]. split; [lia|]. split; [lia|]. split; [lia|].
  rewrite <- (Z2Nat.id x) at 1 by lia. rewrite <- (Z2Nat.id y) at 1 by lia.
  rewrite <- Nat2Z.inj_mul, <- Nat2Z.inj_add. apply Nat2Z.id.
Qed.

Lemma in_bounds_of_nat w h x y :
  (x < w)%nat -> (y < h)%nat -> in_bounds w h (Z.of_nat x) (Z.of_nat y) = true.
Proof.
  intros Hx Hy. unfold in_bounds.
  rewrite !andb_true_iff, !Z.leb_le, !Z.ltb_lt. lia.
Qed.

Lemma mask_of_nat w h flags x y :
  (x < w)%nat -> (y < h)%nat ->
  mask_of w h flags (Z.of_nat x) (Z.of_nat y) = truthy (rd flags (y * w + x)).
Proof.
  intros Hx Hy. unfold mask_of. rewrite in_bounds_of_nat by assumption. simpl.
  rewrite <- Nat2Z.inj_mul, <- Nat2Z.inj_add, Nat2Z.id. reflexivity.
Qed.

Lemma mask_of_in_bounds w h flags x y :
  in_bounds w h x y && mask_of w h flags x y = mask_of w h flags x y.
Proof. unfold mask_of. destruct (in_bounds w h x y); reflexivity. Qed.

Lemma existsb_pointwise {A : Type} (f g : A -> bool) l :
  (forall a, f a = g a) -> existsb f l = existsb g l.
Proof. intros E. induction l as [|a l IH]; simpl; [reflexivity|]. rewrite E, IH. reflexivity. Qed.

Lemma dilate8_pointwise w h (m1 m2 : Mask) :
  (forall x y, m1 x y = m2 x y) -> forall x y, dilate8 w h m1 x y = dilate8 w h m2 x y.
Proof.
  intros E x y. unfold dilate8. rewrite E.
  rewrite (existsb_pointwise _ (fun d => in_bounds w h (x + fst d) (y + snd d)
                                       && m2 (x + fst d) (y + snd d))); [reflexivity|].
  intros d. rewrite E. reflexivity.
Qed.

Lemma dilation_pointwise n w h (m1 m2 : Mask) :
  (forall x y, m1 x y = m2 x y) ->
  forall x y, dilation n w h m1 x y = dilation n w h m2 x y.
Proof.
  intros E. induction n as [|n IH]; simpl; [exact E|].
  apply dilate8_pointwise. exact IH.
Qed.

(** One turn of the loop is one round of 8-connected dilation. *)
Lemma mask_of_dilate_round w h dilated x y :
  mask_of w h (dilate_round w h dilated) x y = dilate8 w h (mask_of w h dilated) x y.
Proof.
  unfold dilate8.
  destruct (in_bounds w h x y) eqn:Hin.
  - destruct (in_bounds_nat _ _ _ _ Hin) as (x' & y' & -> & -> & Hx & Hy & _).
    rewrite !mask_of_nat by assumption.
    rewrite (proj2 (dilate_round_spec w h dilated) x' y' Hx Hy).
    rewrite any_neighbour_spec. rewrite andb_true_l.
    rewrite (existsb_pointwise
               (fun d => in_bounds w h (Z.of_nat x' + fst d) (Z.of_nat y' + snd d)
                         && mask_of w h dilated (Z.of_nat x' + fst d) (Z.of_nat y' + snd d))
               (fun d => mask_of w h dilated (Z.of_nat x' + fst d) (Z.of_nat y' + snd d)))
      by (intros d; apply mask_of_in_bounds).
    destruct (truthy (rd dilated (y' * w + x')) || existsb _ neighbours8); reflexivity.
  - unfold mask_of. rewrite Hin. reflexivity.
Qed.

Lemma mask_of_rounds n w h mask x y :
  mask_of w h (for_loop n (fun _ dilated => dilate_round w h dilated) mask) x y =
  dilation n w h (mask_of w h mask) x y.
Proof.
  revert x y. induction n as [|n IH]; intros x y; simpl; [reflexivity|].
  rewrite mask_of_dilate_round. apply dilate8_pointwise. exact IH.
Qed.

Lemma mask_of_alpha_mask (src : ImageData) x y :
  mask_of (width src) (height src) (alpha_mask src) x y = binary_mask src x y.
Proof.
  unfold binary_mask. destruct (in_bounds (width src) (height src) x y) eqn:Hin.
  - destruct (in_bounds_nat _ _ _ _ Hin) as (x' & y' & -> & -> & Hx & Hy & _).
    rewrite mask_of_nat by assumption. rewrite !Nat2Z.id.
    rewrite (proj2 (alpha_mask_spec src))
      by (replace (width src * height src)%nat with (height src * width src)%nat by lia;
          apply pixel_number_lt; assumption).
    unfold alpha_at, pix. rewrite andb_true_l.
    destruct (10 <? rd (data src) ((y' * width src + x') * 4 + 3)); reflexivity.
  - unfold mask_of. rewrite Hin. reflexivity.
Qed.

Lemma flag_eq1 v : is_flag v -> (v =? 1) = truthy v.
Proof. intros [->| ->]; reflexivity. Qed.

Lemma alpha_mask_flag (src : ImageData) i :
  (i < width src * height src)%nat -> is_flag (rd (alpha_mask src) i).
Proof.
  intros Hi. rewrite (proj2 (alpha_mask_spec src)) by exact Hi.
  destruct (10 <? _); [right|left]; reflexivity.
Qed.

Lemma rounds_flag n (src : ImageData) x y :
  (x < width src)%nat -> (y < height src)%nat ->
  is_flag (rd (for_loop n (fun _ dilated => dilate_round (width src) (height src) dilated)
                 (alpha_mask src)) (y * width src + x)).
Proof.
  intros Hx Hy. destruct n as [|n]; simpl.
  - apply alpha_mask_flag.
    replace (width src * height src)%nat with (height src * width src)%nat by lia.
    apply pixel_number_lt; assumption.
  - rewrite (proj2 (dilate_round_spec _ _ _)) by assumption.
    destruct (_ || _); [right|left]; reflexivity.
Qed.

(** The last scan paints exactly the pixels that are grown and not inside. *)
Lemma outline_scan (w h : nat) (mask dilated : list Z) :
  let out := raster w h (outline_step w mask dilated) (repeat 0 (4 * w * h)) in
  length out = (4 * w * h)%nat /\
  forall x y, (x < w)%nat -> (y < h)%nat ->
    rgba out (pix w x y) =
    if (rd dilated (y * w + x) =? 1) && negb (rd mask (y * w + x) =? 1)
    then (0, 0, 0, 255) else (0, 0, 0, 0).
Proof.
  intros out. subst out.
  pose proof (raster_inv (fun n (out : list Z) =>
    length out = (4 * w * h)%nat /\
    (forall x y, (x < w)%nat -> (y < h)%nat -> (y * w + x < n)%nat ->
       rgba out (pix w x y) =
       if (rd dilated (y * w + x) =? 1) && negb (rd mask (y * w + x) =? 1)
       then (0, 0, 0, 255) else (0, 0, 0, 0)) /\
    (forall j, (4 * n <= j)%nat -> rd out j = 0))
    w h (outline_step w mask dilated) (repeat 0 (4 * w * h))) as H.
  destruct H as (Hlen & Hdone & _).
  - split; [apply repeat_length|]. split; [intros x y _ _ Hlt; lia|].
    intros j _. apply rd_zeros.
  - intros x y out Hx Hy (Hlen & Hdone & Hrest).
    pose proof (pix_bound w h x y Hx Hy) as Hidx.
    unfold outline_step. fold (pix w x y).
    destruct ((rd dilated (y * w + x) =? 1) && negb (rd mask (y * w + x) =? 1)) eqn:Hol.
    + split; [rewrite length_store4; exact Hlen|]. split.
      * intros x' y' Hx' Hy' Hlt.
        destruct (pixel_number_lt_S _ _ _ _ _ Hx Hx' Hlt) as [Hold|[-> ->]].
        -- rewrite rgba_store4_ne by (left; apply pix_apart; assumption).
           apply Hdone; assumption.
        -- rewrite Hol. apply rgba_store4_eq. lia.
      * intros j Hj. rewrite rd_store4_ne by (unfold pix; lia).
        apply Hrest. lia.
    + split; [rewrite length_insert; exact Hlen|]. split.
      * intros x' y' Hx' Hy' Hlt.
        destruct (pixel_number_lt_S _ _ _ _ _ Hx Hx' Hlt) as [Hold|[-> ->]].
        -- pose proof (pix_apart w x y x' y' Hx Hx' Hold) as Hap.
           unfold rgba. rewrite !rd_insert_ne by lia.
           apply (Hdone x' y' Hx' Hy' Hold).
        -- rewrite Hol. unfold rgba.
           rewrite !(rd_insert_ne _ (pix w x y + 3)%nat) by lia.
           rewrite rd_insert_eq by lia.
           rewrite !Hrest by (unfold pix; lia). reflexivity.
      * intros j Hj. rewrite rd_insert_ne by (unfold pix; lia). apply Hrest. lia.
  - split; [exact Hlen|]. intros x y Hx Hy. apply Hdone; try assumption.
    apply pixel_number_lt; assumption.
Qed.

(** Every pixel of the result, for a positive thickness. *)
Lemma createPixelOutline_pixel (src : ImageData) (thickness : Z) x y :
  1 <= thickness -> (x < width src)%nat -> (y < height src)%nat ->
  rgba (data (createPixelOutline src thickness)) (pix (width src) x y) =
  if outline_band src (Z.to_nat thickness) x y then (0, 0, 0, 255) else (0, 0, 0, 0).
Proof.
  intros Ht Hx Hy. unfold createPixelOutline.
  destruct (Z.leb_spec thickness 0) as [Hle|_]; [lia|].
  cbn [data newImageData].
  rewrite (proj2 (outline_scan (width src) (height src) (alpha_mask src) _) x y Hx Hy).
  rewrite (flag_eq1 _ (rounds_flag (Z.to_nat thickness) src x y Hx Hy)).
  assert (Hi : (y * width src + x < width src * height src)%nat).
  { replace (width src * height src)%nat with (height src * width src)%nat by lia.
    apply pixel_number_lt; assumption. }
  rewrite (flag_eq1 _ (alpha_mask_flag src _ Hi)).
  rewrite <- !(mask_of_nat (width src) (height src)) by assumption.
  rewrite mask_of_rounds. rewrite mask_of_alpha_mask.
  rewrite (dilation_pointwise _ _ _ _ (binary_mask src) (mask_of_alpha_mask src)).
  reflexivity.
Qed.

Lemma createPixelOutline_size (src : ImageData) (thickness : Z) :
  width (createPixelOutline src thickness) = width src /\
  height (createPixelOutline src thickness) = height src /\
  length (data (createPixelOutline src thickness)) = (4 * width src * height src)%nat.
Proof.
  unfold createPixelOutline. destruct (thickness <=? 0); cbn [width height data newImageData].
  - split; [reflexivity|]. split; [reflexivity|]. apply repeat_length.
  - split; [reflexivity|]. split; [reflexivity|]. apply outline_scan.
Qed.

(** C3. For a thickness of at least 1 the outline band and the original
    opaque region are disjoint: a pixel of the result is opaque black
    (0, 0, 0, 255) exactly when it is set in the [thickness]-round
    8-connected dilation of the alpha > 10 mask and not set in that mask,
    every other pixel is (0, 0, 0, 0), and so no pixel whose input alpha
    exceeds 10 is painted. *)
Theorem outline_band_disjoint (src : ImageData) (thickness : Z) :
  1 <= thickness ->
  let out := createPixelOutline src thickness in
  width out = width src /\ height out = height src /\
  forall x y, (x < width src)%nat -> (y < height src)%nat ->
    let px := rgba (data out) (pix (width src) x y) in
    (px = (0, 0, 0, 255) <-> outline_band src (Z.to_nat thickness) x y = true) /\
    (outline_band src (Z.to_nat thickness) x y = false -> px = (0, 0, 0, 0)) /\
    (10 < alpha_at src x y -> px = (0, 0, 0, 0)).
Proof.
  intros Ht out.
  split; [apply createPixelOutline_size|]. split; [apply createPixelOutline_size|].
  intros x y Hx Hy px. subst px out.
  rewrite (createPixelOutline_pixel src thickness x y Ht Hx Hy).
  split; [|split].
  - destruct (outline_band src (Z.to_nat thickness) x y); split; intros H;
      try reflexivity; discriminate.
  - intros ->. reflexivity.
  - intros Ha. unfold outline_band, binary_mask.
    rewrite in_bounds_of_nat by assumption. rewrite !Nat2Z.id.
    apply Z.ltb_lt in Ha. rewrite Ha. rewrite andb_false_r. reflexivity.
Qed.

Lemma outline_band_disjoint_witness :
  rgba (data (createPixelOutline centre_3x3 1)) (pix 3 1 1) = (0, 0, 0, 0) /\
  (rgba (data (createPixelOutline centre_3x3 1)) (pix 3 2 2) = (0, 0, 0, 255) <->
   outline_band centre_3x3 1 2 2 = true).
Proof.
  pose proof (outline_band_disjoint centre_3x3 1 ltac:(lia)) as (_ & _ & H).
  split.
  - apply (H 1%nat 1%nat); [simpl; lia|simpl; lia|vm_compute; reflexivity].
  - apply (H 2%nat 2%nat); simpl; lia.
Defined.

(** C8. With [thickness = 0] the result has the width and height of the
    input and every byte of it, so every alpha, is 0. *)
Theorem outline_thickness_zero (src : ImageData) :
  width (createPixelOutline src 0) = width src /\
  height (createPixelOutline src 0) = height src /\
  length (data (createPixelOutline src 0)) = (4 * width src * height src)%nat /\
  (forall i, rd (data (createPixelOutline src 0)) i = 0) /\
  (forall x y, alpha_at (createPixelOutline src 0) x y = 0).
Proof.
  assert (E : createPixelOutline src 0 = newImageData (width src) (height src)) by reflexivity.
  rewrite E. cbn [width height data newImageData].
  split; [reflexivity|]. split; [reflexivity|]. split; [apply repeat_length|].
  split; [intros i; apply rd_zeros|]. intros x y. apply rd_zeros.
Qed.

(** C10. When every pixel's alpha exceeds 10 the result is fully
    transparent for every thickness of at least 1: the dilation cannot
    leave the buffer, so no pixel is grown that was not inside, and a
    subject that fills the buffer gets no outline. *)
Theorem outline_full_mask (src : ImageData) (thickness : Z) :
  1 <= thickness ->
  (forall x y, (x < width src)%nat -> (y < height src)%nat -> 10 < alpha_at src x y) ->
  createPixelOutline src thickness = newImageData (width src) (height src) /\
  (forall x y, (x < width src)%nat -> (y < height src)%nat ->
     outline_band src (Z.to_nat thickness) x y = false /\
     rgba (data (createPixelOutline src thickness)) (pix (width src) x y) = (0, 0, 0, 0)).
Proof.
  intros Ht Hfull.
  assert (Hband : forall x y, (x < width src)%nat -> (y < height src)%nat ->
                    outline_band src (Z.to_nat thickness) x y = false).
  { intros x y Hx Hy. unfold outline_band, binary_mask.
    rewrite in_bounds_of_nat by assumption. rewrite !Nat2Z.id.
    pose proof (Hfull x y Hx Hy) as Ha. apply Z.ltb_lt in Ha. rewrite Ha.
    rewrite andb_false_r. reflexivity. }
  assert (Hpx : forall x y, (x < width src)%nat -> (y < height src)%nat ->
                  rgba (data (createPixelOutline src thickness)) (pix (width src) x y)
                  = (0, 0, 0, 0)).
  { intros x y Hx Hy. rewrite (createPixelOutline_pixel src thickness x y Ht Hx Hy).
    rewrite Hband by assumption. reflexivity. }
  split; [|intros x y Hx Hy; split; [apply Hband|apply Hpx]; assumption].
  destruct (createPixelOutline_size src thickness) as (Hw & Hh & Hlen).
  destruct (createPixelOutline src thickness) as [w' h' d'] eqn:E.
  cbn [width height data] in *. subst w' h'. unfold newImageData. f_equal.
  apply (rgba_ext d' (repeat 0 (4 * width src * height src)) (width src) (height src) Hlen).
  - apply repeat_length.
  - intros x y Hx Hy. rewrite Hpx by assumption. unfold rgba. rewrite !rd_zeros. reflexivity.
Qed.

Lemma outline_full_mask_witness :
  createPixelOutline full_2x2 2 = newImageData 2 2.
Proof.
  apply (outline_full_mask full_2x2 2); [lia|].
  simpl. intros x y Hx Hy.
  destruct x as [|[|x]]; [| |lia]; (destruct y as [|[|y]]; [| |lia]);
    vm_compute; reflexivity.
Defined.

(** ** The pipeline *)

Example placement_60 : placement 0.6 64 8 8 = mkPlacement 38 38 13 13.
Proof. vm_compute. reflexivity. Qed.

Example placement_70 : placement 0.7 64 8 8 = mkPlacement 44 44 10 10.
Proof. vm_compute. reflexivity. Qed.

Lemma paint_spec (w h : nat) (f : nat -> nat -> Pixel) :
  length (data (paint w h f)) = (4 * w * h)%nat /\
  forall x y, (x < w)%nat -> (y < h)%nat -> rgba (data (paint w h f)) (pix w x y) = f x y.
Proof.
  unfold paint. cbn [data].
  pose proof (raster_inv (fun n (out : list Z) =>
    length out = (4 * w * h)%nat /\
    forall x y, (x < w)%nat -> (y < h)%nat -> (y * w + x < n)%nat ->
      rgba out (pix w x y) = f x y)
    w h (fun x y out => store4 (pix w x y) (f x y) out) (repeat 0 (4 * w * h))) as H.
  destruct H as (Hlen & Hdone).
  - split; [apply repeat_length|]. intros x y _ _ Hlt. lia.
  - intros x y out Hx Hy [Hlen Hdone].
    split; [rewrite length_store4; exact Hlen|].
    intros x' y' Hx' Hy' Hlt.
    destruct (pixel_number_lt_S _ _ _ _ _ Hx Hx' Hlt) as [Hold|[-> ->]].
    + rewrite rgba_store4_ne by (left; apply pix_apart; assumption).
      apply Hdone; assumption.
    + apply rgba_store4_eq. rewrite Hlen. apply pix_bound; assumption.
  - split; [exact Hlen|]. intros x y Hx Hy. apply Hdone; try assumption.
    apply pixel_number_lt; assumption.
Qed.

Lemma uniform_solid w h px : uniform (solid w h px) px.
Proof. intros x y Hx Hy. apply (proj2 (paint_spec w h (fun _ _ => px))); assumption. Qed.

Lemma uniform_blank w h : uniform (newImageData w h) (0, 0, 0, 0).
Proof. intros x y _ _. unfold rgba. cbn [data newImageData]. rewrite !rd_zeros. reflexivity. Qed.

(** A buffer is determined by its size and its pixels. *)
Lemma uniform_eq_solid (img : ImageData) px :
  length (data img) = (4 * width img * height img)%nat ->
  uniform img px -> img = solid (width img) (height img) px.
Proof.
  intros Hlen Hu. destruct img as [w h d]. unfold uniform in Hu.
  cbn [width height data] in *. unfold solid, paint. f_equal.
  apply (rgba_ext d _ w h Hlen).
  - apply (paint_spec w h (fun _ _ => px)).
  - intros x y Hx Hy. rewrite (Hu x y Hx Hy).
    symmetry. apply (proj2 (paint_spec w h (fun _ _ => px))); assumption.
Qed.

Lemma pick_floor_lt s d i : (0 < s)%nat -> (i < d)%nat -> (pick_floor s d i < s)%nat.
Proof.
  intros Hs Hi. unfold pick_floor. apply Nat.Div0.div_lt_upper_bound.
  apply Nat.mul_lt_mono_pos_r; assumption.
Qed.

Lemma blend_over_opaque r g b dst : blend_over (r, g, b, 255) dst = (r, g, b, 255).
Proof. destruct dst as [[[dr dg] db] da]. reflexivity. Qed.

Lemma blend_over_transparent r g b dst : blend_over (r, g, b, 0) dst = dst.
Proof. destruct dst as [[[dr dg] db] da]. reflexivity. Qed.

Section CanvasFacts.

Variable pick : nat -> nat -> nat -> nat.
Variable blend : Pixel -> Pixel -> Pixel.

(** Nearest-neighbour resampling reads inside the source rectangle. *)
Hypothesis pick_lt : forall s d i, (0 < s)%nat -> (i < d)%nat -> (pick s d i < s)%nat.

(** Source-over: an opaque source pixel replaces the canvas pixel, a fully
    transparent one leaves it. *)
Hypothesis blend_opaque : forall r g b dst, blend (r, g, b, 255) dst = (r, g, b, 255).
Hypothesis blend_transparent : forall r g b dst, blend (r, g, b, 0) dst = dst.

Lemma drawImage_size src sx sy sw sh dx dy dw dh dst :
  width (drawImage pick blend src sx sy sw sh dx dy dw dh dst) = width dst /\
  height (drawImage pick blend src sx sy sw sh dx dy dw dh dst) = height dst /\
  length (data (drawImage pick blend src sx sy sw sh dx dy dw dh dst))
  = (4 * width dst * height dst)%nat.
Proof.
  unfold drawImage. split; [reflexivity|]. split; [reflexivity|]. apply paint_spec.
Qed.

Lemma drawImage_pixel src sx sy sw sh dx dy dw dh dst x y :
  (x < width dst)%nat -> (y < height dst)%nat ->
  rgba (data (drawImage pick blend src sx sy sw sh dx dy dw dh dst)) (pix (width dst) x y)
  = draw_pixel pick blend src sx sy sw sh dx dy dw dh dst x y.
Proof. intros Hx Hy. unfold drawImage. apply paint_spec; assumption. Qed.

(** Drawing a fully transparent buffer changes nothing. *)
Lemma draw_transparent src r g b sx sy sw sh dx dy dw dh dst x y :
  uniform src (r, g, b, 0) ->
  draw_pixel pick blend src sx sy sw sh dx dy dw dh dst x y
  = rgba (data dst) (pix (width dst) x y).
Proof.
  intros Hu. unfold draw_pixel.
  destruct (_ && _ && _ && _); [|reflexivity].
  destruct ((_ <? width src)%nat && (_ <? height src)%nat) eqn:Hin; [|reflexivity].
  apply andb_true_iff in Hin. destruct Hin as [Hu1 Hv1].
  apply Nat.ltb_lt in Hu1, Hv1.
  rewrite (Hu _ _ Hu1 Hv1). apply blend_transparent.
Qed.

(** Drawing an opaque buffer of one colour paints its destination
    rectangle with that colour and leaves the rest of the canvas. *)
Lemma draw_opaque src r g b sx sy sw sh dx dy dw dh dst x y :
  uniform src (r, g, b, 255) ->
  0 <= sx -> 0 <= sy -> 0 < sw -> 0 < sh ->
  sx + sw <= Z.of_nat (width src) -> sy + sh <= Z.of_nat (height src) ->
  draw_pixel pick blend src sx sy sw sh dx dy dw dh dst x y
  = if inside (mkPlacement dw dh dx dy) x y then (r, g, b, 255)
    else rgba (data dst) (pix (width dst) x y).
Proof.
  intros Hu Hsx Hsy Hsw Hsh Hw Hh. unfold draw_pixel, inside. cbn [offsetX offsetY targetW targetH].
  destruct ((dx <=? Z.of_nat x) && (Z.of_nat x <? dx + dw)
            && (dy <=? Z.of_nat y) && (Z.of_nat y <? dy + dh)) eqn:Hrect; [|reflexivity].
  apply andb_true_iff in Hrect. destruct Hrect as [Hrect H4].
  apply andb_true_iff in Hrect. destruct Hrect as [Hrect H3].
  apply andb_true_iff in Hrect. destruct Hrect as [H1 H2].
  apply Z.leb_le in H1, H3. apply Z.ltb_lt in H2, H4.
  assert (Pu : (pick (Z.to_nat sw) (Z.to_nat dw) (Z.to_nat (Z.of_nat x - dx)) < Z.to_nat sw)%nat)
    by (apply pick_lt; lia).
  assert (Pv : (pick (Z.to_nat sh) (Z.to_nat dh) (Z.to_nat (Z.of_nat y - dy)) < Z.to_nat sh)%nat)
    by (apply pick_lt; lia).
  assert (Hu1 : (Z.to_nat sx + pick (Z.to_nat sw) (Z.to_nat dw) (Z.to_nat (Z.of_nat x - dx))
                 < width src)%nat) by lia.
  assert (Hv1 : (Z.to_nat sy + pick (Z.to_nat sh) (Z.to_nat dh) (Z.to_nat (Z.of_nat y - dy))
                 < height src)%nat) by lia.
  rewrite (proj2 (Nat.ltb_lt _ _) Hu1), (proj2 (Nat.ltb_lt _ _) Hv1). cbn [andb].
  rewrite (Hu _ _ Hu1 Hv1). apply blend_opaque.
Qed.

End CanvasFacts.

(** A buffer with every alpha above 16 is its own crop rectangle. *)
Lemma cropBounds_opaque (img : ImageData) :
  (0 < width img)%nat -> (0 < height img)%nat ->
  (forall x y, (x < width img)%nat -> (y < height img)%nat -> 16 < alpha_at img x y) ->
  cropBounds img = mkRect 0 0 (Z.of_nat (width img)) (Z.of_nat (height img)).
Proof.
  intros Hw Hh Hall. unfold cropBounds, getOpaqueBounds.
  assert (Q0 : qualifies img 16 0 0) by (repeat split; auto).
  assert (Q1 : qualifies img 16 (width img - 1) (height img - 1)).
  { split; [lia|]. split; [lia|]. apply Hall; lia. }
  destruct (scanBounds_inv img 16) as [Hin [[_ Hno]|(H1 & H2 & H3 & H4)]].
  { exfalso. exact (Hno _ _ (qualifies_seen _ _ _ _ Q0)). }
  pose proof (Hin _ _ (qualifies_seen _ _ _ _ Q0)) as B0.
  pose proof (Hin _ _ (qualifies_seen _ _ _ _ Q1)) as B1.
  destruct H1 as (x1 & y1 & [(X1 & _ & _) _] & E1).
  destruct H2 as (x2 & y2 & [(X2 & _ & _) _] & E2).
  destruct H3 as (x3 & y3 & [(_ & Y3 & _) _] & E3).
  destruct H4 as (x4 & y4 & [(_ & Y4 & _) _] & E4).
  destruct (Z.ltb_spec (maxX (scanBounds img 16)) (minX (scanBounds img 16))); [lia|].
  destruct (Z.ltb_spec (maxY (scanBounds img 16)) (minY (scanBounds img 16))); [lia|].
  simpl. f_equal; lia.
Qed.

Lemma alpha_uniform (img : ImageData) r g b a x y :
  uniform img (r, g, b, a) -> (x < width img)%nat -> (y < height img)%nat ->
  alpha_at img x y = a.
Proof.
  intros Hu Hx Hy. specialize (Hu x y Hx Hy). unfold rgba in Hu. unfold alpha_at.
  congruence.
Qed.

Lemma cropBounds_red64 : cropBounds red64 = mkRect 0 0 64 64.
Proof.
  apply (cropBounds_opaque red64).
  - change (width red64) with 64%nat. lia.
  - change (height red64) with 64%nat. lia.
  - intros x y Hx Hy.
    rewrite (alpha_uniform red64 255 0 0 255 x y (uniform_solid 64 64 _) Hx Hy). lia.
Qed.

Lemma quantize_red_sprite :
  quantizeImageToPalette (solid 8 8 (255, 0, 0, 255)) (PALETTES pico8) 0
  = Some (solid 8 8 (255, 0, 77, 255)).
Proof. vm_compute. reflexivity. Qed.

Lemma outline_off_sprite :
  createPixelOutline (solid 8 8 (255, 0, 77, 255)) (Z.max 0 (JS.Math_floor 0))
  = newImageData 8 8.
Proof. vm_compute. reflexivity. Qed.

Section Scenario.

Variable pick : nat -> nat -> nat -> nat.
Variable blend : Pixel -> Pixel -> Pixel.
Hypothesis pick_lt : forall s d i, (0 < s)%nat -> (i < d)%nat -> (pick s d i < s)%nat.
Hypothesis blend_opaque : forall r g b dst, blend (r, g, b, 255) dst = (r, g, b, 255).
Hypothesis blend_transparent : forall r g b dst, blend (r, g, b, 0) dst = dst.

(** Stages 1 and 2 on the red square: the crop is the whole image and the
    small canvas is 8 x 8, all red. *)
Lemma small_red64 :
  drawImage pick blend
    (drawImage pick blend red64 0 0 64 64 0 0 64 64 (newImageData 64 64))
    0 0 64 64 0 0 8 8 (newImageData 8 8)
  = solid 8 8 (255, 0, 0, 255).
Proof.
  set (cropCanvas := drawImage pick blend red64 0 0 64 64 0 0 64 64 (newImageData 64 64)).
  assert (Hcrop : uniform cropCanvas (255, 0, 0, 255)).
  { intros x y Hx Hy. subst cropCanvas.
    change (width (drawImage _ _ _ _ _ _ _ _ _ _ _ _)) with (width (newImageData 64 64)) in *.
    change (height (drawImage _ _ _ _ _ _ _ _ _ _ _ _)) with (height (newImageData 64 64)) in *.
    rewrite drawImage_pixel by assumption.
    rewrite (draw_opaque pick blend pick_lt blend_opaque red64 255 0 0);
      [|apply uniform_solid|lia|lia|lia|lia|change (width red64) with 64%nat; lia
       |change (height red64) with 64%nat; lia].
    change (width (newImageData 64 64)) with 64%nat in Hx.
    change (height (newImageData 64 64)) with 64%nat in Hy.
    unfold inside. cbn [offsetX offsetY targetW targetH].
    destruct (Z.leb_spec 0 (Z.of_nat x)); [|lia].
    destruct (Z.ltb_spec (Z.of_nat x) (0 + 64)); [|lia].
    destruct (Z.leb_spec 0 (Z.of_nat y)); [|lia].
    destruct (Z.ltb_spec (Z.of_nat y) (0 + 64)); [|lia]. reflexivity. }
  set (small := drawImage pick blend cropCanvas 0 0 64 64 0 0 8 8 (newImageData 8 8)).
  assert (Hsmall : uniform small (255, 0, 0, 255)).
  { intros x y Hx Hy. subst small.
    change (width (drawImage _ _ _ _ _ _ _ _ _ _ _ _)) with (width (newImageData 8 8)) in *.
    change (height (drawImage _ _ _ _ _ _ _ _ _ _ _ _)) with (height (newImageData 8 8)) in *.
    rewrite drawImage_pixel by assumption.
    rewrite (draw_opaque pick blend pick_lt blend_opaque cropCanvas 255 0 0);
      [|exact Hcrop|lia|lia|lia|lia|change (width cropCanvas) with 64%nat; lia
       |change (height cropCanvas) with 64%nat; lia].
    change (width (newImageData 8 8)) with 8%nat in Hx.
    change (height (newImageData 8 8)) with 8%nat in Hy.
    unfold inside. cbn [offsetX offsetY targetW targetH].
    destruct (Z.leb_spec 0 (Z.of_nat x)); [|lia].
    destruct (Z.ltb_spec (Z.of_nat x) (0 + 8)); [|lia].
    destruct (Z.leb_spec 0 (Z.of_nat y)); [|lia].
    destruct (Z.ltb_spec (Z.of_nat y) (0 + 8)); [|lia]. reflexivity. }
  apply (uniform_eq_solid small (255, 0, 0, 255)); [|exact Hsmall].
  subst small.
  exact (proj2 (proj2 (drawImage_size pick blend cropCanvas 0 0 64 64 0 0 8 8
                         (newImageData 8 8)))).
Qed.

Lemma sprite_red64 :
  sprite pick blend red64 8 scenario_settings = Some (solid 8 8 (255, 0, 77, 255)).
Proof.
  unfold sprite. rewrite cropBounds_red64. cbn [rx ry rw rh].
  change (Z.to_nat (Z.max 1 64)) with 64%nat.
  change (smallSize 64 8) with 8. change (Z.to_nat 8) with 8%nat.
  rewrite small_red64. exact quantize_red_sprite.
Qed.

(** The final canvas of the scenario: 64 x 64, the sprite colour on the
    centred 38 x 38 square at offset 13, the fill colour elsewhere. *)
Lemma pixelate_red64 :
  exists out,
    pixelateImage pick blend red64 8 scenario_settings = Some out /\
    width out = 64%nat /\ height out = 64%nat /\
    forall x y, (x < 64)%nat -> (y < 64)%nat ->
      rgba (data out) (pix 64 x y) =
      if inside (mkPlacement 38 38 13 13) x y then (255, 0, 77, 255)
      else (237, 141, 38, 255).
Proof.
  unfold pixelateImage. rewrite sprite_red64. rewrite cropBounds_red64.
  cbn [rx ry rw rh BACKGROUND_FILL].
  change (smallSize 64 8) with 8. change (outlineThickness scenario_settings) with 0%float.
  rewrite outline_off_sprite.
  replace (placement 0.6 (Z.max 64 64) 8 8) with (mkPlacement 38 38 13 13)
    by (vm_compute; reflexivity).
  cbn [offsetX offsetY targetW targetH]. change (Z.to_nat (Z.max 64 64)) with 64%nat.
  eexists. split; [reflexivity|]. split; [reflexivity|]. split; [reflexivity|].
  intros x y Hx Hy.
  set (filled := solid 64 64 (237, 141, 38, 255)).
  set (withOutline := drawImage pick blend (newImageData 8 8) 0 0 8 8 13 13 38 38 filled).
  assert (Hwo : forall x y, (x < 64)%nat -> (y < 64)%nat ->
            rgba (data withOutline) (pix 64 x y) = (237, 141, 38, 255)).
  { intros x' y' Hx' Hy'. subst withOutline.
    pose proof (drawImage_pixel pick blend (newImageData 8 8) 0 0 8 8 13 13 38 38 filled
                  x' y' Hx' Hy') as E.
    change (width filled) with 64%nat in E. rewrite E.
    rewrite (draw_transparent pick blend blend_transparent (newImageData 8 8) 0 0 0)
      by apply uniform_blank.
    apply (uniform_solid 64 64 (237, 141, 38, 255)); assumption. }
  pose proof (drawImage_pixel pick blend (solid 8 8 (255, 0, 77, 255)) 0 0 8 8 13 13 38 38
                withOutline x y Hx Hy) as E.
  change (width withOutline) with 64%nat in E at 1. rewrite E.
  rewrite (draw_opaque pick blend pick_lt blend_opaque (solid 8 8 (255, 0, 77, 255)) 255 0 77);
    [|apply uniform_solid|lia|lia|lia|lia|change (width (solid 8 8 _)) with 8%nat; lia
     |change (height (solid 8 8 _)) with 8%nat; lia].
  change (width withOutline) with 64%nat. rewrite Hwo by assumption. reflexivity.
Qed.

End Scenario.

Lemma quantize_size src pal ds out :
  quantizeImageToPalette src pal ds = Some out ->
  width out = width src /\ height out = height src.
Proof.
  unfold quantizeImageToPalette. destruct (rasterM _ _ _ _); [|discriminate].
  intros H. injection H as <-. split; reflexivity.
Qed.

(** C6. The sprite is [max(8, floor(w / blockSize))] by
    [max(8, floor(h / blockSize))] pixels for a crop of [w] by [h] and a
    block size of at least 1 (a smaller block size is raised to 1 first),
    so both sides are at least 8 for every block size, and are exactly 8
    when the block size is at least the side. *)
Theorem smallSize_at_least_8 (cropSide blockSize : Z) :
  8 <= smallSize cropSide blockSize /\
  (1 <= blockSize -> smallSize cropSide blockSize = Z.max 8 (cropSide / blockSize)) /\
  (1 <= blockSize -> 0 <= cropSide <= blockSize -> smallSize cropSide blockSize = 8) /\
  (forall pick blend srcImage st out,
     sprite pick blend srcImage blockSize st = Some out ->
     Z.of_nat (width out) = smallSize (rw (cropBounds srcImage)) blockSize /\
     Z.of_nat (height out) = smallSize (rh (cropBounds srcImage)) blockSize).
Proof.
  split; [unfold smallSize; lia|]. split; [|split].
  - intros Hb. unfold smallSize. rewrite (Z.max_r 1) by lia. reflexivity.
  - intros Hb Hc. unfold smallSize. rewrite (Z.max_r 1) by lia.
    destruct (Z.eq_dec cropSide blockSize) as [->|Hne].
    + rewrite Z.div_same by lia. lia.
    + rewrite Z.div_small by lia. lia.
  - intros pick blend srcImage st out H. unfold sprite in H.
    apply quantize_size in H. destruct H as [Hw Hh].
    rewrite Hw, Hh. cbn [width height drawImage paint newImageData].
    unfold smallSize. lia.
Qed.

Lemma smallSize_at_least_8_witness :
  smallSize 64 8 = Z.max 8 (64 / 8) /\ smallSize 5 9 = 8.
Proof.
  split.
  - apply (proj1 (proj2 (smallSize_at_least_8 64 8))). lia.
  - apply (proj1 (proj2 (proj2 (smallSize_at_least_8 5 9)))); lia.
Defined.

(** C5, with the coverage of the source.  On the 64 x 64 opaque red image
    with palette pico8, block size 8, dithering off and outline thickness
    0, the sprite is 8 x 8 with every pixel (255, 0, 77, 255), the entry of
    pico8 nearest to pure red; the result is a 64 x 64 canvas on which the
    sprite covers the centred square of side 38 = floor(64 * 0.6), from 13
    to 50 on both axes, with (255, 0, 77, 255), and every other pixel is
    the fill colour #ed8d26. *)
Theorem scenario_red_square (pick : nat -> nat -> nat -> nat) (blend : Pixel -> Pixel -> Pixel) :
  (forall s d i, (0 < s)%nat -> (i < d)%nat -> (pick s d i < s)%nat) ->
  (forall r g b dst, blend (r, g, b, 255) dst = (r, g, b, 255)) ->
  (forall r g b dst, blend (r, g, b, 0) dst = dst) ->
  findNearestInPalette (JS.num 255) (JS.num 0) (JS.num 0) (PALETTES pico8)
    = Some (255, 0, 77) /\
  sprite pick blend red64 8 scenario_settings = Some (solid 8 8 (255, 0, 77, 255)) /\
  uniform (solid 8 8 (255, 0, 77, 255)) (255, 0, 77, 255) /\
  placement 0.6 64 8 8 = mkPlacement 38 38 13 13 /\
  exists out,
    pixelateImage pick blend red64 8 scenario_settings = Some out /\
    width out = 64%nat /\ height out = 64%nat /\
    forall x y, (x < 64)%nat -> (y < 64)%nat ->
      rgba (data out) (pix 64 x y) =
      if (13 <=? Z.of_nat x) && (Z.of_nat x <? 51) && (13 <=? Z.of_nat y) && (Z.of_nat y <? 51)
      then (255, 0, 77, 255)
      else (237, 141, 38, 255).
Proof.
  intros Hpick Hop Htr.
  split; [vm_compute; reflexivity|].
  split; [apply sprite_red64; assumption|].
  split; [apply uniform_solid|].
  split; [vm_compute; reflexivity|].
  exact (pixelate_red64 pick blend Hpick Hop Htr).
Qed.

Lemma scenario_red_square_witness :
  sprite pick_floor blend_over red64 8 scenario_settings = Some (solid 8 8 (255, 0, 77, 255)).
Proof.
  exact (proj1 (proj2 (scenario_red_square pick_floor blend_over
                         pick_floor_lt blend_over_opaque blend_over_transparent))).
Defined.

(** The scenario as worded, with a sprite region of 70 % of the side
    (44 pixels from offset 10), does not hold: pixel (10, 10) lies in that
    region and carries the fill colour. *)
Lemma scenario_70_percent_fails :
  placement 0.7 64 8 8 = mkPlacement 44 44 10 10 /\
  ~ (exists out,
       pixelateImage pick_floor blend_over red64 8 scenario_settings = Some out /\
       forall x y, (x < 64)%nat -> (y < 64)%nat ->
         inside (placement 0.7 64 8 8) x y = true ->
         rgba (data out) (pix 64 x y) = (255, 0, 77, 255)).
Proof.
  split; [vm_compute; reflexivity|].
  intros (out & E & Hall).
  destruct (pixelate_red64 pick_floor blend_over
              pick_floor_lt blend_over_opaque blend_over_transparent)
    as (out' & E' & _ & _ & Hpx).
  rewrite E in E'. injection E' as <-.
  specialize (Hall 10%nat 10%nat ltac:(lia) ltac:(lia) ltac:(vm_compute; reflexivity)).
  rewrite (Hpx 10%nat 10%nat) in Hall by lia.
  discriminate Hall.
Qed.

(** ** normalizeImageBlob *)

Example normalize_1000x500 :
  normalizeImageBlob (Z * Z) id size_only_resample (1000, 500) 512 = (512, 256).
Proof. reflexivity. Qed.

Example normalize_small :
  normalizeImageBlob (Z * Z) id size_only_resample (300, 200) 512 = (300, 200).
Proof. reflexivity. Qed.







(** * Further properties *)

(** ** The order of doubles

    [<] and [<=] on doubles, read through the library's specification of
    the primitive comparisons: a lexicographic order on sign, exponent and
    mantissa in which NaN compares with nothing. *)

Ltac sf_signs :=
  repeat match goal with
         | s : bool |- _ => destruct s
         end;
  simpl in *; try discriminate; try reflexivity.

Ltac sf_compare :=
  change (Pos.compare_cont Eq) with Pos.compare in *;
  repeat match goal with
         | H : context [Z.compare ?x ?y] |- _ =>
             destruct (Z.compare_spec x y); try discriminate
         | |- context [Z.compare ?x ?y] =>
             destruct (Z.compare_spec x y); try discriminate
         | H : context [Pos.compare ?x ?y] |- _ =>
             destruct (Pos.compare_spec x y); simpl in H; try discriminate
         | |- context [Pos.compare ?x ?y] =>
             destruct (Pos.compare_spec x y); simpl; try discriminate
         end;
  subst; try reflexivity; try lia.

Lemma SFltb_trans a b c : SFltb a b = true -> SFltb b c = true -> SFltb a c = true.
Proof.
  unfold SFltb, SFcompare.
  destruct a as [sa|sa| |sa ma ea], b as [sb|sb| |sb mb eb], c as [sc|sc| |sc mc ec];
    sf_signs; intros H1 H2; sf_compare.
Qed.

Lemma SFleb_ltb_trans a b c : SFleb a b = true -> SFltb b c = true -> SFltb a c = true.
Proof.
  unfold SFleb, SFltb, SFcompare.
  destruct a as [sa|sa| |sa ma ea], b as [sb|sb| |sb mb eb], c as [sc|sc| |sc mc ec];
    sf_signs; intros H1 H2; sf_compare.
Qed.

Lemma SFltb_irrefl a : SFltb a a = false.
Proof.
  unfold SFltb, SFcompare. destruct a as [sa|sa| |sa ma ea]; sf_signs.
  - rewrite Z.compare_refl. change (Pos.compare_cont Eq) with Pos.compare.
    rewrite Pos.compare_refl. reflexivity.
  - rewrite Z.compare_refl. change (Pos.compare_cont Eq) with Pos.compare.
    rewrite Pos.compare_refl. reflexivity.
Qed.

Lemma SFltb_below_infinity a c :
  SFltb a (S754_infinity false) = false -> SFltb c (S754_infinity false) = false ->
  SFltb c a = false.
Proof.
  unfold SFltb, SFcompare.
  destruct a as [sa|sa| |sa ma ea], c as [sc|sc| |sc mc ec]; sf_signs.
Qed.

(** Two doubles that are not NaN are comparable. *)
Lemma SFleb_total a b :
  SFeqb a a = true -> SFeqb b b = true -> SFltb a b = false -> SFleb b a = true.
Proof.
  unfold SFeqb, SFleb, SFltb, SFcompare.
  destruct a as [sa|sa| |sa ma ea], b as [sb|sb| |sb mb eb];
    sf_signs; intros H1 H2 H3; sf_compare.
Qed.

Lemma ltb_trans a b c :
  PrimFloat.ltb a b = true -> PrimFloat.ltb b c = true -> PrimFloat.ltb a c = true.
Proof. rewrite !FloatAxioms.ltb_spec. apply SFltb_trans. Qed.

Lemma leb_ltb_trans a b c :
  PrimFloat.leb a b = true -> PrimFloat.ltb b c = true -> PrimFloat.ltb a c = true.
Proof. rewrite FloatAxioms.leb_spec, !FloatAxioms.ltb_spec. apply SFleb_ltb_trans. Qed.

Lemma ltb_irrefl a : PrimFloat.ltb a a = false.
Proof. rewrite FloatAxioms.ltb_spec. apply SFltb_irrefl. Qed.

Lemma ltb_below_infinity a c :
  PrimFloat.ltb a PrimFloat.infinity = false -> PrimFloat.ltb c PrimFloat.infinity = false ->
  PrimFloat.ltb c a = false.
Proof.
  rewrite !FloatAxioms.ltb_spec.
  replace (Prim2SF PrimFloat.infinity) with (S754_infinity false) by (vm_compute; reflexivity).
  apply SFltb_below_infinity.
Qed.

Lemma leb_total a b :
  PrimFloat.is_nan a = false -> PrimFloat.is_nan b = false ->
  PrimFloat.ltb a b = false -> PrimFloat.leb b a = true.
Proof.
  unfold PrimFloat.is_nan. rewrite !negb_false_iff, !FloatAxioms.eqb_spec, FloatAxioms.ltb_spec, FloatAxioms.leb_spec.
  apply SFleb_total.
Qed.

(** If [d < B] and nothing of a kind is below [B], nothing of that kind is
    below [d], nor at most [d]. *)
Lemma ltb_lower a d B :
  PrimFloat.ltb d B = true -> PrimFloat.ltb a B = false -> PrimFloat.ltb a d = false.
Proof.
  intros HdB HaB. destruct (PrimFloat.ltb a d) eqn:E; [|reflexivity].
  rewrite (ltb_trans a d B E HdB) in HaB. discriminate.
Qed.

Lemma leb_lower a d B :
  PrimFloat.ltb d B = true -> PrimFloat.ltb a B = false -> PrimFloat.leb a d = false.
Proof.
  intros HdB HaB. destruct (PrimFloat.leb a d) eqn:E; [|reflexivity].
  rewrite (leb_ltb_trans a d B E HdB) in HaB. discriminate.
Qed.

(** ** findNearestInPalette *)

(** State of the search after [i] entries: nothing seen is below [bestD],
    and [bestD] is either still [Infinity] or the distance of entry
    [bestIdx], which no earlier entry reaches. *)
Lemma nearest_loop_inv r g b (palette : Palette) (i : nat) :
  (i <= length palette)%nat ->
  let st := for_loop i (nearest_step r g b palette) (O, PrimFloat.infinity) in
  (forall j p, (j < i)%nat -> palette !! j = Some p ->
     PrimFloat.ltb (weighted_distance r g b p) (snd st) = false) /\
  ((fst st = O /\ snd st = PrimFloat.infinity) \/
   ((fst st < i)%nat /\
    exists q, palette !! fst st = Some q /\ snd st = weighted_distance r g b q /\
      forall j p, (j < fst st)%nat -> palette !! j = Some p ->
        PrimFloat.leb (weighted_distance r g b p) (weighted_distance r g b q) = false)).
Proof.
  induction i as [|i IH]; intros Hi st; subst st.
  - simpl. split; [intros j p Hj; lia|]. left. split; reflexivity.
  - destruct IH as [Hlow Hbest]; [lia|].
    cbn [for_loop]. set (st := for_loop i (nearest_step r g b palette) (O, PrimFloat.infinity)) in *.
    unfold nearest_step.
    destruct (lookup_lt_is_Some_2 palette i ltac:(lia)) as [p Ep]. rewrite Ep.
    destruct (PrimFloat.ltb (weighted_distance r g b p) (snd st)) eqn:Hlt; cbn [fst snd].
    + split.
      * intros j p' Hj Ej. destruct (Nat.eq_dec j i) as [->|Hne].
        -- rewrite Ep in Ej. injection Ej as <-. apply ltb_irrefl.
        -- apply (ltb_lower _ _ (snd st) Hlt). apply (Hlow j); [lia|exact Ej].
      * right. split; [lia|]. exists p. split; [exact Ep|]. split; [reflexivity|].
        intros j p' Hj Ej. apply (leb_lower _ _ (snd st) Hlt). apply (Hlow j); assumption.
    + split.
      * intros j p' Hj Ej. destruct (Nat.eq_dec j i) as [->|Hne].
        -- rewrite Ep in Ej. injection Ej as <-. exact Hlt.
        -- apply (Hlow j); [lia|exact Ej].
      * destruct Hbest as [Hinit|(Hk & q & Eq & Ed & Hfirst)]; [left; exact Hinit|].
        right. split; [lia|]. exists q. auto.
Qed.

(** X1. The palette search returns an entry at minimal distance: no entry
    of the palette is strictly nearer to the colour than the one returned,
    and no entry before it is as near.  This holds for every colour, with
    the comparisons of doubles as JavaScript makes them. *)
Theorem findNearestInPalette_nearest r g b (palette : Palette) q :
  findNearestInPalette r g b palette = Some q ->
  exists k, palette !! k = Some q /\
    (forall j p, palette !! j = Some p ->
       PrimFloat.ltb (weighted_distance r g b p) (weighted_distance r g b q) = false) /\
    (forall j p, (j < k)%nat -> palette !! j = Some p ->
       PrimFloat.leb (weighted_distance r g b p) (weighted_distance r g b q) = false).
Proof.
  unfold findNearestInPalette. intros Hq.
  destruct (nearest_loop_inv r g b palette (length palette) (Nat.le_refl _)) as [Hlow Hbest].
  set (st := for_loop (length palette) (nearest_step r g b palette) (O, PrimFloat.infinity)) in *.
  exists (fst st). split; [exact Hq|].
  destruct Hbest as [[Hk HB]|(Hk & q' & Eq' & Ed & Hfirst)].
  - split.
    + intros j p Ej. rewrite HB in Hlow.
      assert (Hj : (j < length palette)%nat) by (apply lookup_lt_Some in Ej; exact Ej).
      assert (H0 : (fst st < length palette)%nat) by (apply lookup_lt_Some in Hq; exact Hq).
      apply ltb_below_infinity.
      * apply (Hlow (fst st)); assumption.
      * apply (Hlow j); assumption.
    + intros j p Hj. rewrite Hk in Hj. lia.
  - rewrite Hq in Eq'. injection Eq' as <-. split.
    + intros j p Ej. rewrite <- Ed. apply (Hlow j); [|exact Ej].
      apply lookup_lt_Some in Ej. exact Ej.
    + exact Hfirst.
Qed.

Lemma findNearestInPalette_nearest_witness :
  findNearestInPalette (JS.num 255) (JS.num 0) (JS.num 0) (PALETTES pico8) = Some (255, 0, 77) /\
  PrimFloat.ltb (weighted_distance (JS.num 255) (JS.num 0) (JS.num 0) (255, 163, 0))
                (weighted_distance (JS.num 255) (JS.num 0) (JS.num 0) (255, 0, 77)) = false.
Proof.
  split; [vm_compute; reflexivity|].
  destruct (findNearestInPalette_nearest (JS.num 255) (JS.num 0) (JS.num 0)
              (PALETTES pico8) (255, 0, 77)) as (k & _ & Hmin & _).
  - vm_compute. reflexivity.
  - apply (Hmin 9%nat). vm_compute. reflexivity.
Defined.

(** ** The outline band as a distance *)

Lemma in_bounds_iff w h x y :
  in_bounds w h x y = true <-> (0 <= x < Z.of_nat w /\ 0 <= y < Z.of_nat h).
Proof.
  unfold in_bounds. rewrite !andb_true_iff, !Z.leb_le, !Z.ltb_lt. lia.
Qed.

Lemma neighbours8_iff dx dy :
  In (dx, dy) neighbours8 <-> (-1 <= dx <= 1 /\ -1 <= dy <= 1 /\ (dx <> 0 \/ dy <> 0)).
Proof.
  unfold neighbours8. simpl. split.
  - intros H. repeat (destruct H as [H|H]; [injection H as <- <-; lia|]). destruct H.
  - intros (Hx & Hy & Hne).
    assert (Cx : dx = -1 \/ dx = 0 \/ dx = 1) by lia.
    assert (Cy : dy = -1 \/ dy = 0 \/ dy = 1) by lia.
    destruct Cx as [->|[->| ->]], Cy as [->|[->| ->]]; try lia; tauto.
Qed.

(** One round of dilation reaches the set pixels at distance at most 1. *)
Lemma dilate8_iff w h (m : Mask) x y :
  dilate8 w h m x y = true <->
  in_bounds w h x y = true /\
  exists x' y', in_bounds w h x' y' = true /\ m x' y' = true /\ chebyshev x y x' y' <= 1.
Proof.
  unfold dilate8, chebyshev. rewrite andb_true_iff, orb_true_iff, existsb_exists. split.
  - intros [Hin [Hm|([dx dy] & Hd & Hn)]]; (split; [exact Hin|]).
    + exists x, y. split; [exact Hin|]. split; [exact Hm|]. lia.
    + cbn [fst snd] in Hn. apply andb_true_iff in Hn. destruct Hn as [Hb Hm].
      apply neighbours8_iff in Hd.
      exists (x + dx), (y + dy). split; [exact Hb|]. split; [exact Hm|]. lia.
  - intros [Hin (x' & y' & Hb & Hm & Hd)]. split; [exact Hin|].
    destruct (Z.eq_dec x' x) as [->|Hx]; [destruct (Z.eq_dec y' y) as [->|Hy]|].
    + left. exact Hm.
    + right. exists (0, y' - y). split; [apply neighbours8_iff; lia|]. cbn [fst snd].
      replace (x + 0) with x by lia. replace (y + (y' - y)) with y' by lia.
      rewrite Hb, Hm. reflexivity.
    + right. exists (x' - x, y' - y). split; [apply neighbours8_iff; lia|]. cbn [fst snd].
      replace (x + (x' - x)) with x' by lia. replace (y + (y' - y)) with y' by lia.
      rewrite Hb, Hm. reflexivity.
Qed.

(** [n] rounds reach the set pixels at distance at most [n]: a path of
    single steps between two pixels of the buffer stays in the buffer. *)
Lemma dilation_iff n w h (m : Mask) :
  (forall x y, m x y = true -> in_bounds w h x y = true) ->
  forall x y,
    dilation n w h m x y = true <->
    in_bounds w h x y = true /\
    exists x' y', m x' y' = true /\ chebyshev x y x' y' <= Z.of_nat n.
Proof.
  intros Hm. induction n as [|n IH]; intros x y.
  - cbn [dilation]. split.
    + intros H. split; [apply Hm, H|]. exists x, y. split; [exact H|].
      unfold chebyshev. lia.
    + intros [_ (x' & y' & H & Hd)]. unfold chebyshev in Hd.
      replace x with x' by lia. replace y with y' by lia. exact H.
  - cbn [dilation]. rewrite dilate8_iff. split.
    + intros [Hin (x1 & y1 & Hb1 & H1 & Hd1)]. split; [exact Hin|].
      apply IH in H1. destruct H1 as [_ (x' & y' & H & Hd)].
      exists x', y'. split; [exact H|]. unfold chebyshev in *. lia.
    + intros [Hin (x' & y' & H & Hd)]. split; [exact Hin|].
      pose proof (Hm _ _ H) as Hb'.
      apply in_bounds_iff in Hin. apply in_bounds_iff in Hb'.
      exists (step_towards x x'), (step_towards y y').
      unfold step_towards, chebyshev in *.
      destruct (Z.ltb_spec x x'), (Z.ltb_spec x' x), (Z.ltb_spec y y'), (Z.ltb_spec y' y);
        try lia.
      all: split; [apply in_bounds_iff; lia|].
      all: split; [|lia].
      all: apply IH; (split; [apply in_bounds_iff; lia|]).
      all: exists x', y'; (split; [exact H|unfold chebyshev; lia]).
Qed.

Lemma binary_mask_in_bounds (src : ImageData) x y :
  binary_mask src x y = true -> in_bounds (width src) (height src) x y = true.
Proof. unfold binary_mask. intros H. apply andb_true_iff in H. tauto. Qed.

Lemma binary_mask_nat (src : ImageData) x y :
  (x < width src)%nat -> (y < height src)%nat ->
  binary_mask src (Z.of_nat x) (Z.of_nat y) = (10 <? alpha_at src x y).
Proof.
  intros Hx Hy. unfold binary_mask. rewrite in_bounds_of_nat by assumption.
  rewrite !Nat2Z.id. reflexivity.
Qed.

(** The band in closed form. *)
Lemma outline_band_iff (src : ImageData) (rounds x y : nat) :
  (x < width src)%nat -> (y < height src)%nat ->
  outline_band src rounds x y = true <->
  alpha_at src x y <= 10 /\
  exists x' y', (x' < width src)%nat /\ (y' < height src)%nat /\ 10 < alpha_at src x' y' /\
    chebyshev (Z.of_nat x) (Z.of_nat y) (Z.of_nat x') (Z.of_nat y') <= Z.of_nat rounds.
Proof.
  intros Hx Hy. unfold outline_band.
  rewrite andb_true_iff, negb_true_iff, binary_mask_nat by assumption.
  rewrite (dilation_iff rounds _ _ _ (binary_mask_in_bounds src)).
  rewrite Z.ltb_ge. split.
  - intros [[_ (x' & y' & Hm & Hd)] Ha]. split; [exact Ha|].
    destruct (in_bounds_nat _ _ _ _ (binary_mask_in_bounds _ _ _ Hm))
      as (x1 & y1 & -> & -> & Hx1 & Hy1 & _).
    rewrite binary_mask_nat in Hm by assumption. apply Z.ltb_lt in Hm.
    exists x1, y1. auto.
  - intros [Ha (x' & y' & Hx' & Hy' & Ha' & Hd)]. split; [|exact Ha].
    split; [apply in_bounds_of_nat; assumption|].
    exists (Z.of_nat x'), (Z.of_nat y'). split; [|exact Hd].
    rewrite binary_mask_nat by assumption. apply Z.ltb_lt. exact Ha'.
Qed.

(** X2. For a thickness of at least 1, [createPixelOutline] paints a pixel
    opaque black exactly when its own alpha is at most 10 and some pixel
    with alpha above 10 lies within [thickness] pixels of it in 8-connected
    (Chebyshev) distance; the clipping at the buffer edge never shortens
    the reach inside the buffer. *)
Theorem outline_within_distance (src : ImageData) (thickness : Z) (x y : nat) :
  1 <= thickness -> (x < width src)%nat -> (y < height src)%nat ->
  rgba (data (createPixelOutline src thickness)) (pix (width src) x y) = (0, 0, 0, 255) <->
  alpha_at src x y <= 10 /\
  exists x' y', (x' < width src)%nat /\ (y' < height src)%nat /\ 10 < alpha_at src x' y' /\
    chebyshev (Z.of_nat x) (Z.of_nat y) (Z.of_nat x') (Z.of_nat y') <= thickness.
Proof.
  intros Ht Hx Hy. rewrite (createPixelOutline_pixel src thickness x y Ht Hx Hy).
  pose proof (outline_band_iff src (Z.to_nat thickness) x y Hx Hy) as Hiff.
  rewrite Z2Nat.id in Hiff by lia.
  destruct (outline_band src (Z.to_nat thickness) x y).
  - split; [intros _; apply Hiff; reflexivity|reflexivity].
  - split; [discriminate|]. intros H. apply Hiff in H. discriminate.
Qed.

Lemma outline_within_distance_witness :
  rgba (data (createPixelOutline centre_3x3 1)) (pix 3 0 2) = (0, 0, 0, 255).
Proof.
  apply (outline_within_distance centre_3x3 1 0 2); [lia|simpl; lia|simpl; lia|].
  split; [vm_compute; discriminate|].
  exists 1%nat, 1%nat. split; [simpl; lia|]. split; [simpl; lia|].
  split; [vm_compute; reflexivity|vm_compute; discriminate].
Defined.

Lemma image_ext (a b : ImageData) :
  width a = width b -> height a = height b ->
  length (data a) = (4 * width a * height a)%nat ->
  length (data b) = (4 * width a * height a)%nat ->
  (forall x y, (x < width a)%nat -> (y < height a)%nat ->
     rgba (data a) (pix (width a) x y) = rgba (data b) (pix (width a) x y)) ->
  a = b.
Proof.
  destruct a as [wa ha da], b as [wb hb db]. cbn [width height data].
  intros <- <- Ha Hb Hpx. f_equal. exact (rgba_ext da db wa ha Ha Hb Hpx).
Qed.

Lemma createPixelOutline_off (src : ImageData) (thickness : Z) :
  thickness <= 0 -> createPixelOutline src thickness = newImageData (width src) (height src).
Proof.
  intros Ht. unfold createPixelOutline.
  destruct (Z.leb_spec thickness 0); [reflexivity|lia].
Qed.

Lemma createPixelOutline_ext (src1 src2 : ImageData) (thickness : Z) :
  1 <= thickness ->
  width src1 = width src2 -> height src1 = height src2 ->
  (forall x y, (x < width src1)%nat -> (y < height src1)%nat ->
     outline_band src1 (Z.to_nat thickness) x y = outline_band src2 (Z.to_nat thickness) x y) ->
  createPixelOutline src1 thickness = createPixelOutline src2 thickness.
Proof.
  intros Ht Hw Hh Hband.
  destruct (createPixelOutline_size src1 thickness) as (W1 & H1 & L1).
  destruct (createPixelOutline_size src2 thickness) as (W2 & H2 & L2).
  apply image_ext.
  - congruence.
  - congruence.
  - rewrite W1, H1. exact L1.
  - rewrite W1, H1, Hw, Hh. exact L2.
  - rewrite W1, H1. intros x y Hx Hy.
    rewrite (createPixelOutline_pixel src1 thickness x y Ht Hx Hy).
    rewrite Hw. rewrite (createPixelOutline_pixel src2 thickness x y Ht) by congruence.
    rewrite Hband by assumption. reflexivity.
Qed.

(** X3. The outline depends on the input only through the test
    [alpha > 10]: two buffers of the same size that agree on it give the
    same outline, for every thickness, whatever their colours. *)
Theorem outline_alpha_only (src1 src2 : ImageData) (thickness : Z) :
  width src1 = width src2 -> height src1 = height src2 ->
  (forall x y, (x < width src1)%nat -> (y < height src1)%nat ->
     (10 < alpha_at src1 x y <-> 10 < alpha_at src2 x y)) ->
  createPixelOutline src1 thickness = createPixelOutline src2 thickness.
Proof.
  intros Hw Hh Hsame.
  destruct (Z.le_gt_cases thickness 0) as [Hle|Hgt].
  - rewrite !createPixelOutline_off by exact Hle. congruence.
  - apply createPixelOutline_ext; [lia|exact Hw|exact Hh|].
    intros x y Hx Hy. apply eq_true_iff_eq.
    rewrite (outline_band_iff src1 _ x y Hx Hy).
    rewrite (outline_band_iff src2 _ x y) by congruence.
    rewrite <- Hw, <- Hh. split.
    + intros [Ha (x' & y' & Hx' & Hy' & Ha' & Hd)]. split.
      * pose proof (Hsame x y Hx Hy). lia.
      * exists x', y'. repeat split; try assumption. apply (Hsame x' y' Hx' Hy'). exact Ha'.
    + intros [Ha (x' & y' & Hx' & Hy' & Ha' & Hd)]. split.
      * pose proof (Hsame x y Hx Hy). lia.
      * exists x', y'. repeat split; try assumption. apply (Hsame x' y' Hx' Hy'). exact Ha'.
Qed.

Lemma outline_alpha_only_witness :
  createPixelOutline centre_3x3 2 =
  createPixelOutline
    (mkImageData 3 3 [9;9;9;1; 0;0;0;0; 0;0;0;0;
                      0;0;0;0; 1;2;3;11; 0;0;0;0;
                      0;0;0;0; 0;0;0;0; 5;5;5;3]) 2.
Proof.
  apply outline_alpha_only; [reflexivity|reflexivity|].
  simpl. intros x y Hx Hy.
  destruct x as [|[|[|x]]]; [| | |lia]; (destruct y as [|[|[|y]]]; [| | |lia]);
    vm_compute; split; intros H; try exact H; try discriminate H; reflexivity.
Defined.

(** X4. The outline grows with the thickness: a pixel painted at one
    thickness is painted at every larger one, and once the thickness
    reaches the larger side of the buffer minus one, every pixel with alpha
    at most 10 is painted as soon as one pixel has alpha above 10. *)
Theorem outline_grows (src : ImageData) (t t' : Z) (x y : nat) :
  1 <= t -> t <= t' -> (x < width src)%nat -> (y < height src)%nat ->
  (rgba (data (createPixelOutline src t)) (pix (width src) x y) = (0, 0, 0, 255) ->
   rgba (data (createPixelOutline src t')) (pix (width src) x y) = (0, 0, 0, 255)) /\
  (Z.max (Z.of_nat (width src)) (Z.of_nat (height src)) - 1 <= t ->
   alpha_at src x y <= 10 ->
   (exists x' y', (x' < width src)%nat /\ (y' < height src)%nat /\ 10 < alpha_at src x' y') ->
   rgba (data (createPixelOutline src t)) (pix (width src) x y) = (0, 0, 0, 255)).
Proof.
  intros Ht Htt Hx Hy.
  rewrite (createPixelOutline_pixel src t x y Ht Hx Hy).
  rewrite (createPixelOutline_pixel src t' x y ltac:(lia) Hx Hy).
  pose proof (outline_band_iff src (Z.to_nat t) x y Hx Hy) as Hb.
  pose proof (outline_band_iff src (Z.to_nat t') x y Hx Hy) as Hb'.
  rewrite Z2Nat.id in Hb by lia. rewrite Z2Nat.id in Hb' by lia.
  split.
  - destruct (outline_band src (Z.to_nat t) x y); [intros _|discriminate].
    destruct (proj1 Hb eq_refl) as [Ha (x' & y' & Hx' & Hy' & Ha' & Hd)].
    rewrite (proj2 Hb'); [reflexivity|].
    split; [exact Ha|]. exists x', y'. repeat split; try assumption. lia.
  - intros Hbig Ha (x' & y' & Hx' & Hy' & Ha').
    rewrite (proj2 Hb); [reflexivity|].
    split; [exact Ha|]. exists x', y'. repeat split; try assumption.
    unfold chebyshev. lia.
Qed.

Lemma outline_grows_witness :
  rgba (data (createPixelOutline centre_3x3 5)) (pix 3 0 0) = (0, 0, 0, 255).
Proof.
  apply (proj1 (outline_grows centre_3x3 1 5 0 0 ltac:(lia) ltac:(lia)
                  ltac:(simpl; lia) ltac:(simpl; lia))).
  vm_compute. reflexivity.
Defined.

(** X5. Without a subject there is no outline: when no pixel has alpha
    above 10 the result is fully transparent for every thickness. *)
Theorem outline_no_subject (src : ImageData) (thickness : Z) :
  (forall x y, (x < width src)%nat -> (y < height src)%nat -> alpha_at src x y <= 10) ->
  createPixelOutline src thickness = newImageData (width src) (height src).
Proof.
  intros Hnone.
  destruct (Z.le_gt_cases thickness 0) as [Hle|Hgt];
    [apply createPixelOutline_off; exact Hle|].
  destruct (createPixelOutline_size src thickness) as (W & H & L).
  apply image_ext.
  - exact W.
  - exact H.
  - rewrite W, H. exact L.
  - rewrite W, H. apply repeat_length.
  - rewrite W, H. intros x y Hx Hy.
    rewrite (createPixelOutline_pixel src thickness x y ltac:(lia) Hx Hy).
    destruct (outline_band src (Z.to_nat thickness) x y) eqn:E.
    + apply (outline_band_iff src _ x y Hx Hy) in E.
      destruct E as [_ (x' & y' & Hx' & Hy' & Ha' & _)].
      specialize (Hnone x' y' Hx' Hy'). lia.
    + unfold rgba. cbn [data newImageData]. rewrite !rd_zeros. reflexivity.
Qed.

Lemma outline_no_subject_witness :
  createPixelOutline (mkImageData 2 2 [1;2;3;0; 4;5;6;10; 0;0;0;3; 0;0;0;9]) 3
  = newImageData 2 2.
Proof.
  apply (outline_no_subject (mkImageData 2 2 [1;2;3;0; 4;5;6;10; 0;0;0;3; 0;0;0;9]) 3).
  simpl. intros x y Hx Hy.
  destruct x as [|[|x]]; [| |lia]; (destruct y as [|[|y]]; [| |lia]);
    vm_compute; discriminate.
Defined.

(** ** More on getOpaqueBounds *)

(** What a returned rectangle is, and when one is returned. *)
Lemma getOpaqueBounds_Some_inv (image : ImageData) (alphaThreshold : Z) (r : Rect) :
  getOpaqueBounds image alphaThreshold = Some r ->
  (forall x y, qualifies image alphaThreshold x y ->
     rx r <= Z.of_nat x < rx r + rw r /\ ry r <= Z.of_nat y < ry r + rh r) /\
  (exists x y, qualifies image alphaThreshold x y /\ Z.of_nat x = rx r) /\
  (exists x y, qualifies image alphaThreshold x y /\ Z.of_nat x = rx r + rw r - 1) /\
  (exists x y, qualifies image alphaThreshold x y /\ Z.of_nat y = ry r) /\
  (exists x y, qualifies image alphaThreshold x y /\ Z.of_nat y = ry r + rh r - 1).
Proof.
  intros Hsome.
  destruct (getOpaqueBounds_scan _ _ _ Hsome) as (HX & HY & ->). simpl.
  destruct (scanBounds_inv image alphaThreshold) as [Hin [[E _]|(H1 & H2 & H3 & H4)]].
  { exfalso. rewrite E in HX. simpl in HX. lia. }
  destruct H1 as (x1 & y1 & [Q1 _] & E1). destruct H2 as (x2 & y2 & [Q2 _] & E2).
  destruct H3 as (x3 & y3 & [Q3 _] & E3). destruct H4 as (x4 & y4 & [Q4 _] & E4).
  split.
  - intros x y Hq. specialize (Hin x y (qualifies_seen _ _ _ _ Hq)). lia.
  - repeat split.
    + exists x1, y1. split; [exact Q1|lia].
    + exists x2, y2. split; [exact Q2|lia].
    + exists x3, y3. split; [exact Q3|lia].
    + exists x4, y4. split; [exact Q4|lia].
Qed.

Lemma getOpaqueBounds_None_iff (image : ImageData) (alphaThreshold : Z) :
  getOpaqueBounds image alphaThreshold = None <->
  forall x y, ~ qualifies image alphaThreshold x y.
Proof.
  split.
  - intros Hnone x y Hq. unfold getOpaqueBounds in Hnone.
    destruct (scanBounds_inv image alphaThreshold) as [Hin _].
    pose proof (Hin x y (qualifies_seen _ _ _ _ Hq)) as B.
    destruct (Z.ltb_spec (maxX (scanBounds image alphaThreshold))
                         (minX (scanBounds image alphaThreshold))); [lia|].
    destruct (Z.ltb_spec (maxY (scanBounds image alphaThreshold))
                         (minY (scanBounds image alphaThreshold))); [lia|].
    discriminate Hnone.
  - intros Hno. unfold getOpaqueBounds.
    destruct (scanBounds_inv image alphaThreshold) as [_ [[-> _]|[(x & y & [Hq _] & _) _]]].
    + simpl. destruct (Z.ltb_spec (-1) (Z.of_nat (width image))); [reflexivity|lia].
    + exfalso. exact (Hno x y Hq).
Qed.

(** X6. Raising the threshold can only shrink the bounds: if a rectangle
    is returned at a threshold, one is returned at every lower threshold,
    and it contains the first. *)
Theorem getOpaqueBounds_threshold_monotone (image : ImageData) (low high : Z) (r : Rect) :
  wf_image image -> low <= high ->
  getOpaqueBounds image high = Some r ->
  exists r', getOpaqueBounds image low = Some r' /\
    rx r' <= rx r /\ ry r' <= ry r /\
    rx r + rw r <= rx r' + rw r' /\ ry r + rh r <= ry r' + rh r'.
Proof.
  intros _ Hle Hhigh.
  destruct (getOpaqueBounds_Some_inv _ _ _ Hhigh) as (_ & H1 & H2 & H3 & H4).
  assert (Hweak : forall x y, qualifies image high x y -> qualifies image low x y).
  { intros x y (Hx & Hy & Ha). repeat split; try assumption. lia. }
  destruct (getOpaqueBounds image low) as [r'|] eqn:Elow.
  - exists r'. split; [reflexivity|].
    destruct (getOpaqueBounds_Some_inv _ _ _ Elow) as (Hin & _).
    destruct H1 as (x1 & y1 & Q1 & E1). destruct H2 as (x2 & y2 & Q2 & E2).
    destruct H3 as (x3 & y3 & Q3 & E3). destruct H4 as (x4 & y4 & Q4 & E4).
    pose proof (Hin _ _ (Hweak _ _ Q1)). pose proof (Hin _ _ (Hweak _ _ Q2)).
    pose proof (Hin _ _ (Hweak _ _ Q3)). pose proof (Hin _ _ (Hweak _ _ Q4)). lia.
  - exfalso. destruct H1 as (x1 & y1 & Q1 & _).
    exact (proj1 (getOpaqueBounds_None_iff image low) Elow x1 y1 (Hweak _ _ Q1)).
Qed.

Lemma getOpaqueBounds_threshold_monotone_witness :
  exists r', getOpaqueBounds dot_3x2 16 = Some r' /\
    rx r' <= 1 /\ ry r' <= 0 /\ 1 + 1 <= rx r' + rw r' /\ 0 + 2 <= ry r' + rh r'.
Proof.
  exact (getOpaqueBounds_threshold_monotone dot_3x2 16 100 (mkRect 1 0 1 2)
           wf_dot_3x2 ltac:(lia) eq_refl).
Defined.

(** The rectangle [pixelateImage] crops to. *)
Lemma cropBounds_cases (srcImage : ImageData) :
  (getOpaqueBounds srcImage 16 = None /\
   cropBounds srcImage = mkRect 0 0 (Z.of_nat (width srcImage)) (Z.of_nat (height srcImage))) \/
  (getOpaqueBounds srcImage 16 = Some (cropBounds srcImage)).
Proof.
  unfold cropBounds. destruct (getOpaqueBounds srcImage 16); [right|left]; auto.
Qed.

(** X7. The crop rectangle of [pixelateImage], fallback included, always
    lies inside a non-empty image, is at least 1 x 1 (so the guards
    [Math.max(1, cropBounds.w)] never change it), and contains every pixel
    whose alpha exceeds 16. *)
Theorem cropBounds_inside (srcImage : ImageData) :
  (0 < width srcImage)%nat -> (0 < height srcImage)%nat ->
  let r := cropBounds srcImage in
  (0 <= rx r /\ 0 <= ry r /\ 1 <= rw r /\ 1 <= rh r /\
   rx r + rw r <= Z.of_nat (width srcImage) /\ ry r + rh r <= Z.of_nat (height srcImage)) /\
  Z.max 1 (rw r) = rw r /\ Z.max 1 (rh r) = rh r /\
  (forall x y, (x < width srcImage)%nat -> (y < height srcImage)%nat ->
     16 < alpha_at srcImage x y ->
     rx r <= Z.of_nat x < rx r + rw r /\ ry r <= Z.of_nat y < ry r + rh r).
Proof.
  intros Hw Hh r. subst r.
  destruct (cropBounds_cases srcImage) as [[Hnone ->]|Hsome]; cbn [rx ry rw rh].
  - split; [lia|]. split; [lia|]. split; [lia|]. intros x y Hx Hy _. lia.
  - destruct (getOpaqueBounds_Some_inv _ _ _ Hsome) as (Hin & H1 & H2 & H3 & H4).
    destruct H1 as (x1 & y1 & Q1 & E1). destruct H2 as (x2 & y2 & Q2 & E2).
    destruct H3 as (x3 & y3 & Q3 & E3). destruct H4 as (x4 & y4 & Q4 & E4).
    pose proof Q1 as (B1 & _ & _). pose proof Q2 as (B2 & _ & _).
    pose proof Q3 as (_ & B3 & _). pose proof Q4 as (_ & B4 & _).
    pose proof (Hin _ _ Q1). pose proof (Hin _ _ Q3).
    split; [lia|]. split; [lia|]. split; [lia|].
    intros x y Hx Hy Ha. apply Hin. repeat split; assumption.
Qed.

Lemma cropBounds_inside_witness :
  cropBounds dot_3x2 = mkRect 0 0 2 2 /\ Z.max 1 (rw (cropBounds dot_3x2)) = 2.
Proof.
  split; [reflexivity|].
  destruct (cropBounds_inside dot_3x2 ltac:(simpl; lia) ltac:(simpl; lia)) as (_ & E & _).
  rewrite E. reflexivity.
Defined.

(** X8. Cropping keeps the whole image exactly when no pixel has alpha
    above 16 or such pixels touch all four edges of the image. *)
Theorem cropBounds_full_frame (srcImage : ImageData) :
  (0 < width srcImage)%nat -> (0 < height srcImage)%nat ->
  cropBounds srcImage = mkRect 0 0 (Z.of_nat (width srcImage)) (Z.of_nat (height srcImage))
  <->
  (forall x y, ~ qualifies srcImage 16 x y) \/
  ((exists y, qualifies srcImage 16 0 y) /\
   (exists y, qualifies srcImage 16 (width srcImage - 1) y) /\
   (exists x, qualifies srcImage 16 x 0) /\
   (exists x, qualifies srcImage 16 x (height srcImage - 1))).
Proof.
  intros Hw Hh.
  destruct (cropBounds_cases srcImage) as [[Hnone E]|Hsome].
  - rewrite E. split; [intros _; left; apply getOpaqueBounds_None_iff; exact Hnone|reflexivity].
  - destruct (getOpaqueBounds_Some_inv _ _ _ Hsome) as (Hin & H1 & H2 & H3 & H4).
    split.
    + intros E. rewrite E in H1, H2, H3, H4. cbn [rx ry rw rh] in *. right.
      destruct H1 as (x1 & y1 & Q1 & E1). destruct H2 as (x2 & y2 & Q2 & E2).
      destruct H3 as (x3 & y3 & Q3 & E3). destruct H4 as (x4 & y4 & Q4 & E4).
      replace x1 with 0%nat in Q1 by lia.
      replace x2 with (width srcImage - 1)%nat in Q2 by lia.
      replace y3 with 0%nat in Q3 by lia.
      replace y4 with (height srcImage - 1)%nat in Q4 by lia.
      split; [exists y1; exact Q1|]. split; [exists y2; exact Q2|].
      split; [exists x3; exact Q3|exists x4; exact Q4].
    + intros [Hno|((ya & Qa) & (yb & Qb) & (xc & Qc) & (xd & Qd))].
      * exfalso. destruct H1 as (x1 & y1 & Q1 & _). exact (Hno _ _ Q1).
      * pose proof (Hin _ _ Qa). pose proof (Hin _ _ Qb).
        pose proof (Hin _ _ Qc). pose proof (Hin _ _ Qd).
        destruct H1 as (x1 & y1 & Q1 & E1). destruct H2 as (x2 & y2 & Q2 & E2).
        destruct H3 as (x3 & y3 & Q3 & E3). destruct H4 as (x4 & y4 & Q4 & E4).
        pose proof Q1 as (B1 & _ & _). pose proof Q2 as (B2 & _ & _).
        pose proof Q3 as (_ & B3 & _). pose proof Q4 as (_ & B4 & _).
        destruct (cropBounds srcImage) as [cx cy cw ch]. cbn [rx ry rw rh] in *.
        f_equal; lia.
Qed.

Lemma cropBounds_full_frame_witness :
  cropBounds blank_2x2 = mkRect 0 0 2 2.
Proof.
  apply (cropBounds_full_frame blank_2x2 ltac:(simpl; lia) ltac:(simpl; lia)).
  left. apply getOpaqueBounds_None_iff. reflexivity.
Defined.

(** ** More on quantizeImageToPalette *)

Lemma for_loopM_fail {S : Type} n (body : nat -> S -> option S) (s : S) i :
  (i < n)%nat -> (forall s', body i s' = None) -> for_loopM n body s = None.
Proof.
  intros Hi Hfail. induction n as [|n IH]; [lia|]. cbn [for_loopM].
  destruct (Nat.eq_dec i n) as [->|Hne].
  - destruct (for_loopM n body s); [apply Hfail|reflexivity].
  - rewrite IH by lia. reflexivity.
Qed.

Lemma rasterM_fail {S : Type} w h (body : nat -> nat -> S -> option S) (s : S) x y :
  (x < w)%nat -> (y < h)%nat -> (forall s', body x y s' = None) -> rasterM w h body s = None.
Proof.
  intros Hx Hy Hfail. unfold rasterM.
  apply (for_loopM_fail h _ s y Hy). intros s'.
  apply (for_loopM_fail w _ s' x Hx). exact Hfail.
Qed.

Lemma none_search {A : Type} (f : nat -> option A) n :
  (exists i, (i < n)%nat /\ f i = None) \/ (forall i, (i < n)%nat -> is_Some (f i)).
Proof.
  induction n as [|n [(i & Hi & E)|Hall]].
  - right. intros i Hi. lia.
  - left. exists i. split; [lia|exact E].
  - destruct (f n) as [a|] eqn:E.
    + right. intros i Hi. destruct (Nat.eq_dec i n) as [->|Hne]; [rewrite E; eauto|].
      apply Hall. lia.
    + left. exists n. split; [lia|exact E].
Qed.

Lemma pixel_search {A : Type} (w h : nat) (f : nat -> nat -> option A) :
  (exists x y, (x < w)%nat /\ (y < h)%nat /\ f x y = None) \/
  (forall x y, (x < w)%nat -> (y < h)%nat -> is_Some (f x y)).
Proof.
  induction h as [|h [(x & y & Hx & Hy & E)|Hall]].
  - right. intros x y _ Hy. lia.
  - left. exists x, y. split; [exact Hx|]. split; [lia|exact E].
  - destruct (none_search (fun x => f x h) w) as [(x & Hx & E)|Hrow].
    + left. exists x, h. split; [exact Hx|]. split; [lia|exact E].
    + right. intros x y Hx Hy. destruct (Nat.eq_dec y h) as [->|Hne]; [apply Hrow; exact Hx|].
      apply Hall; [exact Hx|lia].
Qed.

(** A returned buffer holds, at every pixel, what the scan computes there. *)
Lemma quantize_Some_pixels (src : ImageData) (palette : Palette) ds (q : ImageData) :
  quantizeImageToPalette src palette ds = Some q ->
  width q = width src /\ height q = height src /\
  length (data q) = (4 * width src * height src)%nat /\
  forall x y, (x < width src)%nat -> (y < height src)%nat ->
    quantized_pixel (data src) (width src) palette (ditherAmp_of ds) x y
    = Some (rgba (data q) (pix (width src) x y)).
Proof.
  intros Hq.
  assert (Hsome : forall x y, (x < width src)%nat -> (y < height src)%nat ->
            is_Some (quantized_pixel (data src) (width src) palette (ditherAmp_of ds) x y)).
  { intros x y Hx Hy.
    destruct (quantized_pixel (data src) (width src) palette (ditherAmp_of ds) x y) eqn:E;
      [eauto|exfalso].
    unfold quantizeImageToPalette in Hq.
    rewrite (rasterM_fail (width src) (height src) _ _ x y Hx Hy) in Hq; [discriminate|].
    intros s'. rewrite quantize_step_pixel, E. reflexivity. }
  destruct (quantize_scan (data src) (width src) (height src) palette (ditherAmp_of ds) Hsome)
    as (out & E & Hlen & Hpx).
  unfold quantizeImageToPalette, newImageData in Hq. cbn [data] in Hq.
  rewrite E in Hq. injection Hq as <-. cbn [width height data]. auto.
Qed.

(** X9. [quantizeImageToPalette] throws exactly when the palette is empty
    and some pixel has alpha of at least 5; with an empty palette and no
    such pixel it returns the transparent buffer. *)
Theorem quantize_throws_iff (src : ImageData) (palette : Palette) (ds : float) :
  wf_image src ->
  (quantizeImageToPalette src palette ds = None <->
   palette = [] /\
   exists x y, (x < width src)%nat /\ (y < height src)%nat /\ 5 <= alpha_at src x y) /\
  (palette = [] ->
   (forall x y, (x < width src)%nat -> (y < height src)%nat -> alpha_at src x y < 5) ->
   quantizeImageToPalette src palette ds = Some (newImageData (width src) (height src))).
Proof.
  intros _.
  assert (Hpix : forall x y,
    quantized_pixel (data src) (width src) palette (ditherAmp_of ds) x y = None <->
    palette = [] /\ 5 <= alpha_at src x y).
  { intros x y. unfold quantized_pixel, alpha_at.
    destruct (Z.ltb_spec (rd (data src) (pix (width src) x y + 3)) 5) as [Ha|Ha].
    - split; [discriminate|]. intros [_ H]. lia.
    - destruct (dithered (data src) (pix (width src) x y) (ditherAmp_of ds) x y) as [[r g] b].
      destruct palette as [|p palette'].
      + split; [auto|reflexivity].
      + destruct (findNearestInPalette_elem r g b (p :: palette') ltac:(discriminate))
          as ([[qr qg] qb] & -> & _).
        split; [discriminate|]. intros [H _]. discriminate. }
  split.
  - split.
    + intros Hnone.
      destruct (pixel_search (width src) (height src)
                  (fun x y => quantized_pixel (data src) (width src) palette
                                (ditherAmp_of ds) x y)) as [(x & y & Hx & Hy & E)|Hall].
      * apply Hpix in E. destruct E as [Hp Ha]. split; [exact Hp|]. eauto.
      * exfalso.
        destruct (quantize_scan (data src) (width src) (height src) palette
                    (ditherAmp_of ds) Hall) as (out & E & _).
        unfold quantizeImageToPalette, newImageData in Hnone. cbn [data] in Hnone.
        rewrite E in Hnone. discriminate.
    + intros [Hp (x & y & Hx & Hy & Ha)]. unfold quantizeImageToPalette.
      rewrite (rasterM_fail (width src) (height src) _ _ x y Hx Hy); [reflexivity|].
      intros s'. rewrite quantize_step_pixel.
      rewrite (proj2 (Hpix x y) (conj Hp Ha)). reflexivity.
  - intros Hp Hall.
    assert (Hzero : forall x y, (x < width src)%nat -> (y < height src)%nat ->
              quantized_pixel (data src) (width src) palette (ditherAmp_of ds) x y
              = Some (0, 0, 0, 0)).
    { intros x y Hx Hy. specialize (Hall x y Hx Hy). unfold quantized_pixel.
      fold (alpha_at src x y).
      destruct (Z.ltb_spec (alpha_at src x y) 5); [reflexivity|lia]. }
    destruct (quantize_scan (data src) (width src) (height src) palette (ditherAmp_of ds))
      as (out & E & Hlen & Hpx).
    { intros x y Hx Hy. rewrite Hzero by assumption. eauto. }
    unfold quantizeImageToPalette, newImageData. cbn [data]. rewrite E. do 2 f_equal.
    apply (rgba_ext out _ (width src) (height src) Hlen (repeat_length _ _)).
    intros x y Hx Hy. specialize (Hpx x y Hx Hy). rewrite Hzero in Hpx by assumption.
    assert (E0 : rgba out (pix (width src) x y) = (0, 0, 0, 0)) by congruence.
    rewrite E0. unfold rgba. rewrite !rd_zeros. reflexivity.
Qed.

Lemma quantize_throws_iff_witness :
  quantizeImageToPalette dot_3x2 [] 0.2%float = None.
Proof.
  apply (proj1 (quantize_throws_iff dot_3x2 [] 0.2%float wf_dot_3x2)).
  split; [reflexivity|]. exists 1%nat, 0%nat.
  split; [simpl; lia|]. split; [simpl; lia|vm_compute; discriminate].
Defined.

Lemma quantized_pixel_alpha dat w palette amp x y px :
  quantized_pixel dat w palette amp x y = Some px ->
  snd px = if rd dat (pix w x y + 3) <? 5 then 0 else 255.
Proof.
  unfold quantized_pixel. destruct (rd dat (pix w x y + 3) <? 5).
  - intros H. injection H as <-. reflexivity.
  - destruct (dithered dat (pix w x y) amp x y) as [[r g] b].
    destruct (findNearestInPalette r g b palette) as [[[qr qg] qb]|]; [|discriminate].
    intros H. injection H as <-. reflexivity.
Qed.

(** X10. Quantization turns the alpha channel into a mask: a returned
    sprite has alpha 0 where the source alpha is below 5 and alpha 255
    elsewhere.  So the outline drawn from the sprite (test [alpha > 10]) is
    the outline of the source's [alpha >= 5] region: a pixel is painted
    exactly when its source alpha is below 5 and a pixel with source alpha
    of at least 5 lies within [thickness]. *)
Theorem quantize_then_outline (src : ImageData) (palette : Palette) (ds : float)
    (q : ImageData) (thickness : Z) (x y : nat) :
  wf_image src ->
  quantizeImageToPalette src palette ds = Some q ->
  1 <= thickness -> (x < width src)%nat -> (y < height src)%nat ->
  alpha_at q x y = (if alpha_at src x y <? 5 then 0 else 255) /\
  (rgba (data (createPixelOutline q thickness)) (pix (width src) x y) = (0, 0, 0, 255) <->
   alpha_at src x y < 5 /\
   exists x' y', (x' < width src)%nat /\ (y' < height src)%nat /\ 5 <= alpha_at src x' y' /\
     chebyshev (Z.of_nat x) (Z.of_nat y) (Z.of_nat x') (Z.of_nat y') <= thickness).
Proof.
  intros _ Hq Ht Hx Hy.
  destruct (quantize_Some_pixels src palette ds q Hq) as (Hw & Hh & _ & Hpx).
  assert (Halpha : forall x y, (x < width src)%nat -> (y < height src)%nat ->
            alpha_at q x y = if alpha_at src x y <? 5 then 0 else 255).
  { intros x0 y0 Hx0 Hy0. pose proof (quantized_pixel_alpha _ _ _ _ _ _ _ (Hpx x0 y0 Hx0 Hy0)) as E.
    unfold alpha_at. rewrite Hw. exact E. }
  split; [apply Halpha; assumption|].
  replace (pix (width src) x y) with (pix (width q) x y) by (rewrite Hw; reflexivity).
  rewrite (createPixelOutline_pixel q thickness x y Ht) by congruence.
  pose proof (outline_band_iff q (Z.to_nat thickness) x y ltac:(congruence) ltac:(congruence))
    as Hiff.
  rewrite Z2Nat.id in Hiff by lia. rewrite Hw, Hh in Hiff.
  assert (Hgoal : outline_band q (Z.to_nat thickness) x y = true <->
    alpha_at src x y < 5 /\
    exists x' y', (x' < width src)%nat /\ (y' < height src)%nat /\ 5 <= alpha_at src x' y' /\
      chebyshev (Z.of_nat x) (Z.of_nat y) (Z.of_nat x') (Z.of_nat y') <= thickness).
  { rewrite Hiff. rewrite (Halpha x y Hx Hy). split.
    - intros [Ha (x' & y' & Hx' & Hy' & Ha' & Hd)].
      rewrite (Halpha x' y' Hx' Hy') in Ha'.
      destruct (Z.ltb_spec (alpha_at src x y) 5); [|lia].
      destruct (Z.ltb_spec (alpha_at src x' y') 5); [lia|].
      split; [assumption|]. exists x', y'. auto.
    - intros [Ha (x' & y' & Hx' & Hy' & Ha' & Hd)].
      destruct (Z.ltb_spec (alpha_at src x y) 5); [|lia]. split; [lia|].
      exists x', y'. rewrite (Halpha x' y' Hx' Hy').
      destruct (Z.ltb_spec (alpha_at src x' y') 5); [lia|]. repeat split; try assumption; lia. }
  clear Hiff. destruct (outline_band q (Z.to_nat thickness) x y).
  - split; [intros _; exact (proj1 Hgoal eq_refl)|reflexivity].
  - split; [discriminate|]. intros H. pose proof (proj2 Hgoal H). discriminate.
Qed.

Lemma quantize_then_outline_witness :
  alpha_at (mkImageData 3 2 [0;0;0;0; 15;56;15;255; 0;0;0;0;
                             15;56;15;255; 15;56;15;255; 15;56;15;255]) 0 0
  = (if alpha_at dot_3x2 0 0 <? 5 then 0 else 255).
Proof.
  exact (proj1 (quantize_then_outline dot_3x2 (PALETTES gb) 0%float _ 1 0 0
                  wf_dot_3x2 quantize_dot ltac:(lia) ltac:(simpl; lia) ltac:(simpl; lia))).
Defined.

(** ** clamp255 and the dither matrix *)

Lemma ltb_nan_l v x : PrimFloat.is_nan v = true -> PrimFloat.ltb v x = false.
Proof.
  unfold PrimFloat.is_nan. rewrite negb_true_iff, FloatAxioms.eqb_spec, FloatAxioms.ltb_spec.
  unfold SFeqb, SFltb, SFcompare.
  destruct (Prim2SF v) as [sa|sa| |sa ma ea]; sf_signs; intros H; sf_compare;
    rewrite ?Z.compare_refl, ?Pos.compare_refl in H; try discriminate; try reflexivity.
Qed.

Lemma ltb_nan_r v x : PrimFloat.is_nan v = true -> PrimFloat.ltb x v = false.
Proof.
  unfold PrimFloat.is_nan. rewrite negb_true_iff, FloatAxioms.eqb_spec, FloatAxioms.ltb_spec.
  unfold SFeqb, SFltb, SFcompare.
  destruct (Prim2SF v) as [sa|sa| |sa ma ea], (Prim2SF x) as [sb|sb| |sb mb eb];
    sf_signs; intros H; sf_compare;
    rewrite ?Z.compare_refl, ?Pos.compare_refl in H; try discriminate; try reflexivity.
Qed.

(** X11. [clamp255] returns a number in [0, 255] for every number that is
    not NaN, returns the numbers of [0, 255] unchanged, and lets NaN
    through. *)
Theorem clamp255_range (v : float) :
  (PrimFloat.is_nan v = false ->
   PrimFloat.leb 0 (clamp255 v) = true /\ PrimFloat.leb (clamp255 v) 255 = true) /\
  (PrimFloat.leb 0 v = true -> PrimFloat.leb v 255 = true -> clamp255 v = v) /\
  (PrimFloat.is_nan v = true -> clamp255 v = v).
Proof.
  unfold clamp255. split; [|split].
  - intros Hv.
    destruct (PrimFloat.ltb v 0) eqn:E0; [split; vm_compute; reflexivity|].
    destruct (PrimFloat.ltb 255 v) eqn:E1; [split; vm_compute; reflexivity|].
    split.
    + apply (leb_total v 0 Hv); [vm_compute; reflexivity|exact E0].
    + apply (leb_total 255 v); [vm_compute; reflexivity|exact Hv|exact E1].
  - intros H0 H1.
    destruct (PrimFloat.ltb v 0) eqn:E0.
    { pose proof (leb_ltb_trans 0 v 0 H0 E0) as C. rewrite ltb_irrefl in C. discriminate. }
    destruct (PrimFloat.ltb 255 v) eqn:E1; [|reflexivity].
    pose proof (leb_ltb_trans v 255 v H1 E1) as C. rewrite ltb_irrefl in C. discriminate.
  - intros Hv. rewrite (ltb_nan_l v 0 Hv), (ltb_nan_r v 255 Hv). reflexivity.
Qed.

Lemma clamp255_range_witness :
  PrimFloat.leb 0 (clamp255 300.5) = true /\ PrimFloat.leb (clamp255 300.5) 255 = true.
Proof.
  apply (proj1 (clamp255_range 300.5)). vm_compute. reflexivity.
Defined.

Lemma land3_mod4 x : Nat.land x 3 = (x mod 4)%nat.
Proof. exact (Nat.land_ones x 2). Qed.

(** X12. The dither threshold is a number from 0 to 15 that repeats every
    4 pixels along both axes, and so does the colour handed to the palette
    search for given channel values. *)
Theorem bayer_periodic (x y : nat) :
  0 <= bayer x y <= 15 /\
  bayer (x + 4) y = bayer x y /\ bayer x (y + 4) = bayer x y /\
  (forall dat idx amp,
     dithered dat idx amp (x + 4) y = dithered dat idx amp x y /\
     dithered dat idx amp x (y + 4) = dithered dat idx amp x y).
Proof.
  assert (Px : Nat.land (x + 4) 3 = Nat.land x 3).
  { rewrite !land3_mod4. replace (x + 4)%nat with (x + 1 * 4)%nat by lia.
    apply Nat.Div0.mod_add. }
  assert (Py : Nat.land (y + 4) 3 = Nat.land y 3).
  { rewrite !land3_mod4. replace (y + 4)%nat with (y + 1 * 4)%nat by lia.
    apply Nat.Div0.mod_add. }
  assert (Ex : bayer (x + 4) y = bayer x y) by (unfold bayer; rewrite Px; reflexivity).
  assert (Ey : bayer x (y + 4) = bayer x y) by (unfold bayer; rewrite Py; reflexivity).
  split; [|split; [exact Ex|split; [exact Ey|]]].
  - unfold bayer. rewrite !land3_mod4.
    pose proof (Nat.mod_upper_bound x 4 ltac:(lia)) as Hx.
    pose proof (Nat.mod_upper_bound y 4 ltac:(lia)) as Hy.
    destruct (x mod 4)%nat as [|[|[|[|n]]]]; [| | | |lia];
      (destruct (y mod 4)%nat as [|[|[|[|k]]]]; [| | | |lia]); simpl; lia.
  - intros dat idx amp. unfold dithered. rewrite Ex, Ey. split; reflexivity.
Qed.

(** ** More on pixelateImage *)

Lemma sprite_total pick blend (srcImage : ImageData) (blockSize : Z) (st : Settings) :
  exists out,
    sprite pick blend srcImage blockSize st
      = Some (mkImageData (Z.to_nat (smallSize (rw (cropBounds srcImage)) blockSize))
                          (Z.to_nat (smallSize (rh (cropBounds srcImage)) blockSize)) out) /\
    forall u v, (u < Z.to_nat (smallSize (rw (cropBounds srcImage)) blockSize))%nat ->
                (v < Z.to_nat (smallSize (rh (cropBounds srcImage)) blockSize))%nat ->
      rgba out (pix (Z.to_nat (smallSize (rw (cropBounds srcImage)) blockSize)) u v)
        = (0, 0, 0, 0) \/
      exists qr qg qb, (qr, qg, qb) ∈ PALETTES (palette st) /\
        rgba out (pix (Z.to_nat (smallSize (rw (cropBounds srcImage)) blockSize)) u v)
          = (qr, qg, qb, 255).
Proof.
  unfold sprite.
  set (small := drawImage pick blend _ 0 0 _ _ 0 0 _ _ _).
  set (amt := if ditherEnabled st then ditherStrength st else 0%float).
  destruct (quantize_total small (PALETTES (palette st)) amt (wf_PALETTES _))
    as (out & E & _ & Hpx).
  exists out. split; [exact E|].
  intros u v Hu Hv. specialize (Hpx u v Hu Hv).
  destruct (quantized_pixel_cases (data small) (width small) (PALETTES (palette st))
              (ditherAmp_of amt) u v (wf_PALETTES _))
    as [[_ Eq]|[_ (qr & qg & qb & Hin & _ & Eq)]]; rewrite Eq in Hpx.
  - left. change (width small) with
      (Z.to_nat (smallSize (rw (cropBounds srcImage)) blockSize)) in Hpx. congruence.
  - right. exists qr, qg, qb. split; [exact Hin|].
    change (width small) with
      (Z.to_nat (smallSize (rw (cropBounds srcImage)) blockSize)) in Hpx. congruence.
Qed.

Lemma outline_pixel_binary (src : ImageData) (thickness : Z) u v :
  (u < width src)%nat -> (v < height src)%nat ->
  rgba (data (createPixelOutline src thickness)) (pix (width src) u v) = (0, 0, 0, 0) \/
  rgba (data (createPixelOutline src thickness)) (pix (width src) u v) = (0, 0, 0, 255).
Proof.
  intros Hu Hv. destruct (Z.le_gt_cases thickness 0) as [Hle|Hgt].
  - left. rewrite createPixelOutline_off by exact Hle.
    unfold rgba. cbn [data newImageData]. rewrite !rd_zeros. reflexivity.
  - rewrite (createPixelOutline_pixel src thickness u v ltac:(lia) Hu Hv).
    destruct (outline_band _ _ _ _); [right|left]; reflexivity.
Qed.

Lemma draw_pixel_cases pick blend src sx sy sw sh dx dy dw dh dst x y :
  let here := rgba (data dst) (pix (width dst) x y) in
  draw_pixel pick blend src sx sy sw sh dx dy dw dh dst x y = here \/
  (inside (mkPlacement dw dh dx dy) x y = true /\
   exists u v, (u < width src)%nat /\ (v < height src)%nat /\
     draw_pixel pick blend src sx sy sw sh dx dy dw dh dst x y
       = blend (rgba (data src) (pix (width src) u v)) here).
Proof.
  intros here. subst here. unfold draw_pixel, inside. cbn [offsetX offsetY targetW targetH].
  destruct ((dx <=? Z.of_nat x) && (Z.of_nat x <? dx + dw)
            && (dy <=? Z.of_nat y) && (Z.of_nat y <? dy + dh)); [|left; reflexivity].
  destruct ((_ <? width src)%nat && (_ <? height src)%nat) eqn:Hin; [|left; reflexivity].
  apply andb_true_iff in Hin. destruct Hin as [Hu Hv]. apply Nat.ltb_lt in Hu, Hv.
  right. split; [reflexivity|]. eauto.
Qed.

Lemma draw_pixel_outside pick blend src sx sy sw sh dx dy dw dh dst x y :
  inside (mkPlacement dw dh dx dy) x y = false ->
  draw_pixel pick blend src sx sy sw sh dx dy dw dh dst x y
  = rgba (data dst) (pix (width dst) x y).
Proof.
  unfold draw_pixel, inside. cbn [offsetX offsetY targetW targetH]. intros ->. reflexivity.
Qed.

(** The pipeline unfolded: sprite, outline and the two draws. *)
Lemma pixelateImage_unfold pick blend (srcImage : ImageData) (blockSize : Z) (st : Settings)
    (quantized : ImageData) :
  sprite pick blend srcImage blockSize st = Some quantized ->
  let cb := cropBounds srcImage in
  let smallW := smallSize (rw cb) blockSize in
  let smallH := smallSize (rh cb) blockSize in
  let square := Z.max (rw cb) (rh cb) in
  let p := placement 0.6 square smallW smallH in
  let outlineImage :=
    createPixelOutline quantized (Z.max 0 (JS.Math_floor (outlineThickness st))) in
  let filled := solid (Z.to_nat square) (Z.to_nat square) (237, 141, 38, 255) in
  let withOutline :=
    drawImage pick blend outlineImage 0 0 smallW smallH
      (offsetX p) (offsetY p) (targetW p) (targetH p) filled in
  pixelateImage pick blend srcImage blockSize st
  = Some (drawImage pick blend quantized 0 0 smallW smallH
            (offsetX p) (offsetY p) (targetW p) (targetH p) withOutline).
Proof. intros E. unfold pixelateImage. rewrite E. reflexivity. Qed.


(** X14. Outside the rectangle the sprite is drawn into, every pixel of
    the result is the fill colour #ed8d26, opaque, for every nearest-
    neighbour rule and every compositing rule. *)
Theorem pixelateImage_background pick blend (srcImage : ImageData) (blockSize : Z)
    (st : Settings) (out : ImageData) (x y : nat) :
  pixelateImage pick blend srcImage blockSize st = Some out ->
  (x < width out)%nat -> (y < height out)%nat ->
  inside (placement 0.6 (Z.max (rw (cropBounds srcImage)) (rh (cropBounds srcImage)))
            (smallSize (rw (cropBounds srcImage)) blockSize)
            (smallSize (rh (cropBounds srcImage)) blockSize)) x y = false ->
  rgba (data out) (pix (width out) x y) = (237, 141, 38, 255).
Proof.
  intros Hout Hx Hy Hins.
  destruct (sprite_total pick blend srcImage blockSize st) as (sp & E & _).
  rewrite (pixelateImage_unfold pick blend srcImage blockSize st _ E) in Hout.
  injection Hout as <-.
  set (cb := cropBounds srcImage) in *.
  set (p := placement 0.6 (Z.max (rw cb) (rh cb)) (smallSize (rw cb) blockSize)
              (smallSize (rh cb) blockSize)) in *.
  set (S := Z.to_nat (Z.max (rw cb) (rh cb))) in *.
  cbn [width height drawImage paint solid] in Hx, Hy. fold S in Hx, Hy.
  match goal with
  | |- rgba (data (drawImage ?pk ?bl ?s ?a ?b ?c ?d ?e ?f ?g ?h ?dst)) _ = _ =>
      pose proof (drawImage_pixel pk bl s a b c d e f g h dst x y Hx Hy) as E1;
      change (width (drawImage pk bl s a b c d e f g h dst)) with (width dst);
      rewrite E1; rewrite draw_pixel_outside by exact Hins
  end.
  match goal with
  | |- rgba (data (drawImage ?pk ?bl ?s ?a ?b ?c ?d ?e ?f ?g ?h ?dst)) _ = _ =>
      pose proof (drawImage_pixel pk bl s a b c d e f g h dst x y Hx Hy) as E2;
      change (width (drawImage pk bl s a b c d e f g h dst)) with (width dst);
      rewrite E2; rewrite draw_pixel_outside by exact Hins
  end.
  apply (uniform_solid S S (237, 141, 38, 255)); assumption.
Qed.

Lemma pixelateImage_background_witness :
  exists out,
    pixelateImage pick_floor blend_over dot_3x2 1 initial_settings = Some out /\
    rgba (data out) (pix (width out) 1 1) = (237, 141, 38, 255).
Proof.
  eexists. split; [vm_compute; reflexivity|].
  apply (pixelateImage_background pick_floor blend_over dot_3x2 1 initial_settings);
    [vm_compute; reflexivity|simpl; lia|simpl; lia|vm_compute; reflexivity].
Defined.

Section Compositing.

Variable pick : nat -> nat -> nat -> nat.
Variable blend : Pixel -> Pixel -> Pixel.
Hypothesis blend_opaque : forall r g b dst, blend (r, g, b, 255) dst = (r, g, b, 255).
Hypothesis blend_transparent : forall r g b dst, blend (r, g, b, 0) dst = dst.

(** Every pixel of the result is opaque and carries the fill colour,
    black, or a colour of the palette. *)
Lemma pixelateImage_pixel (srcImage : ImageData) (blockSize : Z) (st : Settings)
    (out : ImageData) (x y : nat) :
  pixelateImage pick blend srcImage blockSize st = Some out ->
  (x < width out)%nat -> (y < height out)%nat ->
  rgba (data out) (pix (width out) x y) = (237, 141, 38, 255) \/
  rgba (data out) (pix (width out) x y) = (0, 0, 0, 255) \/
  exists qr qg qb, (qr, qg, qb) ∈ PALETTES (palette st) /\
    rgba (data out) (pix (width out) x y) = (qr, qg, qb, 255).
Proof.
  intros Hout Hx Hy.
  destruct (sprite_total pick blend srcImage blockSize st) as (sp & E & Hsp).
  rewrite (pixelateImage_unfold pick blend srcImage blockSize st _ E) in Hout.
  set (cb := cropBounds srcImage) in *.
  set (smallW := smallSize (rw cb) blockSize) in *.
  set (smallH := smallSize (rh cb) blockSize) in *.
  set (quantized := mkImageData (Z.to_nat smallW) (Z.to_nat smallH) sp) in *.
  set (p := placement 0.6 (Z.max (rw cb) (rh cb)) smallW smallH) in *.
  set (S := Z.to_nat (Z.max (rw cb) (rh cb))) in *.
  set (outlineImage :=
         createPixelOutline quantized (Z.max 0 (JS.Math_floor (outlineThickness st)))) in *.
  set (filled := solid S S (237, 141, 38, 255)) in *.
  set (withOutline := drawImage pick blend outlineImage 0 0 smallW smallH
                        (offsetX p) (offsetY p) (targetW p) (targetH p) filled) in *.
  assert (Eout : out = drawImage pick blend quantized 0 0 smallW smallH
                         (offsetX p) (offsetY p) (targetW p) (targetH p) withOutline)
    by (injection Hout as <-; reflexivity).
  clear Hout. subst out.
  change (width (drawImage pick blend quantized 0 0 smallW smallH
                   (offsetX p) (offsetY p) (targetW p) (targetH p) withOutline)) with S in *.
  change (height (drawImage pick blend quantized 0 0 smallW smallH
                    (offsetX p) (offsetY p) (targetW p) (targetH p) withOutline)) with S in *.
  (* the canvas under the sprite: fill colour or outline black *)
  assert (Hwo : rgba (data withOutline) (pix S x y) = (237, 141, 38, 255) \/
                rgba (data withOutline) (pix S x y) = (0, 0, 0, 255)).
  { subst withOutline.
    pose proof (drawImage_pixel pick blend outlineImage 0 0 smallW smallH
                  (offsetX p) (offsetY p) (targetW p) (targetH p) filled x y Hx Hy) as E1.
    change (width filled) with S in E1. rewrite E1.
    pose proof (uniform_solid S S (237, 141, 38, 255) x y Hx Hy) as Hfill.
    change (width (solid S S (237, 141, 38, 255))) with S in Hfill. fold filled in Hfill.
    destruct (draw_pixel_cases pick blend outlineImage 0 0 smallW smallH
                (offsetX p) (offsetY p) (targetW p) (targetH p) filled x y)
      as [->|[_ (u & v & Hu & Hv & ->)]];
      change (width filled) with S; rewrite Hfill; [left; reflexivity|].
    destruct (createPixelOutline_size quantized (Z.max 0 (JS.Math_floor (outlineThickness st))))
      as (Wo & Ho & _).
    fold outlineImage in Wo, Ho. rewrite Wo in Hu. rewrite Ho in Hv. rewrite Wo.
    destruct (outline_pixel_binary quantized (Z.max 0 (JS.Math_floor (outlineThickness st)))
                u v Hu Hv) as [Eo|Eo]; fold outlineImage in Eo; rewrite Eo.
    - left. apply blend_transparent.
    - right. apply blend_opaque. }
  pose proof (drawImage_pixel pick blend quantized 0 0 smallW smallH
                (offsetX p) (offsetY p) (targetW p) (targetH p) withOutline x y Hx Hy) as E2.
  change (width withOutline) with S in E2. rewrite E2.
  destruct (draw_pixel_cases pick blend quantized 0 0 smallW smallH
              (offsetX p) (offsetY p) (targetW p) (targetH p) withOutline x y)
    as [->|[_ (u & v & Hu & Hv & ->)]]; change (width withOutline) with S.
  - destruct Hwo as [->| ->]; auto.
  - cbn [width height quantized] in Hu, Hv. cbn [width data quantized].
    destruct (Hsp u v Hu Hv) as [Es|(qr & qg & qb & Hin & Es)]; rewrite Es.
    + rewrite blend_transparent. destruct Hwo as [->| ->]; auto.
    + rewrite blend_opaque. right. right. exists qr, qg, qb. auto.
Qed.

End Compositing.

(** X15. Whatever the input image, block size and settings, every pixel of
    the canvas [pixelateImage] returns is fully opaque and carries the fill
    colour #ed8d26, the outline black, or a colour of the selected palette,
    provided the canvas composites opaque and fully transparent source
    pixels exactly. *)
Theorem pixelateImage_colours pick blend (srcImage : ImageData) (blockSize : Z)
    (st : Settings) (out : ImageData) (x y : nat) :
  (forall r g b dst, blend (r, g, b, 255) dst = (r, g, b, 255)) ->
  (forall r g b dst, blend (r, g, b, 0) dst = dst) ->
  pixelateImage pick blend srcImage blockSize st = Some out ->
  (x < width out)%nat -> (y < height out)%nat ->
  rgba (data out) (pix (width out) x y) = (237, 141, 38, 255) \/
  rgba (data out) (pix (width out) x y) = (0, 0, 0, 255) \/
  exists qr qg qb, (qr, qg, qb) ∈ PALETTES (palette st) /\
    rgba (data out) (pix (width out) x y) = (qr, qg, qb, 255).
Proof.
  intros Hop Htr. apply pixelateImage_pixel; assumption.
Qed.

Lemma pixelateImage_colours_witness :
  exists out,
    pixelateImage pick_floor blend_over dot_3x2 1 initial_settings = Some out /\
    (rgba (data out) (pix (width out) 0 0) = (237, 141, 38, 255) \/
     rgba (data out) (pix (width out) 0 0) = (0, 0, 0, 255) \/
     exists qr qg qb, (qr, qg, qb) ∈ PALETTES pico8 /\
       rgba (data out) (pix (width out) 0 0) = (qr, qg, qb, 255)).
Proof.
  eexists. split; [vm_compute; reflexivity|].
  apply (pixelateImage_colours pick_floor blend_over dot_3x2 1 initial_settings);
    [exact blend_over_opaque|exact blend_over_transparent|vm_compute; reflexivity
    |simpl; lia|simpl; lia].
Defined.

(** ** More on normalizeImageBlob, and downscaleToPng *)





Section NormalizerFacts.

Variable Blob : Type.
Variable naturalSize : Blob -> Z * Z.
Variable resample : Blob -> Z -> Z -> Blob.
Hypothesis resample_size :
  forall b w h, 1 <= w -> 1 <= h -> naturalSize (resample b w h) = (w, h).


End NormalizerFacts.







(** ** processImage *)

Section ProcessImageFacts.

Variable Blob Url : Type.
Variable normalize : Blob -> Z -> Outcome Blob.
Variable removeBackground : Blob -> Outcome Blob.
Variable pixelate : Blob -> Z -> Outcome Blob.
Variable createObjectURL : Blob -> Url.

Let process := processImage Blob Url normalize removeBackground pixelate createObjectURL.

(** The run either goes through the three stages or stops at the first
    one that rejects. *)
Lemma processImage_cases (ne : bool) (limit : Z) (file : Blob) (bs : Z) (rb : bool)
    (v : View Url) :
  (exists b1 b2 b3,
     after_normalize Blob normalize ne limit file b1 /\
     after_removal Blob removeBackground rb b1 b2 /\
     pixelate b2 bs = Resolved b3 /\
     run_updates v (process ne limit file bs rb)
       = mkView done 1%float (Some (createObjectURL b3)) /\
     strictly_increasing (progress_values (process ne limit file bs rb)) = true) \/
  (exists e,
     ((ne = true /\ normalize file limit = Rejected e) \/
      (exists b1, after_normalize Blob normalize ne limit file b1 /\
         ((rb = true /\ removeBackground b1 = Rejected e) \/
          (exists b2, after_removal Blob removeBackground rb b1 b2 /\
             pixelate b2 bs = Rejected e)))) /\
     run_updates v (process ne limit file bs rb)
       = mkView (error (catch_message e)) 0%float (finalPreviewUrl v)).
Proof.
  subst process. unfold processImage, after_normalize, after_removal.
  destruct ne.
  - destruct (normalize file limit) as [b1|e] eqn:E1.
    + destruct rb.
      * destruct (removeBackground b1) as [b2|e] eqn:E2.
        -- destruct (pixelate b2 bs) as [b3|e] eqn:E3.
           ++ left. exists b1, b2, b3. repeat split; try assumption; try reflexivity.
           ++ right. exists e. split; [|reflexivity]. right. exists b1. split; [reflexivity|].
              right. exists b2. auto.
        -- right. exists e. split; [|reflexivity]. right. exists b1. auto.
      * destruct (pixelate b1 bs) as [b3|e] eqn:E3.
        -- left. exists b1, b1, b3. repeat split; try assumption; try reflexivity.
        -- right. exists e. split; [|reflexivity]. right. exists b1. split; [reflexivity|].
           right. exists b1. auto.
    + right. exists e. split; [|reflexivity]. left. auto.
  - destruct rb.
    + destruct (removeBackground file) as [b2|e] eqn:E2.
      * destruct (pixelate b2 bs) as [b3|e] eqn:E3.
        -- left. exists file, b2, b3. repeat split; try assumption; try reflexivity.
        -- right. exists e. split; [|reflexivity]. right. exists file. split; [reflexivity|].
           right. exists b2. auto.
      * right. exists e. split; [|reflexivity]. right. exists file. auto.
    + destruct (pixelate file bs) as [b3|e] eqn:E3.
      * left. exists file, file, b3. repeat split; try assumption; try reflexivity.
      * right. exists e. split; [|reflexivity]. right. exists file. split; [reflexivity|].
        right. exists file. auto.
Qed.

End ProcessImageFacts.

(** X19. Every run of [processImage] leaves the component not busy.  It
    ends in phase done, with progress 1 and the preview set to the URL of
    the pixelated blob, exactly when normalization (if enabled), background
    removal (if requested) and pixelation all resolve, each receiving the
    blob of the stage before; otherwise it ends in phase error with the
    message of the first rejection, progress 0 and the preview untouched. *)
Theorem processImage_settles (Blob Url : Type) (normalize : Blob -> Z -> Outcome Blob)
    (removeBackground : Blob -> Outcome Blob) (pixelate : Blob -> Z -> Outcome Blob)
    (createObjectURL : Blob -> Url)
    (normalizeEnabled : bool) (normalizeLongestSide : Z) (file : Blob)
    (pixelBlockSize : Z) (shouldRemoveBg : bool) (v : View Url) :
  let v' := run_updates v
              (processImage Blob Url normalize removeBackground pixelate createObjectURL
                 normalizeEnabled normalizeLongestSide file pixelBlockSize shouldRemoveBg) in
  isBusy v' = false /\
  (processingState v' = done <->
   exists b1 b2 b3,
     after_normalize Blob normalize normalizeEnabled normalizeLongestSide file b1 /\
     after_removal Blob removeBackground shouldRemoveBg b1 b2 /\
     pixelate b2 pixelBlockSize = Resolved b3) /\
  (forall b1 b2 b3,
     after_normalize Blob normalize normalizeEnabled normalizeLongestSide file b1 ->
     after_removal Blob removeBackground shouldRemoveBg b1 b2 ->
     pixelate b2 pixelBlockSize = Resolved b3 ->
     v' = mkView done 1%float (Some (createObjectURL b3))) /\
  (processingState v' <> done ->
   exists e, v' = mkView (error (catch_message e)) 0%float (finalPreviewUrl v)).
Proof.
  intros v'. subst v'.
  assert (Hfun1 : forall b b', after_normalize Blob normalize normalizeEnabled
                                 normalizeLongestSide file b ->
                               after_normalize Blob normalize normalizeEnabled
                                 normalizeLongestSide file b' -> b = b').
  { unfold after_normalize. destruct normalizeEnabled; intros b b' H H'; congruence. }
  assert (Hfun2 : forall b c c', after_removal Blob removeBackground shouldRemoveBg b c ->
                                 after_removal Blob removeBackground shouldRemoveBg b c' ->
                                 c = c').
  { unfold after_removal. destruct shouldRemoveBg; intros b c c' H H'; congruence. }
  destruct (processImage_cases Blob Url normalize removeBackground pixelate createObjectURL
              normalizeEnabled normalizeLongestSide file pixelBlockSize shouldRemoveBg v)
    as [(b1 & b2 & b3 & F1 & F2 & F3 & -> & _)|(e & Hrej & ->)].
  - split; [reflexivity|].
    split; [split; [intros _; exists b1, b2, b3; auto|intros _; reflexivity]|]. split.
    + intros c1 c2 c3 G1 G2 G3.
      assert (c1 = b1) by (apply (Hfun1 _ _ G1 F1)). subst c1.
      assert (c2 = b2) by (apply (Hfun2 _ _ _ G2 F2)). subst c2.
      congruence.
    + intros H. exfalso. apply H. reflexivity.
  - assert (Hno : forall c1 c2 c3,
              after_normalize Blob normalize normalizeEnabled normalizeLongestSide file c1 ->
              after_removal Blob removeBackground shouldRemoveBg c1 c2 ->
              pixelate c2 pixelBlockSize = Resolved c3 -> False).
    { intros c1 c2 c3 G1 G2 G3.
      destruct Hrej as [[Hne E]|(b1 & F1 & [[Hrb E]|(b2 & F2 & E)])].
      - subst normalizeEnabled. unfold after_normalize in G1. congruence.
      - assert (c1 = b1) by (apply (Hfun1 _ _ G1 F1)). subst c1.
        subst shouldRemoveBg. unfold after_removal in G2. congruence.
      - assert (c1 = b1) by (apply (Hfun1 _ _ G1 F1)). subst c1.
        assert (c2 = b2) by (apply (Hfun2 _ _ _ G2 F2)). subst c2. congruence. }
    split; [reflexivity|]. split; [split|split].
    + discriminate.
    + intros (c1 & c2 & c3 & G1 & G2 & G3). exfalso. exact (Hno _ _ _ G1 G2 G3).
    + intros c1 c2 c3 G1 G2 G3. exfalso. exact (Hno _ _ _ G1 G2 G3).
    + intros _. exists e. reflexivity.
Qed.

(** X20. On a run that ends in phase done the values handed to
    [setProgress] increase strictly, up to 1. *)
Theorem processImage_progress (Blob Url : Type) (normalize : Blob -> Z -> Outcome Blob)
    (removeBackground : Blob -> Outcome Blob) (pixelate : Blob -> Z -> Outcome Blob)
    (createObjectURL : Blob -> Url)
    (normalizeEnabled : bool) (normalizeLongestSide : Z) (file : Blob)
    (pixelBlockSize : Z) (shouldRemoveBg : bool) (v : View Url) :
  let updates :=
    processImage Blob Url normalize removeBackground pixelate createObjectURL
      normalizeEnabled normalizeLongestSide file pixelBlockSize shouldRemoveBg in
  processingState (run_updates v updates) = done ->
  strictly_increasing (progress_values updates) = true /\
  last (progress_values updates) = Some 1%float.
Proof.
  intros updates. subst updates.
  unfold processImage.
  destruct normalizeEnabled, shouldRemoveBg;
    repeat match goal with
           | |- context [match ?o with Resolved _ => _ | Rejected _ => _ end] => destruct o
           end;
    intros H; try discriminate H; split; reflexivity.
Qed.

Lemma processImage_progress_witness :
  strictly_increasing
    (progress_values
       (processImage nat nat (fun b _ => Resolved b) (fun b => Resolved b)
          (fun b _ => Resolved b) (fun b => b) true 512 7%nat 8 true)) = true.
Proof.
  apply (processImage_progress nat nat (fun b _ => Resolved b) (fun b => Resolved b)
           (fun b _ => Resolved b) (fun b => b) true 512 7%nat 8 true
           (mkView idle 0%float None)).
  reflexivity.
Defined.

(** X21. A stage that is switched off, or that comes after a rejection,
    is not called: the updates are the same whatever that stage would do. *)
Theorem processImage_skips (Blob Url : Type)
    (normalize normalize' : Blob -> Z -> Outcome Blob)
    (removeBackground removeBackground' : Blob -> Outcome Blob)
    (pixelate pixelate' : Blob -> Z -> Outcome Blob)
    (createObjectURL : Blob -> Url)
    (ne : bool) (limit : Z) (file : Blob) (bs : Z) (rb : bool) :
  (processImage Blob Url normalize removeBackground pixelate createObjectURL
     false limit file bs rb
   = processImage Blob Url normalize' removeBackground pixelate createObjectURL
       false limit file bs rb) /\
  (processImage Blob Url normalize removeBackground pixelate createObjectURL
     ne limit file bs false
   = processImage Blob Url normalize removeBackground' pixelate createObjectURL
       ne limit file bs false) /\
  (forall e, normalize file limit = Rejected e ->
     processImage Blob Url normalize removeBackground pixelate createObjectURL
       true limit file bs rb
     = processImage Blob Url normalize removeBackground' pixelate' createObjectURL
         true limit file bs rb) /\
  (forall b1 e,
     after_normalize Blob normalize ne limit file b1 ->
     removeBackground b1 = Rejected e ->
     processImage Blob Url normalize removeBackground pixelate createObjectURL
       ne limit file bs true
     = processImage Blob Url normalize removeBackground pixelate' createObjectURL
         ne limit file bs true).
Proof.
  unfold processImage, after_normalize. split; [reflexivity|]. split; [reflexivity|].
  split.
  - intros e ->. reflexivity.
  - intros b1 e H1 H2. destruct ne.
    + rewrite H1, H2. reflexivity.
    + subst b1. rewrite H2. reflexivity.
Qed.

Lemma processImage_skips_witness :
  processImage nat nat (fun _ _ => Rejected OtherValue) (fun b => Resolved b)
    (fun b _ => Resolved b) (fun b => b) true 512 7%nat 8 true
  = processImage nat nat (fun _ _ => Rejected OtherValue) (fun b => Rejected OtherValue)
      (fun b _ => Rejected OtherValue) (fun b => b) true 512 7%nat 8 true.
Proof.
  apply (proj1 (proj2 (proj2 (processImage_skips nat nat
           (fun _ _ => Rejected OtherValue) (fun _ _ => Rejected OtherValue)
           (fun b => Resolved b) (fun b => Rejected OtherValue)
           (fun b _ => Resolved b) (fun b _ => Rejected OtherValue)
           (fun b => b) true 512 7%nat 8 true))) OtherValue).
  reflexivity.
Defined.

Lemma processImage_settles_witness :
  run_updates (mkView idle 0%float None)
    (processImage nat nat (fun b _ => Resolved b) (fun b => Resolved (b + 1)%nat)
       (fun b _ => Resolved (b * 2)%nat) (fun b => b) true 512 7%nat 8 true)
  = mkView done 1%float (Some 16%nat).
Proof.
  pose proof (processImage_settles nat nat (fun b _ => Resolved b)
                (fun b => Resolved (b + 1)%nat) (fun b _ => Resolved (b * 2)%nat)
                (fun b => b) true 512 7%nat 8 true (mkView idle 0%float None))
    as (_ & _ & H & _).
  exact (H 7%nat 8%nat 16%nat eq_refl eq_refl eq_refl).
Defined.

(** ** The image route *)

Lemma or_default_nonempty s fallback :
  fallback <> ""%string -> or_default s fallback <> ""%string.
Proof.
  intros Hf. unfold or_default.
  destruct (String.eqb_spec s ""%string) as [->|Hne]; assumption.
Qed.

(** X22. The route answers 400 exactly when the form has no image, 200
    exactly when the image is there, the API key is set and not empty, the
    upload can be read and the provider returns a non-empty base64 string,
    and in that case the body is that string decoded, served as image/png
    and not to be cached; every other answer is 500 or 502. *)
Theorem POST_status (Data : Type)
    (images_edit : String.string -> EditRequest Data -> Outcome (option String.string))
    (base64_decode : String.string -> Data)
    (formData : Outcome (option (Upload Data) * option String.string))
    (key : option String.string) :
  let r := POST Data images_edit base64_decode formData key in
  (response_status r = 200 \/ response_status r = 400 \/
   response_status r = 500 \/ response_status r = 502) /\
  (response_status r = 400 <-> exists p, formData = Resolved (None, p)) /\
  (response_status r = 200 <->
   exists file p apiKey buffer b64,
     formData = Resolved (Some file, p) /\
     key = Some apiKey /\ apiKey <> ""%string /\
     upload_data file = Resolved buffer /\
     images_edit apiKey
       (edit_request Data file buffer (match p with Some s => s | None => ""%string end))
       = Resolved (Some b64) /\
     b64 <> ""%string /\
     r = ImageBody 200
           [ ("Content-Type", "image/png");
             ("Content-Disposition", CONTENT_DISPOSITION);
             ("Cache-Control", "no-store") ]%string
           (base64_decode b64)).
Proof.
  intros r. subst r. unfold POST, route_catch.
  destruct formData as [[[file|] p]|e]; cbn [response_status].
  - destruct key as [apiKey|]; cbn [response_status].
    + destruct (String.eqb_spec apiKey ""%string) as [->|Hkey]; cbn [response_status].
      * split; [auto|]. split; (split; [discriminate|]).
        -- intros (p' & E). discriminate.
        -- intros (f & p' & k & bf & b64 & _ & Ek & Hk & _). injection Ek as <-. congruence.
      * destruct (upload_data file) as [buffer|e] eqn:Eup; cbn [response_status].
        -- destruct (images_edit apiKey _) as [[b64|]|e] eqn:Eed; cbn [response_status].
           ++ destruct (String.eqb_spec b64 ""%string) as [->|Hb]; cbn [response_status].
              ** split; [auto|]. split; (split; [discriminate|]).
                 --- intros (p' & E). discriminate.
                 --- intros (f & p' & k & bf & b64 & E & Ek & _ & Eu & Ee & Hb & _).
                     injection E as <- <-. injection Ek as <-.
                     rewrite Eup in Eu. injection Eu as <-.
                     rewrite Eed in Ee. injection Ee as <-. congruence.
              ** split; [auto|]. split.
                 --- split; [discriminate|]. intros (p' & E). discriminate.
                 --- split; [intros _|reflexivity].
                     exists file, p, apiKey, buffer, b64. repeat split; auto.
           ++ split; [auto|]. split; (split; [discriminate|]).
              ** intros (p' & E). discriminate.
              ** intros (f & p' & k & bf & b64 & E & Ek & _ & Eu & Ee & _).
                 injection E as <- <-. injection Ek as <-.
                 rewrite Eup in Eu. injection Eu as <-.
                 rewrite Eed in Ee. discriminate.
           ++ split; [auto|]. split; (split; [discriminate|]).
              ** intros (p' & E). discriminate.
              ** intros (f & p' & k & bf & b64 & E & Ek & _ & Eu & Ee & _).
                 injection E as <- <-. injection Ek as <-.
                 rewrite Eup in Eu. injection Eu as <-.
                 rewrite Eed in Ee. discriminate.
        -- split; [auto|]. split; (split; [discriminate|]).
           ++ intros (p' & E). discriminate.
           ++ intros (f & p' & k & bf & b64 & E & _ & _ & Eu & _).
              injection E as <- <-. rewrite Eup in Eu. discriminate.
    + split; [auto|]. split; (split; [discriminate|]).
      * intros (p' & E). discriminate.
      * intros (f & p' & k & bf & b64 & _ & Ek & _). discriminate.
  - split; [auto|]. split.
    + split; [intros _; eauto|reflexivity].
    + split; [discriminate|]. intros (f & p' & k & bf & b64 & E & _). discriminate.
  - split; [auto|]. split; (split; [discriminate|]).
    + intros (p' & E). discriminate.
    + intros (f & p' & k & bf & b64 & E & _). discriminate.
Qed.

Lemma POST_status_witness :
  response_status
    (POST nat (fun _ _ => Resolved (Some "aGk="%string)) (fun _ => 42%nat)
       (Resolved (Some (mkUpload ""%string ""%string (Resolved 7%nat)), None))
       (Some "sk-test"%string)) = 200.
Proof.
  apply (proj2 (proj2 (POST_status nat (fun _ _ => Resolved (Some "aGk="%string))
                         (fun _ => 42%nat)
                         (Resolved (Some (mkUpload ""%string ""%string (Resolved 7%nat)), None))
                         (Some "sk-test"%string)))).
  exists (mkUpload ""%string ""%string (Resolved 7%nat)), None, "sk-test"%string,
    7%nat, "aGk="%string.
  repeat split; try reflexivity; discriminate.
Defined.

(** X23. The route checks before it calls: without an image or without a
    usable API key the answer does not depend on the provider, and the
    provider is only ever called with a non-empty key, prompt, file name
    and file type (an empty prompt is replaced by the default prompt, an
    empty name by input.png, an empty type by image/png). *)
Theorem POST_checks_first (Data : Type)
    (images_edit images_edit' : String.string -> EditRequest Data -> Outcome (option String.string))
    (base64_decode : String.string -> Data)
    (formData : Outcome (option (Upload Data) * option String.string))
    (key : option String.string) :
  ((forall apiKey, key = Some apiKey -> apiKey = ""%string) ->
   POST Data images_edit base64_decode formData key
   = POST Data images_edit' base64_decode formData key) /\
  ((exists p, formData = Resolved (None, p)) ->
   POST Data images_edit base64_decode formData key
   = JsonError 400 "Missing image file"%string) /\
  POST Data images_edit base64_decode formData key
  = POST Data
      (fun apiKey request =>
         if sendable Data apiKey request then images_edit apiKey request
         else Rejected OtherValue)
      base64_decode formData key.
Proof.
  split; [|split].
  - intros Hkey. unfold POST.
    destruct formData as [[[file|] p]|e]; try reflexivity.
    destruct key as [apiKey|]; [|reflexivity].
    rewrite (Hkey apiKey eq_refl). reflexivity.
  - intros (p & ->). reflexivity.
  - unfold POST. destruct formData as [[[file|] p]|e]; try reflexivity.
    destruct key as [apiKey|]; [|reflexivity].
    destruct (String.eqb_spec apiKey ""%string) as [->|Hkey]; [reflexivity|].
    destruct (upload_data file) as [buffer|e]; [|reflexivity].
    assert (Hs : sendable Data apiKey
                   (edit_request Data file buffer
                      (match p with Some s => s | None => ""%string end)) = true).
    { unfold sendable, edit_request. cbn [edit_prompt edit_image_name edit_image_type].
      rewrite !andb_true_iff, !negb_true_iff. repeat split.
      - destruct (String.eqb_spec apiKey ""%string); [contradiction|reflexivity].
      - apply String.eqb_neq, or_default_nonempty. discriminate.
      - apply String.eqb_neq, or_default_nonempty. discriminate.
      - apply String.eqb_neq, or_default_nonempty. discriminate. }
    rewrite Hs. reflexivity.
Qed.

Lemma POST_checks_first_witness :
  POST nat (fun _ _ => Resolved None) (fun _ => 0%nat) (Resolved (None, None)) None
  = JsonError 400 "Missing image file"%string.
Proof.
  apply (proj1 (proj2 (POST_checks_first nat (fun _ _ => Resolved None)
                         (fun _ _ => Resolved None) (fun _ => 0%nat)
                         (Resolved (None, None)) None))).
  exists None. reflexivity.
Defined.
